(** * yes: documentation crawler, chunker and vector store

    A shallow embedding of the ingestion pipeline of the [yes] assistant
    (packages [scraper], [processor], [store] and [config]) together with
    the properties its specification states about it, and of the code
    around it (the configuration loader, the chat engine of package [llm]
    and the pipeline of the command-line program) with properties read
    off the code.

    Conventions.
    - A Go [string] is a byte sequence: Rocq's [string] (a list of [ascii]),
      [len] is [String.length].
    - A Go [int] is modelled by [Z].  The only arithmetic the code performs
      on ints is [len a + len b], [len a - overlap] under a guard,
      [depth + 1] and [i + batchSize] with [i] below a length, on values
      bounded by the size of memory resp. the recursion depth, so 64-bit
      wrap-around cannot occur and is left out.
    - A Go [float64] or [float32] is its IEEE 754 value, a [spec_float]
      of the standard library, compared by [SFeqb], [SFltb] and [SFleb].
    - A run-time panic (slice out of range) is the [None] of the option
      monad; an [error] result is an explicit value.
    - A call that never returns is an outcome of its own: [Blocks] for the
      crawler, [None] for [Scrape].  Loops whose bound is not structural
      run on fuel; a result is proved for every fuel that suffices, and a
      run that never ends is out of fuel for every fuel. *)

From Stdlib Require Import ZArith List Ascii String Bool Lia SpecFloat.
From stdpp Require Import base option list gmap sets strings pretty.

Local Open Scope string_scope.
Local Open Scope list_scope.
Local Open Scope Z_scope.

(** ** Floating-point numbers *)

Definition float64 : Type := spec_float.

Definition float32 : Type := spec_float.

(** The [float64] nearest to [m * 2^e]. *)
Definition f64 (m e : Z) : float64 := binary_normalize 53 1024 m e false.

(** The [float32] nearest to [m * 2^e]. *)
Definition f32 (m e : Z) : float32 := binary_normalize 24 128 m e false.

(** The literal [0.7] as a [float64]: [0x3FE6666666666666]. *)
Definition f64_0_7 : float64 := f64 6305039478318694 (-53).

(** ** Package [strings] of the Go library, on byte strings *)

Module Strings.

Definition len (s : string) : Z := Z.of_nat (String.length s).

(** [s[n:]] for [n] within bounds. *)
Fixpoint drop_bytes (n : nat) (s : string) : string :=
  match n, s with
  | O, _ => s
  | S _, EmptyString => EmptyString
  | S n', String _ s' => drop_bytes n' s'
  end.

(** [s[:n]] for [n] within bounds. *)
Fixpoint take_bytes (n : nat) (s : string) : string :=
  match n, s with
  | O, _ => EmptyString
  | S _, EmptyString => EmptyString
  | S n', String c s' => String c (take_bytes n' s')
  end.

(** The slice expression [s[lo:]]; Go panics unless [0 <= lo <= len s]. *)
Definition slice_from (s : string) (lo : Z) : option string :=
  if (0 <=? lo) && (lo <=? len s) then Some (drop_bytes (Z.to_nat lo) s)
  else None.

Definition HasPrefix (s pre : string) : bool := String.prefix pre s.

(** [len(s) >= len(suffix) && s[len(s)-len(suffix):] == suffix] *)
Definition HasSuffix (s suffix : string) : bool :=
  (len suffix <=? len s) &&
  String.eqb (drop_bytes (String.length s - String.length suffix) s) suffix.

(** [Contains s substr]: some suffix of [s] starts with [substr]. *)
Fixpoint Contains (s substr : string) : bool :=
  String.prefix substr s ||
  match s with
  | EmptyString => false
  | String _ s' => Contains s' substr
  end.

Fixpoint Join (elems : list string) (sep : string) : string :=
  match elems with
  | [] => ""
  | [e] => e
  | e :: rest => e +:+ sep +:+ Join rest sep
  end.

(** [ReplaceAll s old new] for a non-empty [old]: the non-overlapping
    occurrences of [old] are replaced from left to right.  [fuel] bounds
    the number of positions inspected. *)
Fixpoint replace_all (fuel : nat) (s old new : string) : string :=
  match fuel with
  | O => s
  | S fuel' =>
      match s with
      | EmptyString => EmptyString
      | String c s' =>
          if String.prefix old s
          then new +:+ replace_all fuel' (drop_bytes (String.length old) s) old new
          else String c (replace_all fuel' s' old new)
      end
  end.

Definition ReplaceAll (s old new : string) : string :=
  replace_all (S (String.length s)) s old new.

(** The functions of package [strings] whose result depends on the
    Unicode tables ([unicode.IsSpace], [unicode.ToLower]).  The code is
    verified against any implementation of them. *)
Class Unicode := {
  ToLower : string -> string;
  TrimSpace : string -> string;
  Fields : string -> list string;
  (* package [unicode/utf8]; a rune is its code point *)
  ValidString : string -> bool;
  DecodeRuneInString : string -> Z * Z;
  string_of_runes : list Z -> string
}.

Definition RuneError : Z := 65533.

(** *** The ASCII instance

    On a string all of whose bytes are below [0x80] the library
    functions reduce to the definitions below (white space is
    ['\t' '\n' '\v' '\f' '\r' ' '], letters are [A-Z]); bytes from [0x80]
    on are left alone.  The instance is what concrete runs are evaluated
    with; they use ASCII text only. *)

Definition asciiSpace (c : ascii) : bool :=
  let n := nat_of_ascii c in
  ((9 <=? n)%nat && (n <=? 13)%nat) || (n =? 32)%nat.

Fixpoint trim_left (s : string) : string :=
  match s with
  | EmptyString => EmptyString
  | String c s' => if asciiSpace c then trim_left s' else s
  end.

(** Trims the white space at the end; the result is empty when [s] is
    all white space. *)
Fixpoint trim_right (s : string) : string :=
  match s with
  | EmptyString => EmptyString
  | String c s' =>
      match trim_right s' with
      | EmptyString => if asciiSpace c then EmptyString else String c EmptyString
      | t => String c t
      end
  end.

Definition ascii_TrimSpace (s : string) : string := trim_right (trim_left s).

Definition ascii_lower (c : ascii) : ascii :=
  let n := nat_of_ascii c in
  if (65 <=? n)%nat && (n <=? 90)%nat then ascii_of_nat (n + 32) else c.

Fixpoint ascii_ToLower (s : string) : string :=
  match s with
  | EmptyString => EmptyString
  | String c s' => String (ascii_lower c) (ascii_ToLower s')
  end.

(** [fields_from cur s]: [cur] is the field being read. *)
Fixpoint fields_from (cur : string) (s : string) : list string :=
  match s with
  | EmptyString => if String.eqb cur "" then [] else [cur]
  | String c s' =>
      if asciiSpace c
      then (if String.eqb cur "" then fields_from "" s'
            else cur :: fields_from "" s')
      else fields_from (cur +:+ String c "") s'
  end.

Definition ascii_Fields (s : string) : list string := fields_from "" s.

Definition isASCII (c : ascii) : bool := (nat_of_ascii c <? 128)%nat.

Fixpoint ascii_ValidString (s : string) : bool :=
  match s with
  | EmptyString => true
  | String c s' => isASCII c && ascii_ValidString s'
  end.

Definition ascii_DecodeRune (s : string) : Z * Z :=
  match s with
  | EmptyString => (RuneError, 0)
  | String c _ =>
      if isASCII c then (Z.of_nat (nat_of_ascii c), 1) else (RuneError, 1)
  end.

Fixpoint ascii_of_runes (rs : list Z) : string :=
  match rs with
  | [] => EmptyString
  | r :: rest =>
      (if (0 <=? r) && (r <? 128)
       then String (ascii_of_nat (Z.to_nat r)) EmptyString
       else String "239"%char (String "191"%char (String "189"%char EmptyString)))
      +:+ ascii_of_runes rest
  end.

#[export] Instance ascii_unicode : Unicode := {|
  ToLower := ascii_ToLower;
  TrimSpace := ascii_TrimSpace;
  Fields := ascii_Fields;
  ValidString := ascii_ValidString;
  DecodeRuneInString := ascii_DecodeRune;
  string_of_runes := ascii_of_runes
|}.

End Strings.

(** ** Package [internal/models]

    The package is not among the sources; the two records carry the
    fields that [scraper], [processor] and [store] read and write.
    [Metadata] is a [map[string]interface{}]: a finite map to the values
    the crawler puts into it. *)

Module models.

Inductive Value :=
| VInt (n : Z)
| VStr (s : string)
| VTime (t : nat).

Record Document := {
  ID : string;
  URL : string;
  Title : string;
  Content : string;
  Metadata : gmap string Value
}.

Record ProcessedDocument := {
  Doc : Document;
  Chunks : list string
}.

End models.

(** A Go [error]: [None] is [nil]. *)
Definition error : Type := option string.

(** ** Package [processor] *)

Module processor.
Import Strings models.

Record ProcessorConfig := {
  ChunkSize : Z;
  ChunkOverlap : Z;
  MinChunkLength : Z;
  RemoveStopwords : bool;
  CustomStopwords : list string;
  PreserveLineBreaks : bool
}.

Record Processor := { config : ProcessorConfig }.

Definition NewWithConfig (c : ProcessorConfig) : Processor :=
  {| config := {|
       ChunkSize := if ChunkSize c =? 0 then 1000 else ChunkSize c;
       ChunkOverlap := if ChunkOverlap c =? 0 then 200 else ChunkOverlap c;
       MinChunkLength := if MinChunkLength c =? 0 then 100 else MinChunkLength c;
       RemoveStopwords := RemoveStopwords c;
       CustomStopwords := CustomStopwords c;
       PreserveLineBreaks := PreserveLineBreaks c |} |}.

Definition newline : string := String "010"%char EmptyString.

Definition sentenceEnders : list string :=
  [". "; "! "; "? "; "." +:+ newline; "!" +:+ newline; "?" +:+ newline].

(** Common English stopwords *)
Definition getStopwords : list string :=
  ["a"; "an"; "and"; "are"; "as"; "at"; "be"; "by"; "for";
   "from"; "has"; "he"; "in"; "is"; "it"; "its"; "of"; "on";
   "that"; "the"; "to"; "was"; "were"; "will"; "with"].

Definition contains (slice : list string) (item : string) : bool :=
  existsb (fun s => String.eqb s item) slice.

Section WithUnicode.
Context `{Unicode}.

(** One iteration of the byte loop of [splitIntoSentences]; the state is
    [(sentences, current)]. *)
Definition sentenceStep (st : list string * string) (b : ascii)
  : list string * string :=
  let '(sentences, current) := st in
  let current := current +:+ String b EmptyString in
  if existsb (HasSuffix current) sentenceEnders
  then (sentences ++ [TrimSpace current], "")
  else (sentences, current).

Definition splitIntoSentences (p : Processor) (text : string) : list string :=
  let '(sentences, current) :=
    fold_left sentenceStep (list_ascii_of_string text) ([], "") in
  if 0 <? len current then sentences ++ [TrimSpace current] else sentences.

(** One iteration of the sentence loop of [splitIntoChunks]; the state is
    [(chunks, currentChunk)], the builder being its content. *)
Definition chunkStep (p : Processor) (st : list string * string)
    (sentence : string) : option (list string * string) :=
  let '(chunks, currentChunk) := st in
  st' ←
    (if len currentChunk + len sentence >? ChunkSize (config p) then
       let chunks :=
         if len currentChunk >=? MinChunkLength (config p)
         then chunks ++ [currentChunk] else chunks in
       if (ChunkOverlap (config p) >? 0)
          && (len currentChunk >? ChunkOverlap (config p))
       then
         lastPart ← slice_from currentChunk
                       (len currentChunk - ChunkOverlap (config p));
         Some (chunks, lastPart)
       else Some (chunks, "")
     else Some (chunks, currentChunk));
  Some (st'.1, (st'.2 +:+ sentence) +:+ " ").

Fixpoint chunkLoop (p : Processor) (sentences : list string)
    (st : list string * string) : option (list string * string) :=
  match sentences with
  | [] => Some st
  | sentence :: rest => st' ← chunkStep p st sentence; chunkLoop p rest st'
  end.

Definition splitIntoChunks (p : Processor) (text : string)
  : option (list string) :=
  st ← chunkLoop p (splitIntoSentences p text) ([], "");
  Some (if len st.2 >=? MinChunkLength (config p)
        then st.1 ++ [TrimSpace st.2] else st.1).

Definition removeStopwords (p : Processor) (text : string) : string :=
  let words := Fields text in
  let stopwords :=
    if (0 <? length (CustomStopwords (config p)))%nat
    then getStopwords ++ CustomStopwords (config p) else getStopwords in
  Join (filter (fun word => negb (contains stopwords word)) words) " ".

Definition cleanText (p : Processor) (text : string) : string :=
  let text := if negb (PreserveLineBreaks (config p)) then ToLower text else text in
  let text := Join (Fields text) " " in
  let text := if RemoveStopwords (config p) then removeStopwords p text else text in
  TrimSpace text.

Fixpoint processLoop (p : Processor) (docs : list Document)
    (processed : list ProcessedDocument) : option (list ProcessedDocument) :=
  match docs with
  | [] => Some processed
  | doc :: rest =>
      let cleanContent := cleanText p (Content doc) in
      chunks ← splitIntoChunks p cleanContent;
      processLoop p rest (processed ++ [{| Doc := doc; Chunks := chunks |}])
  end.

Definition Process (p : Processor) (docs : list Document)
  : option (list ProcessedDocument * error) :=
  processed ← processLoop p docs [];
  Some (processed, None).

End WithUnicode.

(** *** Notions the properties are stated with *)

(** The bytes a closed chunk of content [A] hands over to the next one
    when the overlap is [V]: [A[len(A)-V:]]. *)
Definition overlapSeed (V : Z) (A : string) : string :=
  drop_bytes (Z.to_nat (len A - V)) A.

(** The invariant of the sentence loop behind the overlap property: in
    the chunks emitted so far each one longer than [V] is followed by a
    chunk that starts with its seed, and so does the builder after the
    last of them. *)
Definition overlapInv (V : Z) (st : list string * string) : Prop :=
  (forall (i : nat) (A B : string),
      st.1 !! i = Some A -> st.1 !! S i = Some B -> V < len A ->
      HasPrefix B (overlapSeed V A) = true)
  /\ (forall L : string,
        last st.1 = Some L -> V < len L ->
        HasPrefix st.2 (overlapSeed V L) = true /\ V < len st.2).

(** The constraints the specification puts on a chunker configuration. *)
Definition specValid (c : ProcessorConfig) : bool :=
  (ChunkOverlap c <? ChunkSize c) && (0 <=? ChunkOverlap c)
  && (0 <? ChunkSize c) && (0 <? MinChunkLength c).

(** The bytes the sentences take in the builder: each one with the space
    written after it. *)
Definition builderBytes (sentences : list string) : Z :=
  fold_right (fun s n => len s + 1 + n) 0 sentences.

End processor.

(** A Go result [(T, error)] of a call that either yields the value or
    the error. *)
Inductive result (A : Type) : Type :=
| Ok (a : A)
| Err (e : string).
Arguments Ok {A} a.
Arguments Err {A} e.

(** ** Package [net/url] of the Go library

    The parser is the library's; the code is verified against any
    implementation of the operations it calls. *)

Module url.

Class Lib := {
  URL : Type;
  Parse : string -> result URL;
  Host : URL -> string;
  Path : URL -> string;
  IsAbs : URL -> bool;
  ResolveReference : URL -> URL -> URL;
  URL_String : URL -> string
}.

End url.

(** ** Package [config]: the validator *)

Module config.
Import Strings.

Record LLMConfig := {
  BaseURL : string;
  Model : string;
  MaxTokens : Z;
  Temperature : float64
}.

Record DatabaseConfig := {
  DB_URL : string;
  TableName : string;
  VectorDim : Z;
  BatchSize : Z
}.

Record ScraperConfig := {
  MaxDepth : Z;
  RateLimit : float64;
  IgnorePatterns : list string;
  AllowedExtensions : list string
}.

Record ProcessorConfig := {
  ChunkSize : Z;
  ChunkOverlap : Z;
  RemoveStopwords : bool
}.

Record UIConfig := {
  Streaming : bool;
  Theme : string
}.

Record Config := {
  LLM : LLMConfig;
  Database : DatabaseConfig;
  Scraper : ScraperConfig;
  Processor : ProcessorConfig;
  UI : UIConfig
}.

Record ValidationError := {
  Field : string;
  Message : string
}.

(** [if cond { errors = append(errors, e) }] *)
Definition appendIf (cond : bool) (errors : list ValidationError)
    (e : ValidationError) : list ValidationError :=
  if cond then errors ++ [e] else errors.

Definition isErr {A : Type} (r : result A) : bool :=
  match r with Ok _ => false | Err _ => true end.

Section WithURL.
Context `{url.Lib}.

Definition Validate (c : Config) : list ValidationError :=
  let errors := [] in
  (* Validate LLM config *)
  let errors := appendIf (String.eqb (BaseURL (LLM c)) "") errors
    {| Field := "llm.base_url"; Message := "Ollama base URL is required" |} in
  let errors := appendIf ((MaxTokens (LLM c) <? 1) || (MaxTokens (LLM c) >? 4096)) errors
    {| Field := "llm.max_tokens";
       Message := "max_tokens must be between 1 and 4096" |} in
  let errors := appendIf (SFltb (Temperature (LLM c)) (f64 0 0)
                          || SFltb (f64 2 0) (Temperature (LLM c))) errors
    {| Field := "llm.temperature";
       Message := "temperature must be between 0 and 2" |} in
  (* Validate Database config *)
  let errors := appendIf (negb (String.eqb (DB_URL (Database c)) "")
                          && isErr (url.Parse (DB_URL (Database c)))) errors
    {| Field := "database.url"; Message := "invalid database URL" |} in
  let errors := appendIf (VectorDim (Database c) <? 1) errors
    {| Field := "database.vector_dim"; Message := "vector_dim must be positive" |} in
  let errors := appendIf (BatchSize (Database c) <? 1) errors
    {| Field := "database.batch_size"; Message := "batch_size must be positive" |} in
  (* Validate Scraper config *)
  let errors := appendIf (MaxDepth (Scraper c) <? 1) errors
    {| Field := "scraper.max_depth"; Message := "max_depth must be positive" |} in
  let errors := appendIf (SFleb (RateLimit (Scraper c)) (f64 0 0)) errors
    {| Field := "scraper.rate_limit"; Message := "rate_limit must be positive" |} in
  (* Validate extensions format *)
  let errors :=
    fold_left (fun errors ext =>
      appendIf (negb (HasPrefix ext ".") && negb (String.eqb ext "")
                && negb (String.eqb ext "/")) errors
        {| Field := "scraper.allowed_extensions";
           Message := "invalid extension format: " +:+ ext |})
      (AllowedExtensions (Scraper c)) errors in
  (* Validate Processor config *)
  let errors := appendIf (ChunkSize (Processor c) <? 1) errors
    {| Field := "processor.chunk_size"; Message := "chunk_size must be positive" |} in
  let errors := appendIf ((ChunkOverlap (Processor c) <? 0)
                          || (ChunkOverlap (Processor c) >=? ChunkSize (Processor c))) errors
    {| Field := "processor.chunk_overlap";
       Message := "chunk_overlap must be non-negative and less than chunk_size" |} in
  (* Validate base URL format *)
  let errors := appendIf (isErr (url.Parse (BaseURL (LLM c)))) errors
    {| Field := "llm.base_url"; Message := "invalid Ollama base URL" |} in
  errors.

End WithURL.

(** The errors the properties are about. *)
Definition rateLimitError : ValidationError :=
  {| Field := "scraper.rate_limit"; Message := "rate_limit must be positive" |}.

Definition chunkSizeError : ValidationError :=
  {| Field := "processor.chunk_size"; Message := "chunk_size must be positive" |}.

Definition chunkOverlapError : ValidationError :=
  {| Field := "processor.chunk_overlap";
     Message := "chunk_overlap must be non-negative and less than chunk_size" |}.

(** *** Loading: defaults, environment, file *)

(** The zero value [Config{}]. *)
Definition zeroConfig : Config :=
  {| LLM := {| BaseURL := ""; Model := ""; MaxTokens := 0;
               Temperature := f64 0 0 |};
     Database := {| DB_URL := ""; TableName := ""; VectorDim := 0;
                    BatchSize := 0 |};
     Scraper := {| MaxDepth := 0; RateLimit := f64 0 0; IgnorePatterns := [];
                   AllowedExtensions := [] |};
     Processor := {| ChunkSize := 0; ChunkOverlap := 0;
                     RemoveStopwords := false |};
     UI := {| Streaming := false; Theme := "" |} |}.

Definition applyDefaults (config : Config) : Config :=
  {| LLM :=
       {| BaseURL := if String.eqb (BaseURL (LLM config)) ""
                     then "http://localhost:11434" else BaseURL (LLM config);
          Model := if String.eqb (Model (LLM config)) ""
                   then "mistral" else Model (LLM config);
          MaxTokens := if MaxTokens (LLM config) =? 0
                       then 2000 else MaxTokens (LLM config);
          Temperature := if SFeqb (Temperature (LLM config)) (f64 0 0)
                         then f64_0_7 else Temperature (LLM config) |};
     Database :=
       {| DB_URL := DB_URL (Database config);
          TableName := if String.eqb (TableName (Database config)) ""
                       then "documents" else TableName (Database config);
          VectorDim := if VectorDim (Database config) =? 0
                       then 1536 else VectorDim (Database config);
          BatchSize := if BatchSize (Database config) =? 0
                       then 100 else BatchSize (Database config) |};
     Scraper :=
       {| MaxDepth := if MaxDepth (Scraper config) =? 0
                      then 3 else MaxDepth (Scraper config);
          RateLimit := if SFeqb (RateLimit (Scraper config)) (f64 0 0)
                       then f64 2 0 else RateLimit (Scraper config);
          IgnorePatterns := IgnorePatterns (Scraper config);
          AllowedExtensions :=
            if (length (AllowedExtensions (Scraper config)) =? 0)%nat
            then [".html"; ".htm"; "/"; ""]
            else AllowedExtensions (Scraper config) |};
     Processor :=
       {| ChunkSize := if ChunkSize (Processor config) =? 0
                       then 1000 else ChunkSize (Processor config);
          ChunkOverlap := if ChunkOverlap (Processor config) =? 0
                          then 200 else ChunkOverlap (Processor config);
          RemoveStopwords := RemoveStopwords (Processor config) |};
     UI :=
       {| Streaming := Streaming (UI config);
          Theme := if String.eqb (Theme (UI config)) ""
                   then "default" else Theme (UI config) |} |}.

(** What the loader asks of the operating system and of the YAML
    library: the environment, whether [os.Stat] of a path succeeds, the
    content of a file, the configuration a document decodes to, and
    [filepath.Join]. *)
Class OS := {
  Getenv : string -> string;
  Stat_ok : string -> bool;
  ReadFile : string -> result string;
  yaml_Unmarshal : string -> result Config;
  filepath_Join : string -> string -> string
}.

Section WithOS.
Context `{OS}.

Definition mergeWithEnv (config : Config) : Config :=
  let baseURL := Getenv "OLLAMA_BASE_URL" in
  let dbURL := Getenv "DATABASE_URL" in
  {| LLM := {| BaseURL := if negb (String.eqb baseURL "") then baseURL
                          else BaseURL (LLM config);
               Model := Model (LLM config);
               MaxTokens := MaxTokens (LLM config);
               Temperature := Temperature (LLM config) |};
     Database := {| DB_URL := if negb (String.eqb dbURL "") then dbURL
                              else DB_URL (Database config);
                    TableName := TableName (Database config);
                    VectorDim := VectorDim (Database config);
                    BatchSize := BatchSize (Database config) |};
     Scraper := Scraper config;
     Processor := Processor config;
     UI := UI config |}.

Definition getDefaultConfig : result Config :=
  let config := zeroConfig in
  let config := applyDefaults config in
  let config := mergeWithEnv config in
  Ok config.

(** The default locations, in the order they are tried. *)
Definition locations : list string :=
  ["config.yaml"; "config.yml";
   filepath_Join (Getenv "HOME") ".config/yestion/config.yaml";
   "/etc/yestion/config.yaml"].

Definition LoadConfig (path : string) : result Config :=
  (* If no path provided, try default locations *)
  let path :=
    if String.eqb path ""
    then match List.find Stat_ok locations with
         | Some loc => loc
         | None => path
         end
    else path in
  if String.eqb path "" then getDefaultConfig
  else
    match ReadFile path with
    | Err err => Err ("error reading config file: " +:+ err)
    | Ok data =>
        match yaml_Unmarshal data with
        | Err err => Err ("error parsing config file: " +:+ err)
        | Ok config =>
            (* Merge with environment variables *)
            let config := mergeWithEnv config in
            (* Apply defaults for unset values *)
            let config := applyDefaults config in
            Ok config
        end
    end.

End WithOS.

(** The fields [applyDefaults] fills are set. *)
Definition defaultsApplied (c : Config) : Prop :=
  BaseURL (LLM c) <> "" /\ Model (LLM c) <> "" /\ MaxTokens (LLM c) <> 0
  /\ SFeqb (Temperature (LLM c)) (f64 0 0) = false
  /\ TableName (Database c) <> "" /\ VectorDim (Database c) <> 0
  /\ BatchSize (Database c) <> 0
  /\ MaxDepth (Scraper c) <> 0
  /\ SFeqb (RateLimit (Scraper c)) (f64 0 0) = false
  /\ AllowedExtensions (Scraper c) <> []
  /\ ChunkSize (Processor c) <> 0 /\ ChunkOverlap (Processor c) <> 0
  /\ Theme (UI c) <> "".

Definition temperatureError : ValidationError :=
  {| Field := "llm.temperature";
     Message := "temperature must be between 0 and 2" |}.

End config.

(** ** Package [scraper] *)

Module scraper.
Import Strings models.

Record ScraperConfig := {
  BaseURL : string;
  MaxDepth : Z;
  RateLimit : float64;             (* requests per second *)
  IgnorePatterns : list string;
  AllowedExtensions : list string;
  Timeout : Z;                   (* a [time.Duration], in nanoseconds *)
  OnProgress : bool              (* whether a progress callback is set *)
}.

(** [rate.NewLimiter(limit, burst)] *)
Record Limiter := { limit : float64; burst : Z }.

(** The fields of [Scraper]; [client] is its [Timeout]. *)
Record Scraper := {
  config : ScraperConfig;
  client : Z;
  visited : gmap string bool;
  limiter : Limiter;
  baseHost : string
}.

(** An HTTP response as far as the crawler reads it. *)
Record Response := {
  StatusCode : Z;
  Header_Get : string -> string;
  Body : string
}.

(** What a call of [limiter.Wait] comes to: it returns, with an error or
    without, or it never returns.  The latter is what [rate.Limiter] does
    to a caller that needs a token the limiter will never have, as with a
    negative limit. *)
Inductive Waited : Type :=
| Returned (err : error)
| WaitsForever.

(** The collaborators of the crawler: rate limiter, HTTP client, clock and
    HTML parser ([goquery]).  What they answer may depend on the requests
    sent so far, which is their first argument.  [client_Get history
    timeout u] is what [client.Get(u)] does: the GET requests the client
    sends, in order, and what the call returns.  The client is built
    without [CheckRedirect] and so follows redirects: the requests are
    the one for [u] and one for each redirect followed.  [Find_hrefs doc]
    are the [href] values of the elements that [doc.Find("a[href]")]
    selects, in document order. *)
Class World := {
  limiter_Wait : list string -> Limiter -> Waited;
  client_Get : list string -> Z -> string -> list string * result Response;
  time_Now : list string -> nat;
  HtmlDoc : Type;
  NewDocumentFromReader : string -> result HtmlDoc;
  Find_Length : HtmlDoc -> string -> nat;
  Find_Text : HtmlDoc -> string -> string;
  Find_hrefs : HtmlDoc -> list string
}.

(** The scraper together with what it has done to the outside world:
    the addresses it has called [client.Get] with, the GET requests the
    client has sent for them, and the calls of the progress callback. *)
Record State := {
  self : Scraper;
  gets : list string;
  requests : list string;
  progress : list string
}.

(** How a call of the crawler ends: it returns, it never returns because
    a call of [limiter.Wait] does not, or the embedding ran out of fuel. *)
Inductive Run (A : Type) : Type :=
| Returns (a : A)
| Blocks
| OutOfFuel.
Arguments Returns {A} a.
Arguments Blocks {A}.
Arguments OutOfFuel {A}.

Section WithWorld.
Context `{Unicode} `{url.Lib} `{World}.

Definition NewWithConfig (config : ScraperConfig) : result Scraper :=
  let timeout := if Timeout config =? 0 then 30 * 1000000000 else Timeout config in
  let maxDepth := if MaxDepth config =? 0 then 3 else MaxDepth config in
  let rateLimit :=
    if SFeqb (RateLimit config) (f64 0 0) then f64 2 0
    else RateLimit config in
  let allowedExtensions :=
    if (length (AllowedExtensions config) =? 0)%nat
    then [".html"; ".htm"; "/"; ""] else AllowedExtensions config in
  match url.Parse (BaseURL config) with
  | Err err => Err err
  | Ok parsedURL =>
      Ok {| config := {| BaseURL := BaseURL config;
                         MaxDepth := maxDepth;
                         RateLimit := rateLimit;
                         IgnorePatterns := IgnorePatterns config;
                         AllowedExtensions := allowedExtensions;
                         Timeout := timeout;
                         OnProgress := OnProgress config |};
            client := timeout;
            visited := ∅;
            limiter := {| limit := rateLimit; burst := 1 |};
            baseHost := url.Host parsedURL |}
  end.

Definition shouldProcessURL (s : Scraper) (urlStr : string) : bool :=
  match url.Parse urlStr with
  | Err _ => false
  | Ok parsedURL =>
      (* Check if URL is from the same host *)
      if negb (String.eqb (url.Host parsedURL) (baseHost s)) then false
      else
        (* Check extensions *)
        let ext := ToLower (url.Path parsedURL) in
        let validExt := existsb (HasSuffix ext) (AllowedExtensions (config s)) in
        if negb validExt then false
        else
          (* Check ignore patterns *)
          if existsb (Contains urlStr) (IgnorePatterns (config s)) then false
          else true
  end.

Definition noisePatterns : list string :=
  ["Cookie Policy"; "Accept Cookies"; "Privacy Policy"; "Terms of Service"].

Definition cleanContent (content : string) : string :=
  let content := Join (Fields content) " " in
  let content :=
    fold_left (fun content pattern => ReplaceAll content pattern "")
              noisePatterns content in
  TrimSpace content.

Definition selectors : list string :=
  ["main"; "article"; ".content"; "#content"; ".documentation"; "#documentation"].

Definition extractMainContent (doc : HtmlDoc) : string :=
  let content :=
    match List.find (fun selector => (0 <? Find_Length doc selector)%nat) selectors with
    | Some selector => Find_Text doc selector
    | None => ""
    end in
  let content := if String.eqb content "" then Find_Text doc "body" else content in
  cleanContent content.

Definition isVisited (s : Scraper) (urlStr : string) : bool :=
  default false (visited s !! urlStr).

Definition markVisited (s : Scraper) (urlStr : string) : Scraper :=
  {| config := config s; client := client s;
     visited := <[urlStr := true]> (visited s);
     limiter := limiter s; baseHost := baseHost s |}.

(** The absolute URL a link of the page [urlStr] leads to; [None] when the
    link is skipped (its [href], or the page address, does not parse). *)
Definition resolveLink (urlStr href : string) : option string :=
  match url.Parse href with
  | Err _ => None
  | Ok absoluteURL =>
      if negb (url.IsAbs absoluteURL) then
        match url.Parse urlStr with
        | Err _ => None
        | Ok base => Some (url.URL_String (url.ResolveReference base absoluteURL))
        end
      else Some (url.URL_String absoluteURL)
  end.

(** The body of [doc.Find("a[href]").Each]: [visit] is the recursive call,
    whose error is logged and dropped. *)
Fixpoint eachLink
    (visit : string -> list Document -> State -> Run (error * list Document * State))
    (urlStr : string) (hrefs : list string)
    (documents : list Document) (st : State) : Run (list Document * State) :=
  match hrefs with
  | [] => Returns (documents, st)
  | href :: rest =>
      match resolveLink urlStr href with
      | None => eachLink visit urlStr rest documents st
      | Some absoluteURL =>
          match visit absoluteURL documents st with
          | Returns r => eachLink visit urlStr rest r.1.2 r.2
          | Blocks => Blocks
          | OutOfFuel => OutOfFuel
          end
      end
  end.

(** [fuel] bounds the depth of the recursion.  [documents] is the slice
    the pointer argument refers to. *)
Fixpoint scrapeRecursive (fuel : nat) (urlStr : string) (depth : Z)
    (documents : list Document) (st : State)
  : Run (error * list Document * State) :=
  match fuel with
  | O => OutOfFuel
  | S fuel =>
      let s := self st in
      if (depth >? MaxDepth (config s)) || isVisited s urlStr
      then Returns (None, documents, st)
      else if negb (shouldProcessURL s urlStr)
      then Returns (None, documents, st)
      else
        let s := markVisited s urlStr in
        let progress :=
          if OnProgress (config s) then progress st ++ [urlStr] else progress st in
        let history := requests st in
        (* Apply rate limiting *)
        match limiter_Wait history (limiter s) with
        | WaitsForever => Blocks
        | Returned (Some err) =>
            Returns (Some err, documents,
                     {| self := s; gets := gets st; requests := history;
                        progress := progress |})
        | Returned None =>
            let got := client_Get history (client s) urlStr in
            let st := {| self := s; gets := gets st ++ [urlStr];
                         requests := history ++ got.1;
                         progress := progress |} in
            match got.2 with
            | Err err => Returns (Some err, documents, st)
            | Ok resp =>
                if negb (StatusCode resp =? 200)
                then Returns (Some ("received status code " +:+ pretty (StatusCode resp)
                                    +:+ " for URL: " +:+ urlStr), documents, st)
                else
                  match NewDocumentFromReader (Body resp) with
                  | Err err => Returns (Some err, documents, st)
                  | Ok doc =>
                      (* Extract content *)
                      let content := extractMainContent doc in
                      let title := Find_Text doc "title" in
                      (* Create document *)
                      let document :=
                        {| ID := ""; URL := urlStr; Title := title;
                           Content := content;
                           Metadata :=
                             <["lastModified" := VStr (Header_Get resp "Last-Modified")]>
                             (<["contentType" := VStr (Header_Get resp "Content-Type")]>
                             (<["time" := VTime (time_Now history)]>
                             (<["depth" := VInt depth]> ∅))) |} in
                      let documents := documents ++ [document] in
                      (* Find and follow links *)
                      match eachLink (fun u => scrapeRecursive fuel u (depth + 1))
                              urlStr (Find_hrefs doc) documents st with
                      | Returns r => Returns (None, r.1, r.2)
                      | Blocks => Blocks
                      | OutOfFuel => OutOfFuel
                      end
                  end
            end
        end
  end.

(** The recursion is at most [MaxDepth + 2] calls deep. *)
Definition scrapeFuel (s : Scraper) : nat :=
  S (Z.to_nat (MaxDepth (config s) + 1)).

(** [None]: the call never returns.  [scrapeFuel] is always enough, so
    this is the case exactly when a call of [limiter.Wait] never
    returns. *)
Definition Scrape (urlStr : string) (st : State)
  : option (list Document * error * State) :=
  match scrapeRecursive (scrapeFuel (self st)) urlStr 0 [] st with
  | Returns r => Some (r.1.2, r.1.1, r.2)
  | Blocks | OutOfFuel => None
  end.

(** *** Notions the properties are stated with *)

(** What holds of a document the crawler emits at depth [lo] or deeper:
    its address passed the admission test and its recorded depth is
    within bounds. *)
Definition inScope (s : Scraper) (lo : Z) (d : Document) : Prop :=
  shouldProcessURL s (URL d) = true
  /\ exists k, Metadata d !! "depth" = Some (VInt k)
               /\ lo <= k <= MaxDepth (config s).

(** [sameScraper s1 s0]: the two differ in the visited set at most. *)
Definition sameScraper (s1 s0 : Scraper) : Prop :=
  config s1 = config s0 /\ client s1 = client s0
  /\ limiter s1 = limiter s0 /\ baseHost s1 = baseHost s0.

(** The effect of a stretch of a crawl that leads from [st0] with the
    documents [docs0] to [st1] with [docs1]: the visited set grows, the
    addresses [client.Get] is called with are pairwise distinct and were
    not visited before, and the documents added belong to some of them,
    in order. *)
Definition crawlStep (lo : Z) (docs0 : list Document) (st0 : State)
    (docs1 : list Document) (st1 : State) : Prop :=
  sameScraper (self st1) (self st0)
  /\ (forall u, isVisited (self st0) u = true -> isVisited (self st1) u = true)
  /\ exists (new : list string) (newdocs : list Document),
       gets st1 = gets st0 ++ new
       /\ NoDup new
       /\ (forall u, u ∈ new ->
             isVisited (self st0) u = false /\ isVisited (self st1) u = true)
       /\ docs1 = docs0 ++ newdocs
       /\ sublist (URL <$> newdocs) new
       /\ Forall (inScope (self st0) lo) newdocs.

(** Whether a scraper built from [cfg] admits [urlStr]. *)
Definition admits (cfg : ScraperConfig) (urlStr : string) : bool :=
  match NewWithConfig cfg with
  | Ok s => shouldProcessURL s urlStr
  | Err _ => false
  end.

(** The state a freshly built scraper starts in. *)
Definition freshState (s : Scraper) : State :=
  {| self := s; gets := []; requests := []; progress := [] |}.

(** The limiter of [s] lets every caller through in the end. *)
Definition limiterReturns (s : Scraper) : Prop :=
  forall history, limiter_Wait history (limiter s) <> WaitsForever.


(** [crawls st st']: a sequence of [Scrape] calls that returned leads
    from [st] to [st']. *)
Inductive crawls : State -> State -> Prop :=
| crawls_refl (st : State) : crawls st st
| crawls_step (st : State) (u : string) (docs : list Document) (err : error)
    (st1 st2 : State) :
    Scrape u st = Some (docs, err, st1) -> crawls st1 st2 -> crawls st st2.

(** [s.visited[u] = true] for each [u] of [marked], in order. *)
Definition markAll (marked : list string) (s : Scraper) : Scraper :=
  fold_left markVisited marked s.

(** The log of a stretch of a crawl that leads from [st0] with the
    documents [docs0] to [st1] with [docs1]: the addresses [marked]
    visited in it passed the admission test and were not visited before,
    the progress callback, if set, was called on each of them,
    [client.Get] was called with some of them, and the documents added
    carry no [ID]. *)
Definition crawlLog (docs0 : list Document) (st0 : State)
    (docs1 : list Document) (st1 : State) : Prop :=
  exists (marked new : list string) (newdocs : list Document),
    self st1 = markAll marked (self st0)
    /\ progress st1 = (if OnProgress (config (self st0))
                       then progress st0 ++ marked else progress st0)
    /\ gets st1 = gets st0 ++ new
    /\ sublist new marked
    /\ NoDup marked
    /\ Forall (fun u => shouldProcessURL (self st0) u = true
                        /\ isVisited (self st0) u = false) marked
    /\ docs1 = docs0 ++ newdocs
    /\ Forall (fun d => ID d = "") newdocs.

End WithWorld.

End scraper.

(** ** Package [store] *)

Module store.
Import Strings models.

(** A row of the table [id TEXT PRIMARY KEY, url, title, content,
    chunk_index, embedding, metadata]; the table is the finite map from
    [id] to the rest of the row. *)
Record Row := {
  url : string;
  title : string;
  content : string;
  chunk_index : Z;
  embedding : list float32;
  metadata : gmap string Value
}.

(** The database behind the pool: the committed table and the working
    copy of the open transaction, if any. *)
Record DB := {
  committed : gmap string Row;
  tx : option (gmap string Row)
}.

(** The collaborators of the store: the embedding model and the ways the
    database refuses a request. *)
Class Backend := {
  CreateEmbedding : list string -> result (list (list float32));
  Begin_error : gmap string Row -> error;
  Exec_error : string -> Row -> error;
  Commit_error : gmap string Row -> error
}.

(** [INSERT ... VALUES (id, ...) ON CONFLICT (id) DO UPDATE SET content,
    embedding, metadata = EXCLUDED.*] *)
Definition insertStmt (id : string) (row : Row) (t : gmap string Row)
  : gmap string Row :=
  match t !! id with
  | Some old =>
      <[id := {| url := url old; title := title old; content := content row;
                 chunk_index := chunk_index old; embedding := embedding row;
                 metadata := metadata row |}]> t
  | None => <[id := row]> t
  end.

Section WithBackend.
Context `{Unicode} `{Backend}.

(** [pool.Begin] *)
Definition Begin (db : DB) : result DB :=
  match Begin_error (committed db) with
  | Some err => Err err
  | None => Ok {| committed := committed db; tx := Some (committed db) |}
  end.

(** [tx.Exec] of the insert statement *)
Definition Exec (id : string) (row : Row) (db : DB) : error * DB :=
  match tx db with
  | None => (Some "tx is closed", db)
  | Some t =>
      match Exec_error id row with
      | Some err => (Some err, db)
      | None => (None, {| committed := committed db;
                          tx := Some (insertStmt id row t) |})
      end
  end.

(** [tx.Commit]: the working copy becomes the table, or is discarded when
    the commit is refused. *)
Definition Commit (db : DB) : error * DB :=
  match tx db with
  | None => (Some "tx is closed", db)
  | Some t =>
      match Commit_error t with
      | Some err => (Some err, {| committed := committed db; tx := None |})
      | None => (None, {| committed := t; tx := None |})
      end
  end.

(** [tx.Rollback]: discards the working copy; without effect on a closed
    transaction. *)
Definition Rollback (db : DB) : DB :=
  {| committed := committed db; tx := None |}.

(** The loop [for i, r := range s] of [sanitizeUTF8]; [s] is what is left
    to decode, [v] the runes kept.  A rune of a non-empty string is at
    least one byte wide. *)
Fixpoint sanitizeLoop (fuel : nat) (s : string) (v : list Z) : list Z :=
  match fuel with
  | O => v
  | S fuel =>
      match s with
      | EmptyString => v
      | String _ _ =>
          let '(r, size) := DecodeRuneInString s in
          let v := if (r =? RuneError) && (size =? 1) then v else v ++ [r] in
          sanitizeLoop fuel (drop_bytes (Z.to_nat (Z.max 1 size)) s) v
      end
  end.

Definition sanitizeUTF8 (s : string) : string :=
  if negb (ValidString s)
  then string_of_runes (sanitizeLoop (String.length s) s [])
  else s.

(** The loop over the chunks of one document, from index [i] on. *)
Fixpoint storeChunks (doc : ProcessedDocument) (cleanTitle : string) (i : nat)
    (chunks : list string) (db : DB) : error * DB :=
  match chunks with
  | [] => (None, db)
  | chunk :: rest =>
      let cleanChunk := sanitizeUTF8 chunk in
      let id := ID (Doc doc) +:+ "_" +:+ pretty (Z.of_nat i) in
      match CreateEmbedding [cleanChunk] with
      | Err err => (Some ("failed to create embeddings: " +:+ err), db)
      | Ok embedding =>
          let vectorSlice := concat embedding in
          match Exec id {| url := URL (Doc doc); title := cleanTitle;
                           content := cleanChunk; chunk_index := Z.of_nat i;
                           embedding := vectorSlice;
                           metadata := Metadata (Doc doc) |} db with
          | (Some err, db) => (Some ("failed to insert document: " +:+ err), db)
          | (None, db) => storeChunks doc cleanTitle (S i) rest db
          end
      end
  end.

Fixpoint storeDocs (docs : list ProcessedDocument) (db : DB) : error * DB :=
  match docs with
  | [] => (None, db)
  | doc :: rest =>
      let cleanTitle := sanitizeUTF8 (Title (Doc doc)) in
      match storeChunks doc cleanTitle 0 (Chunks doc) db with
      | (Some err, db) => (Some err, db)
      | (None, db) => storeDocs rest db
      end
  end.

Definition Store (docs : list ProcessedDocument) (db : DB) : error * DB :=
  (* Begin transaction *)
  match Begin db with
  | Err err => (Some ("failed to begin transaction: " +:+ err), db)
  | Ok db =>
      let r :=
        match storeDocs docs db with
        | (Some err, db) => (Some err, db)
        | (None, db) =>
            (* Commit transaction *)
            match Commit db with
            | (Some err, db) =>
                (Some ("failed to commit transaction: " +:+ err), db)
            | (None, db) => (None, db)
            end
        end in
      (* defer tx.Rollback(ctx) *)
      (r.1, Rollback r.2)
  end.

(** *** What a batch writes

    The rows of a batch in the order the loops produce them, each with
    its compound id; [None] when some embedding cannot be computed. *)

Definition chunkRow (doc : ProcessedDocument) (i : nat) (chunk : string)
  : option (string * Row) :=
  match CreateEmbedding [sanitizeUTF8 chunk] with
  | Err _ => None
  | Ok embedding =>
      Some (ID (Doc doc) +:+ "_" +:+ pretty (Z.of_nat i),
            {| url := URL (Doc doc); title := sanitizeUTF8 (Title (Doc doc));
               content := sanitizeUTF8 chunk; chunk_index := Z.of_nat i;
               embedding := concat embedding;
               metadata := Metadata (Doc doc) |})
  end.

Fixpoint rowsFrom (doc : ProcessedDocument) (i : nat) (chunks : list string)
  : option (list (string * Row)) :=
  match chunks with
  | [] => Some []
  | chunk :: rest =>
      r ← chunkRow doc i chunk;
      rs ← rowsFrom doc (S i) rest;
      Some (r :: rs)
  end.

Fixpoint rowsOf (docs : list ProcessedDocument) : option (list (string * Row)) :=
  match docs with
  | [] => Some []
  | doc :: rest =>
      rs ← rowsFrom doc 0 (Chunks doc);
      rss ← rowsOf rest;
      Some (rs ++ rss)
  end.

Definition upsertAll (rows : list (string * Row)) (t : gmap string Row)
  : gmap string Row :=
  fold_left (fun t r => insertStmt r.1 r.2 t) rows t.

(** *** Notions the properties are stated with *)

(** Every insert of the batch is accepted. *)
Definition allAccepted (rows : list (string * Row)) : Prop :=
  Forall (fun r => Exec_error r.1 r.2 = None) rows.

End WithBackend.

(** What the insert statement leaves in the row of its id: on a conflict
    the old [url], [title] and [chunk_index] with the new [content],
    [embedding] and [metadata]. *)
Definition mergeRow (old : option Row) (row : Row) : Row :=
  match old with
  | Some old =>
      {| url := url old; title := title old; content := content row;
         chunk_index := chunk_index old; embedding := embedding row;
         metadata := metadata row |}
  | None => row
  end.

(** The effect of one insert on the row of id [k]. *)
Definition upsertAt (k : string) (o : option Row) (r : string * Row) : option Row :=
  if decide (k = r.1) then Some (mergeRow o r.2) else o.

(** The decimal digits, of which [%d] builds the index in a compound
    id. *)
Definition isDigit (c : ascii) : bool :=
  (48 <=? nat_of_ascii c)%nat && (nat_of_ascii c <=? 57)%nat.

Fixpoint digits (s : string) : bool :=
  match s with
  | EmptyString => true
  | String c s => isDigit c && digits s
  end.

End store.

(** ** Package [llm]: the chat engine *)

Module llm.
Import Strings models.

(** ChatConfig represents the configuration for a chat engine. *)
Record ChatConfig := {
  Model : string;
  Temperature : float64;
  MaxTokens : Z;
  SystemTemplate : string;
  ContextTemplate : string;
  BaseURL : string               (* Ollama server URL *)
}.

(** The part of package [llms] the engine uses: a message is a role and
    a text ([llms.TextParts]); a response holds choices, any of which may
    be a [nil] pointer. *)
Inductive ChatMessageType :=
| ChatMessageTypeSystem
| ChatMessageTypeHuman.

Record MessageContent := {
  Role : ChatMessageType;
  Text : string
}.

Record ContentChoice := { ChoiceContent : string }.

Record ContentResponse := { Choices : list (option ContentChoice) }.

(** The model server: [ollama.New] with a model name and a server URL, and
    [GenerateContent], whose response may be [nil]. *)
Class Ollama := {
  LLM : Type;
  ollama_New : string -> string -> result LLM;
  GenerateContent : LLM -> list MessageContent -> option ContentResponse * error
}.

Definition nl : string := String "010"%char EmptyString.

Section WithOllama.
Context `{Ollama}.

(** ChatEngine is an engine that uses an LLM to generate chat responses. *)
Record ChatEngine := {
  config : ChatConfig;
  llm : LLM
}.

(** NewWithConfig creates a new ChatEngine with the given configuration. *)
Definition NewWithConfig (c : ChatConfig) : result ChatEngine :=
  let model := if String.eqb (Model c) "" then "mistral" else Model c in
  if SFleb (Temperature c) (f64 0 0) || SFltb (f64 1 0) (Temperature c)
  then Err "temperature must be between 0 and 1"
  else if MaxTokens c <? 0 then Err "max tokens cannot be negative"
  else
    let maxTokens := if MaxTokens c =? 0 then 2000 else MaxTokens c in
    let systemTemplate :=
      if String.eqb (SystemTemplate c) ""
      then "You are a helpful assistant with access to the following documentation. Answer questions based on this context."
      else SystemTemplate c in
    let contextTemplate :=
      if String.eqb (ContextTemplate c) ""
      then nl +:+ "Relevant documentation:" +:+ nl +:+ "%s" +:+ nl +:+ nl
           +:+ "Question: %s"
      else ContextTemplate c in
    let baseURL :=
      if String.eqb (BaseURL c) "" then "http://localhost:11434" else BaseURL c in
    match ollama_New model baseURL with
    | Err err => Err ("failed to initialize LLM: " +:+ err)
    | Ok l =>
        Ok {| config := {| Model := model; Temperature := Temperature c;
                           MaxTokens := maxTokens;
                           SystemTemplate := systemTemplate;
                           ContextTemplate := contextTemplate;
                           BaseURL := baseURL |};
              llm := l |}
    end.

(** The content of [contextBuilder] after the loop over [docs]. *)
Definition contextOf (docs : list Document) : string :=
  fold_left (fun builder doc =>
               builder +:+ ("Source: " +:+ URL doc +:+ nl +:+ Content doc
                            +:+ nl +:+ nl))
            docs "".

(** Chat generates a response based on the query and context documents. *)
Definition Chat (ce : ChatEngine) (query : string) (docs : list Document)
  : option ContentResponse * error :=
  let contextBuilder := contextOf docs in
  let content :=
    [ {| Role := ChatMessageTypeSystem; Text := SystemTemplate (config ce) |};
      {| Role := ChatMessageTypeHuman; Text := query |} ] in
  let r := GenerateContent (llm ce) content in
  match r.2 with
  | Some err => (r.1, Some ("chat error: " +:+ err))
  | None => (r.1, None)
  end.

(** ChatStream generates a stream of responses.  The result is what the
    goroutine sends on the channel before closing it, and the error, which
    is [nil]. *)
Definition ChatStream (ce : ChatEngine) (query : string) (docs : list Document)
  : list string * error :=
  let contextBuilder := contextOf docs in
  let content :=
    [ {| Role := ChatMessageTypeSystem; Text := SystemTemplate (config ce) |};
      {| Role := ChatMessageTypeHuman; Text := query |};
      {| Role := ChatMessageTypeHuman; Text := contextBuilder |} ] in
  let r := GenerateContent (llm ce) content in
  let sent :=
    match r.2 with
    | Some err => ["Error: " +:+ err]
    | None =>
        match r.1 with
        | None => ["Error: No response from LLM"]
        | Some stream =>
            omap (fun choice =>
                    match choice with
                    | Some c => if negb (String.eqb (ChoiceContent c) "")
                                then Some (ChoiceContent c) else None
                    | None => None
                    end)
                 (Choices stream)
        end
    end in
  (sent, None).

End WithOllama.

(** The loop of [formatSources]: [seen] is the set of addresses met,
    [sources] the addresses kept. *)
Fixpoint collectSources (docs : list Document) (seen : gmap string bool)
    (sources : list string) : list string :=
  match docs with
  | [] => sources
  | doc :: rest =>
      if negb (default false (seen !! URL doc))
      then collectSources rest (<[URL doc := true]> seen) (sources ++ [URL doc])
      else collectSources rest seen sources
  end.

(** formatSources formats the sources for citation. *)
Definition formatSources (docs : list Document) : string :=
  let sources := collectSources docs ∅ [] in
  if (length sources =? 0)%nat then ""
  else nl +:+ "Sources:" +:+ nl +:+ Join sources nl.

(** [Embedder.FlattenEmbeddings] *)
Definition FlattenEmbeddings (embeddings : list (list float32)) : list float32 :=
  fold_left (fun flattened emb => flattened ++ emb) embeddings [].

End llm.

(** ** Package [main]: the command-line program *)

Module main.
Import Strings models.

Record Config := {
  BaseURL : string;
  DBUrl : string;
  DocsURL : string;
  Model : string;
  MaxDepth : Z;
  ChunkSize : Z;
  VectorDim : Z;
  TableName : string;
  BatchSize : Z;
  RateLimit : float64;
  MaxTokens : Z;
  Streaming : bool;
  Temperature : float64
}.

(** [parseFlags], from [flag.Parse] on: [flags] holds the values of the
    flags (those given on the command line, the declared defaults for the
    others) and [configPath] the value of [-config]. *)
Definition parseFlags `{config.OS} (flags : Config) (configPath : string) : Config :=
  match config.LoadConfig configPath with
  | Ok cfg =>
      (* Override config with command line flags if provided *)
      let llmBaseURL :=
        if negb (String.eqb (BaseURL flags) "") then BaseURL flags
        else config.BaseURL (config.LLM cfg) in
      (* Update config struct *)
      {| BaseURL := llmBaseURL;
         DBUrl := config.DB_URL (config.Database cfg);
         DocsURL := DocsURL flags;
         Model := config.Model (config.LLM cfg);
         MaxDepth := config.MaxDepth (config.Scraper cfg);
         ChunkSize := config.ChunkSize (config.Processor cfg);
         VectorDim := config.VectorDim (config.Database cfg);
         TableName := config.TableName (config.Database cfg);
         BatchSize := config.BatchSize (config.Database cfg);
         RateLimit := config.RateLimit (config.Scraper cfg);
         MaxTokens := config.MaxTokens (config.LLM cfg);
         Streaming := config.Streaming (config.UI cfg);
         Temperature := config.Temperature (config.LLM cfg) |}
  | Err _ => flags
  end.

(** How a loop of [run] ends: normally, with the error [run] returns, in
    a panic, or not within the given number of iterations; a crawl that
    never returns counts as the last, for every number. *)
Inductive Outcome (A : Type) : Type :=
| Done (a : A)
| Failed (err : string) (a : A)
| Panic
| OutOfFuel.
Arguments Done {A} a.
Arguments Failed {A} err a.
Arguments Panic {A}.
Arguments OutOfFuel {A}.

(** The slice expression [s[lo:hi]]; Go panics unless
    [0 <= lo <= hi <= cap(s)], and the loops below keep [hi <= len(s)]. *)
Definition slice_list {A : Type} (s : list A) (lo hi : Z) : option (list A) :=
  if (0 <=? lo) && (lo <=? hi) && (hi <=? Z.of_nat (length s))
  then Some (take (Z.to_nat (hi - lo)) (drop (Z.to_nat lo) s))
  else None.

(** The processor [run] builds. *)
Definition runProcessor (c : Config) : processor.Processor :=
  processor.NewWithConfig
    {| processor.ChunkSize := ChunkSize c;
       processor.ChunkOverlap := 200;
       processor.MinChunkLength := 0;
       processor.RemoveStopwords := false;
       processor.CustomStopwords := [];
       processor.PreserveLineBreaks := false |}.

Section WithUnicode.
Context `{Unicode}.

(** The loop of [run] that processes the documents one by one. *)
Fixpoint processEach (p : processor.Processor) (docs : list Document)
    (processed : list ProcessedDocument)
  : option (list ProcessedDocument * error) :=
  match docs with
  | [] => Some (processed, None)
  | doc :: rest =>
      r ← processor.Process p [doc];
      match r.2 with
      | Some err =>
          Some (processed,
                Some ("failed to process document " +:+ URL doc +:+ ": " +:+ err))
      | None => processEach p rest (processed ++ r.1)
      end
  end.

Section WithBackend.
Context `{store.Backend}.

(** The loop of [run] that stores [processed] in batches, from index [i]
    on; it stops at the first batch that fails.  [i + batchSize] is
    computed only for [i] below the length of [processed], where [i] is 0
    or [batchSize] is less than that length, so it does not wrap
    around. *)
Fixpoint storeBatches (fuel : nat) (batchSize : Z)
    (processed : list ProcessedDocument) (i : Z) (db : store.DB)
  : Outcome store.DB :=
  match fuel with
  | O => OutOfFuel
  | S fuel =>
      if i <? Z.of_nat (length processed) then
        let end_ := i + batchSize in
        let end_ := if end_ >? Z.of_nat (length processed)
                    then Z.of_nat (length processed) else end_ in
        match slice_list processed i end_ with
        | None => Panic
        | Some batch =>
            let r := store.Store batch db in
            match r.1 with
            | Some err => Failed ("failed to store batch: " +:+ err) r.2
            | None => storeBatches fuel batchSize processed (i + batchSize) r.2
            end
        end
      else Done db
  end.

(** The same loop in the interactive program: a batch that fails is
    reported and skipped. *)
Fixpoint storeBatchesSkipping (fuel : nat) (batchSize : Z)
    (processed : list ProcessedDocument) (i : Z) (db : store.DB)
  : Outcome store.DB :=
  match fuel with
  | O => OutOfFuel
  | S fuel =>
      if i <? Z.of_nat (length processed) then
        let end_ := i + batchSize in
        let end_ := if end_ >? Z.of_nat (length processed)
                    then Z.of_nat (length processed) else end_ in
        match slice_list processed i end_ with
        | None => Panic
        | Some batch =>
            let r := store.Store batch db in
            storeBatchesSkipping fuel batchSize processed (i + batchSize) r.2
        end
      else Done db
  end.

Section WithWorld.
Context `{url.Lib} `{scraper.World}.

(** The documentation pipeline of [run]: scrape [DocsURL], process the
    documents, store them in batches.  [st] is the scraper [run] has built
    and [db] the database behind the vector store. *)
Definition ingest (fuel : nat) (c : Config) (st : scraper.State) (db : store.DB)
  : Outcome (scraper.State * store.DB) :=
  (* If docs URL is provided, scrape and store documents *)
  if String.eqb (DocsURL c) "" then Done (st, db) else
  match scraper.Scrape (DocsURL c) st with
  | None => OutOfFuel
  | Some (docs, Some err, st') =>
      Failed ("failed to scrape documents: " +:+ err) (st', db)
  | Some (docs, None, st') =>
      match processEach (runProcessor c) docs [] with
      | None => Panic
      | Some (_, Some err) => Failed err (st', db)
      | Some (processed, None) =>
          match storeBatches fuel (BatchSize c) processed 0 db with
          | Done db' => Done (st', db')
          | Failed err db' => Failed err (st', db')
          | Panic => Panic
          | OutOfFuel => OutOfFuel
          end
      end
  end.

End WithWorld.
End WithBackend.
End WithUnicode.

End main.

(** ** Concrete collaborators

    Instances of the collaborator classes with which runs on concrete
    inputs are evaluated. *)

Module sample.
Import Strings models.

(** *** A small [net/url]

    Addresses of the shape [scheme://host/path] and references made of a
    path only, without user info, query, fragment, escapes or dot
    segments; on these the operations below are those of the library. *)

Record SimpleURL := { scheme : string; host : string; path : string }.

Definition controlByte (c : ascii) : bool :=
  (nat_of_ascii c <? 32)%nat || (nat_of_ascii c =? 127)%nat.

(** [splitHost s]: the bytes before the first [/] and the rest. *)
Fixpoint splitHost (s : string) : string * string :=
  match s with
  | EmptyString => (EmptyString, EmptyString)
  | String c s' =>
      if Ascii.eqb c "/" then (EmptyString, s)
      else let hp := splitHost s' in (String c hp.1, hp.2)
  end.

Definition simpleParse (s : string) : result SimpleURL :=
  if existsb controlByte (list_ascii_of_string s)
  then Err "net/url: invalid control character in URL"
  else
    match String.index 0 "://" s with
    | Some O => Err "missing protocol scheme"
    | Some n =>
        let hp := splitHost (drop_bytes (n + 3) s) in
        Ok {| scheme := take_bytes n s; host := hp.1; path := hp.2 |}
    | None => Ok {| scheme := ""; host := ""; path := s |}
    end.

(** The directory of a path: up to and including its last [/]. *)
Fixpoint dirOf (p : string) : string :=
  match p with
  | EmptyString => EmptyString
  | String c p' =>
      if Contains p' "/" then String c (dirOf p')
      else if Ascii.eqb c "/" then "/" else EmptyString
  end.

Definition simpleResolve (base ref : SimpleURL) : SimpleURL :=
  if negb (String.eqb (scheme ref) "") then ref
  else if String.eqb (path ref) "" then base
  else if HasPrefix (path ref) "/"
  then {| scheme := scheme base; host := host base; path := path ref |}
  else {| scheme := scheme base; host := host base;
          path := (if String.eqb (dirOf (path base)) "" then "/"
                   else dirOf (path base)) +:+ path ref |}.

Definition simpleString (u : SimpleURL) : string :=
  if String.eqb (scheme u) "" then path u
  else scheme u +:+ "://" +:+ host u +:+ path u.

#[export] Instance simpleURL : url.Lib := {|
  url.URL := SimpleURL;
  url.Parse := simpleParse;
  url.Host := host;
  url.Path := path;
  url.IsAbs := fun u => negb (String.eqb (scheme u) "");
  url.ResolveReference := simpleResolve;
  url.URL_String := simpleString
|}.

(** *** A small site *)

Record Page := {
  address : string;
  html : string;
  pageTitle : string;
  mainText : string;
  links : list string
}.

Definition site : list Page :=
  [ {| address := "https://example.com";
       html := "<title>Home</title><main>Welcome. <a href='/docs/'>Docs</a> <a href='https://other-domain.com/page.html'>Elsewhere</a> <a href='/file.pdf'>Paper</a></main>";
       pageTitle := "Home";
       mainText := "Welcome. Docs Elsewhere Paper";
       links := ["/docs/"; "https://other-domain.com/page.html"; "/file.pdf"] |};
    {| address := "https://example.com/docs/";
       html := "<title>Docs</title><main>The manual. <a href='page.html'>Page</a> <a href='/docs/'>Docs</a></main>";
       pageTitle := "Docs";
       mainText := "The manual. Page Docs";
       links := ["page.html"; "/docs/"] |};
    {| address := "https://example.com/docs/page.html";
       html := "<title>Page</title><main>A page. <a href='/docs/'>Up</a></main>";
       pageTitle := "Page";
       mainText := "A page. Up";
       links := ["/docs/"] |};
    {| address := "https://example.com/file.pdf";
       html := "%PDF-1.4";
       pageTitle := "";
       mainText := "%PDF-1.4";
       links := [] |} ].

Definition pageBy (key : Page -> string) (k : string) : option Page :=
  List.find (fun p => String.eqb (key p) k) site.

Definition blankPage (body : string) : Page :=
  {| address := ""; html := body; pageTitle := ""; mainText := body; links := [] |}.

(** The limiter of the site answers as a [rate.Limiter] with no token in
    store does: at once for a positive limit, never for a negative one.
    Its client meets no redirect. *)
#[export] Instance siteWorld : scraper.World := {|
  scraper.limiter_Wait := fun _ l =>
    if SFltb (scraper.limit l) (f64 0 0) then scraper.WaitsForever
    else scraper.Returned None;
  scraper.client_Get := fun _ _ u =>
    ([u],
     match pageBy address u with
     | Some p =>
         Ok {| scraper.StatusCode := 200;
               scraper.Header_Get := fun h =>
                 if String.eqb h "Content-Type" then "text/html" else "";
               scraper.Body := html p |}
     | None =>
         Ok {| scraper.StatusCode := 404;
               scraper.Header_Get := fun _ => "";
               scraper.Body := "404 page not found" |}
     end);
  scraper.time_Now := fun history => length history;
  scraper.HtmlDoc := Page;
  scraper.NewDocumentFromReader := fun body =>
    Ok (match pageBy html body with Some p => p | None => blankPage body end);
  scraper.Find_Length := fun doc selector =>
    if String.eqb selector "main" || String.eqb selector "body"
       || String.eqb selector "title" then 1%nat else 0%nat;
  scraper.Find_Text := fun doc selector =>
    if String.eqb selector "title" then pageTitle doc
    else if String.eqb selector "main" || String.eqb selector "body"
    then mainText doc else "";
  scraper.Find_hrefs := links
|}.

(** *** A site with pages that have moved

    The home page links to [/old.html], which redirects to [/new.html],
    to [/new.html] itself, and to [/out.html], which redirects to a page
    of another host. *)





(** *** Configurations and inputs of the concrete runs *)

(** The configuration of [TestShouldProcessURL] with the given list of
    allowed extensions; the rate limit is left unset. *)
Definition scraperConfig (extensions : list string) : scraper.ScraperConfig :=
  {| scraper.BaseURL := "https://example.com";
     scraper.MaxDepth := 2;
     scraper.RateLimit := f64 0 0;
     scraper.IgnorePatterns := ["/ignore/"; "private"];
     scraper.AllowedExtensions := extensions;
     scraper.Timeout := 0;
     scraper.OnProgress := true |}.

(** The content of the configuration file of [TestLoadConfig]. *)
Definition sampleConfig : config.Config :=
  {| config.LLM := {| config.BaseURL := "http://localhost:11434";
                      config.Model := "gpt-4";
                      config.MaxTokens := 1000;
                      config.Temperature := f64 1 (-1) |};
     config.Database := {| config.DB_URL := "postgres://localhost:5432/test";
                           config.TableName := "test_docs";
                           config.VectorDim := 768;
                           config.BatchSize := 50 |};
     config.Scraper := {| config.MaxDepth := 5;
                          config.RateLimit := f64 3 (-1);
                          config.IgnorePatterns := ["/test/"];
                          config.AllowedExtensions := [".html"; "/"] |};
     config.Processor := {| config.ChunkSize := 500;
                            config.ChunkOverlap := 100;
                            config.RemoveStopwords := true |};
     config.UI := {| config.Streaming := false; config.Theme := "dark" |} |}.

Definition negativeRateConfig : scraper.ScraperConfig :=
  {| scraper.BaseURL := "https://example.com";
     scraper.MaxDepth := 2;
     scraper.RateLimit := f64 (-1) 0;
     scraper.IgnorePatterns := [];
     scraper.AllowedExtensions := [];
     scraper.Timeout := 0;
     scraper.OnProgress := false |}.

(** The scraper the crawls below start from, and the state after the
    first crawl of the site. *)
Definition siteScraper : scraper.Scraper :=
  match scraper.NewWithConfig (scraperConfig []) with
  | Ok s => s
  | Err _ =>
      {| scraper.config := scraperConfig []; scraper.client := 0;
         scraper.visited := ∅;
         scraper.limiter := {| scraper.limit := f64 0 0; scraper.burst := 0 |};
         scraper.baseHost := "" |}
  end.

Definition firstCrawlDocs : list Document :=
  match scraper.Scrape "https://example.com" (scraper.freshState siteScraper) with
  | Some r => r.1.1
  | None => []
  end.

Definition afterFirstCrawl : scraper.State :=
  match scraper.Scrape "https://example.com" (scraper.freshState siteScraper) with
  | Some r => r.2
  | None => scraper.freshState siteScraper
  end.

(** Two crawls in a row on one scraper: the documentation section
    first, then the whole site. *)
Definition afterDocsCrawl : scraper.State :=
  match scraper.Scrape "https://example.com/docs/" (scraper.freshState siteScraper) with
  | Some r => r.2
  | None => scraper.freshState siteScraper
  end.

Definition laterCrawlDocs : list Document :=
  match scraper.Scrape "https://example.com" afterDocsCrawl with
  | Some r => r.1.1
  | None => []
  end.

Definition afterLaterCrawl : scraper.State :=
  match scraper.Scrape "https://example.com" afterDocsCrawl with
  | Some r => r.2
  | None => afterDocsCrawl
  end.



Definition chunkerConfig (size overlap minimum : Z) : processor.ProcessorConfig :=
  {| processor.ChunkSize := size;
     processor.ChunkOverlap := overlap;
     processor.MinChunkLength := minimum;
     processor.RemoveStopwords := false;
     processor.CustomStopwords := [];
     processor.PreserveLineBreaks := false |}.

(** A page whose text is 19 bytes long. *)
Definition shortDocument : Document :=
  {| ID := ""; URL := "https://example.com/short.html"; Title := "Short";
     Content := "Nineteen characters"; Metadata := {["depth" := VInt 0]} |}.

(** *** An embedding model and a database that accepts 2-dimensional
    vectors *)

#[export] Instance sampleBackend : store.Backend := {|
  store.CreateEmbedding := fun texts =>
    if existsb (String.eqb "") texts then Err "empty input"
    else Ok (map (fun _ => [f32 1 (-1); f32 1 (-2)]) texts);
  store.Begin_error := fun _ => None;
  store.Exec_error := fun _ row =>
    if (length (store.embedding row) =? 2)%nat then None
    else Some "expected 2 dimensions";
  store.Commit_error := fun _ => None
|}.

Definition sampleBatch : list ProcessedDocument :=
  [ {| Doc := {| ID := "doc1"; URL := "https://example.com/docs/";
                 Title := "Docs"; Content := "The manual. Page Docs";
                 Metadata := {["depth" := VInt 1]} |};
       Chunks := ["the manual. "; "page docs"] |} ].

Definition emptyDB : store.DB := {| store.committed := ∅; store.tx := None |}.

Definition afterFirstStore : store.DB := (store.Store sampleBatch emptyDB).2.

Definition afterSecondStore : store.DB := (store.Store sampleBatch afterFirstStore).2.

(** *** An operating system, a YAML library and a model server *)

(** The text of the configuration file of [TestLoadConfig], which the
    YAML library below decodes to [sampleConfig]. *)
Definition sampleYaml : string := "# config.yaml of TestLoadConfig".

(** Two files exist, neither in a default location. *)
#[export] Instance sampleOS : config.OS := {|
  config.Getenv := fun key =>
    if String.eqb key "HOME" then "/home/user"
    else if String.eqb key "DATABASE_URL" then "postgres://localhost:5432/docs"
    else "";
  config.Stat_ok := fun path =>
    String.eqb path "app.yaml" || String.eqb path "empty.yaml";
  config.ReadFile := fun path =>
    if String.eqb path "app.yaml" then Ok sampleYaml
    else if String.eqb path "empty.yaml" then Ok ""
    else Err ("open " +:+ path +:+ ": no such file or directory");
  config.yaml_Unmarshal := fun data =>
    if String.eqb data "" then Ok config.zeroConfig
    else if String.eqb data sampleYaml then Ok sampleConfig
    else Err "yaml: unmarshal errors";
  config.filepath_Join := fun dir file => dir +:+ "/" +:+ file
|}.

(** A server that hands out a model for every name and answers every
    request with one choice. *)
#[export] Instance sampleOllama : llm.Ollama := {|
  llm.LLM := string;
  llm.ollama_New := fun model _ => Ok model;
  llm.GenerateContent := fun _ _ =>
    (Some {| llm.Choices := [Some {| llm.ChoiceContent := "It depends." |}] |},
     None)
|}.

(** The flags of [parseFlags] when only [-docs-url] is given. *)
Definition sampleFlags : main.Config :=
  {| main.BaseURL := "";
     main.DBUrl := "postgres://localhost:5432/docs";
     main.DocsURL := "https://example.com";
     main.Model := "gpt-3.5-turbo";
     main.MaxDepth := 3;
     main.ChunkSize := 1000;
     main.VectorDim := 768;
     main.TableName := "documents";
     main.BatchSize := 100;
     main.RateLimit := f64 2 0;
     main.MaxTokens := 2000;
     main.Streaming := true;
     main.Temperature := f64 7205759403792794 (-53) |}.

(** A chat configuration that leaves everything but the temperature to
    the defaults. *)
Definition sampleChatConfig : llm.ChatConfig :=
  {| llm.Model := ""; llm.Temperature := f64_0_7; llm.MaxTokens := 0;
     llm.SystemTemplate := ""; llm.ContextTemplate := ""; llm.BaseURL := "" |}.

(** The same with a temperature that is not a number. *)
Definition nanChatConfig : llm.ChatConfig :=
  {| llm.Model := ""; llm.Temperature := S754_nan; llm.MaxTokens := 0;
     llm.SystemTemplate := ""; llm.ContextTemplate := ""; llm.BaseURL := "" |}.

(** [sampleConfig] with a temperature of 1.5, and the chat configuration
    [run] builds from it. *)
Definition hotConfig : config.Config :=
  {| config.LLM := {| config.BaseURL := "http://localhost:11434";
                      config.Model := "gpt-4";
                      config.MaxTokens := 1000;
                      config.Temperature := f64 3 (-1) |};
     config.Database := config.Database sampleConfig;
     config.Scraper := config.Scraper sampleConfig;
     config.Processor := config.Processor sampleConfig;
     config.UI := config.UI sampleConfig |}.

Definition hotChatConfig : llm.ChatConfig :=
  {| llm.Model := "gpt-4"; llm.Temperature := f64 3 (-1); llm.MaxTokens := 1000;
     llm.SystemTemplate := ""; llm.ContextTemplate := "";
     llm.BaseURL := "http://localhost:11434" |}.

(** [sampleConfig] with chunks of 150 bytes and no overlap given. *)
Definition smallChunkConfig : config.Config :=
  {| config.LLM := config.LLM sampleConfig;
     config.Database := config.Database sampleConfig;
     config.Scraper := config.Scraper sampleConfig;
     config.Processor := {| config.ChunkSize := 150;
                            config.ChunkOverlap := 0;
                            config.RemoveStopwords := false |};
     config.UI := config.UI sampleConfig |}.

(** *** Batches *)

(** Two pages as the crawler and the processor hand them over: without
    an [ID]. *)
Definition crawledBatch : list ProcessedDocument :=
  [ {| Doc := {| ID := ""; URL := "https://example.com";
                 Title := "Home"; Content := "Welcome. Docs Elsewhere Paper";
                 Metadata := {["depth" := VInt 0]} |};
       Chunks := ["welcome. docs elsewhere paper"] |};
    {| Doc := {| ID := ""; URL := "https://example.com/docs/";
                 Title := "Docs"; Content := "The manual. Page Docs";
                 Metadata := {["depth" := VInt 1]} |};
       Chunks := ["the manual. "; "page docs"] |} ].

(** The same two pages with an [ID] each. *)
Definition labelledBatch : list ProcessedDocument :=
  [ {| Doc := {| ID := "home"; URL := "https://example.com";
                 Title := "Home"; Content := "Welcome. Docs Elsewhere Paper";
                 Metadata := {["depth" := VInt 0]} |};
       Chunks := ["welcome. docs elsewhere paper"] |};
    {| Doc := {| ID := "docs"; URL := "https://example.com/docs/";
                 Title := "Docs"; Content := "The manual. Page Docs";
                 Metadata := {["depth" := VInt 1]} |};
       Chunks := ["the manual. "; "page docs"] |} ].

(** The document of the sample batch. *)
Definition docsPage : ProcessedDocument :=
  {| Doc := {| ID := "doc1"; URL := "https://example.com/docs/";
               Title := "Docs"; Content := "The manual. Page Docs";
               Metadata := {["depth" := VInt 1]} |};
     Chunks := ["the manual. "; "page docs"] |}.

(** The sample batch followed by a document whose only chunk is empty,
    which the embedding model refuses. *)
Definition mixedBatch : list ProcessedDocument :=
  sampleBatch ++
  [ {| Doc := {| ID := "doc2"; URL := "https://example.com/docs/page.html";
                 Title := "Page"; Content := "";
                 Metadata := {["depth" := VInt 2]} |};
       Chunks := [""] |} ].

(** The database after [mixedBatch] has been stored in batches of one. *)
Definition afterFailedBatch : store.DB :=
  match main.storeBatches 3 1 mixedBatch 0 emptyDB with
  | main.Failed _ db => db
  | _ => emptyDB
  end.

(** The state after a crawl that starts at a page the site does not
    have. *)
Definition afterMissingPage : scraper.State :=
  match scraper.Scrape "https://example.com/missing/"
          (scraper.freshState siteScraper) with
  | Some r => r.2
  | None => scraper.freshState siteScraper
  end.


End sample.

(* ================================================================= *)
(** * Properties *)

(** ** Byte strings *)

Section StringFacts.
Import Strings.

Lemma string_length_app (a b : string) :
  String.length (a +:+ b) = (String.length a + String.length b)%nat.
Proof. induction a as [|c a IH]; simpl; [reflexivity | now rewrite IH]. Qed.

Lemma string_app_cons (x : ascii) (a b : string) :
  String x a +:+ b = String x (a +:+ b).
Proof. reflexivity. Qed.

Lemma string_app_assoc (a b c : string) :
  (a +:+ b) +:+ c = a +:+ (b +:+ c).
Proof.
  induction a as [|x a IH]; [reflexivity|].
  now rewrite !string_app_cons, IH.
Qed.

Lemma len_app (a b : string) : len (a +:+ b) = len a + len b.
Proof. unfold len. rewrite string_length_app. lia. Qed.

Lemma len_nonneg (a : string) : 0 <= len a.
Proof. unfold len. lia. Qed.

Lemma length_drop_bytes (n : nat) (s : string) :
  String.length (drop_bytes n s) = (String.length s - n)%nat.
Proof.
  revert s; induction n as [|n IH]; intros [|c s]; simpl; auto.
Qed.

Lemma prefix_app (a b : string) : String.prefix a (a +:+ b) = true.
Proof.
  induction a as [|c a IH]; simpl.
  - now destruct b.
  - destruct (ascii_dec c c); [exact IH | congruence].
Qed.

Lemma prefix_app_r (a b c : string) :
  String.prefix a b = true -> String.prefix a (b +:+ c) = true.
Proof.
  revert b; induction a as [|x a IH]; intros b Hab.
  - now destruct (b +:+ c).
  - destruct b as [|y b]; simpl in *; [discriminate|].
    destruct (ascii_dec x y); [now apply IH | discriminate].
Qed.

Lemma slice_from_in_range (s : string) (lo : Z) :
  0 <= lo <= len s -> slice_from s lo = Some (drop_bytes (Z.to_nat lo) s).
Proof.
  intros [H0 H1]. unfold slice_from.
  apply Z.leb_le in H0, H1. now rewrite H0, H1.
Qed.

Lemma HasSuffix_empty (s : string) : HasSuffix s "" = true.
Proof.
  unfold HasSuffix. simpl String.length. rewrite Nat.sub_0_r.
  assert (Hd : drop_bytes (String.length s) s = "").
  { induction s as [|c s IH]; simpl; auto. }
  rewrite Hd. simpl. rewrite andb_true_r. apply Z.leb_le, len_nonneg.
Qed.

End StringFacts.

(** ** The validator *)

Section ConfigFacts.
Import Strings config.
Context `{url.Lib}.

Lemma elem_of_appendIf (cond : bool) (errors : list ValidationError)
    (e e' : ValidationError) :
  e' ∈ appendIf cond errors e <-> e' ∈ errors \/ (cond = true /\ e' = e).
Proof.
  unfold appendIf. destruct cond.
  - rewrite elem_of_app, list_elem_of_singleton. intuition.
  - intuition discriminate.
Qed.

Lemma elem_of_extension_errors (bad : string -> bool)
    (mk : string -> ValidationError) (exts : list string) (e' : ValidationError) :
  forall errors,
    e' ∈ fold_left (fun errors ext => appendIf (bad ext) errors (mk ext)) exts errors
    <-> e' ∈ errors \/ exists ext, ext ∈ exts /\ bad ext = true /\ e' = mk ext.
Proof.
  induction exts as [|ext exts IH]; intros errors; simpl.
  - split; [auto|]. intros [?|(ext & Hin & _)]; [auto|inversion Hin].
  - rewrite IH, elem_of_appendIf. split.
    + intros [[?|[? ?]]|(x & ? & ? & ?)]; eauto.
      * right. exists ext. split; [left|]; auto.
      * right. exists x. split; [right|]; auto.
    + intros [?|(x & Hin & ? & ?)]; [auto|].
      apply elem_of_cons in Hin as [->|?]; eauto.
Qed.

(** Membership in the result of [Validate] is decided check by check. *)
Ltac validate_cases :=
  unfold Validate;
  rewrite !elem_of_appendIf, elem_of_extension_errors, !elem_of_appendIf;
  split;
  [ intros Hin;
    repeat match goal with
           | H : _ \/ _ |- _ => destruct H as [H|H]
           | H : _ /\ _ |- _ => destruct H as [? H]
           | H : exists _, _ |- _ => destruct H as [? H]
           end;
    try discriminate; try assumption;
    try match goal with H : _ ∈ [] |- _ => inversion H end
  | intros Hcond;
    repeat first [ solve [right; split; [assumption | reflexivity]] | left ] ].

Lemma Validate_rate_limit (c : Config) :
  rateLimitError ∈ Validate c
  <-> SFleb (RateLimit (Scraper c)) (f64 0 0) = true.
Proof. unfold rateLimitError. validate_cases. Qed.

Lemma Validate_chunk_size (c : Config) :
  chunkSizeError ∈ Validate c <-> ChunkSize (Processor c) < 1.
Proof. unfold chunkSizeError. rewrite <- Z.ltb_lt. validate_cases. Qed.

Lemma Validate_chunk_overlap (c : Config) :
  chunkOverlapError ∈ Validate c
  <-> (ChunkOverlap (Processor c) < 0
       \/ ChunkSize (Processor c) <= ChunkOverlap (Processor c)).
Proof.
  unfold chunkOverlapError.
  rewrite <- Z.ltb_lt, <- Z.leb_le, <- Z.geb_leb, <- orb_true_iff.
  validate_cases.
Qed.

Lemma Validate_temperature (c : Config) :
  temperatureError ∈ Validate c
  <-> SFltb (Temperature (LLM c)) (f64 0 0)
      || SFltb (f64 2 0) (Temperature (LLM c)) = true.
Proof. unfold temperatureError. validate_cases. Qed.

End ConfigFacts.

(** ** The loader *)

Section LoaderFacts.
Import Strings config.
Context `{url.Lib} `{OS}.

Lemma eqb_empty_false (s : string) : s <> "" -> String.eqb s "" = false.
Proof. intros Hs. now apply String.eqb_neq. Qed.

Lemma applyDefaults_mergeWithEnv (c : Config) :
  mergeWithEnv (applyDefaults c) = applyDefaults (mergeWithEnv c).
Proof.
  unfold mergeWithEnv, applyDefaults. simpl.
  destruct (String.eqb_spec (Getenv "OLLAMA_BASE_URL") "") as [->|Hb];
    destruct (String.eqb_spec (Getenv "DATABASE_URL") "") as [->|Hd]; simpl;
    rewrite ?(eqb_empty_false _ Hb); reflexivity.
Qed.

(** X3.  Applying the defaults a second time changes nothing. *)
Theorem applyDefaults_idempotent (c : Config) :
  applyDefaults (applyDefaults c) = applyDefaults c.
Proof.
  destruct c as [[b m t temp] [du tn vd bs] [md rl ip ae] [cs co rs] [st th]].
  unfold applyDefaults. simpl.
  repeat f_equal.
  - destruct (String.eqb_spec b ""); [reflexivity|]. now rewrite eqb_empty_false.
  - destruct (String.eqb_spec m ""); [reflexivity|]. now rewrite eqb_empty_false.
  - destruct (Z.eqb_spec t 0); [reflexivity|]. now apply Z.eqb_neq in n as ->.
  - match goal with |- context [SFeqb temp ?z] =>
      destruct (SFeqb temp z) eqn:E end; [reflexivity|]. now rewrite E.
  - destruct (String.eqb_spec tn ""); [reflexivity|]. now rewrite eqb_empty_false.
  - destruct (Z.eqb_spec vd 0); [reflexivity|]. now apply Z.eqb_neq in n as ->.
  - destruct (Z.eqb_spec bs 0); [reflexivity|]. now apply Z.eqb_neq in n as ->.
  - destruct (Z.eqb_spec md 0); [reflexivity|]. now apply Z.eqb_neq in n as ->.
  - match goal with |- context [SFeqb rl ?z] =>
      destruct (SFeqb rl z) eqn:E end; [reflexivity|]. now rewrite E.
  - destruct ae; reflexivity.
  - destruct (Z.eqb_spec cs 0); [reflexivity|]. now apply Z.eqb_neq in n as ->.
  - destruct (Z.eqb_spec co 0); [reflexivity|]. now apply Z.eqb_neq in n as ->.
  - destruct (String.eqb_spec th ""); [reflexivity|]. now rewrite eqb_empty_false.
Qed.

Lemma applyDefaults_defaultsApplied (c : Config) : defaultsApplied (applyDefaults c).
Proof.
  destruct c as [[b m t temp] [du tn vd bs] [md rl ip ae] [cs co rs] [st th]].
  unfold defaultsApplied, applyDefaults. simpl.
  repeat split.
  - destruct (String.eqb_spec b ""); [discriminate|assumption].
  - destruct (String.eqb_spec m ""); [discriminate|assumption].
  - destruct (Z.eqb_spec t 0); [discriminate|assumption].
  - match goal with |- context [SFeqb temp ?z] =>
      destruct (SFeqb temp z) eqn:E end; [reflexivity|assumption].
  - destruct (String.eqb_spec tn ""); [discriminate|assumption].
  - destruct (Z.eqb_spec vd 0); [discriminate|assumption].
  - destruct (Z.eqb_spec bs 0); [discriminate|assumption].
  - destruct (Z.eqb_spec md 0); [discriminate|assumption].
  - match goal with |- context [SFeqb rl ?z] =>
      destruct (SFeqb rl z) eqn:E end; [reflexivity|assumption].
  - destruct ae; discriminate.
  - destruct (Z.eqb_spec cs 0); [discriminate|assumption].
  - destruct (Z.eqb_spec co 0); [discriminate|assumption].
  - destruct (String.eqb_spec th ""); [discriminate|assumption].
Qed.

(** X1.  Whatever [LoadConfig] returns without an error, read from a file
    or made up from nothing, has every field set that [applyDefaults]
    fills: no empty base URL, model, table name or theme, no zero token
    limit, temperature, vector dimension, batch size, depth, rate limit,
    chunk size or chunk overlap, and a non-empty list of extensions. *)
Theorem LoadConfig_applies_defaults (path : string) (c : Config) :
  LoadConfig path = Ok c -> defaultsApplied c.
Proof.
  unfold LoadConfig.
  set (p := if String.eqb path "" then _ else _).
  destruct (String.eqb p "").
  - unfold getDefaultConfig. intros [= <-].
    rewrite applyDefaults_mergeWithEnv. apply applyDefaults_defaultsApplied.
  - destruct (ReadFile p) as [data|]; [|discriminate].
    destruct (yaml_Unmarshal data) as [cfg|]; [|discriminate].
    intros [= <-]. apply applyDefaults_defaultsApplied.
Qed.

(** X2.  A configuration file that decodes to the zero configuration
    gives what [LoadConfig] gives when there is no file at all: the
    defaults, with the two addresses taken from the environment.  The
    order of [mergeWithEnv] and [applyDefaults], which differs between
    the two paths, makes no difference. *)
Theorem empty_file_is_no_file (path data : string) :
  path <> "" ->
  ReadFile path = Ok data ->
  yaml_Unmarshal data = Ok zeroConfig ->
  LoadConfig path = getDefaultConfig.
Proof.
  intros Hp Hr Hy. unfold LoadConfig.
  rewrite (eqb_empty_false _ Hp), (eqb_empty_false _ Hp), Hr, Hy.
  unfold getDefaultConfig. now rewrite applyDefaults_mergeWithEnv.
Qed.

(** X4.  [applyDefaults] can make a configuration invalid: a file that
    sets a chunk size between 1 and 200 and leaves the overlap at 0
    passes the overlap check of [Validate] as written, but after
    [applyDefaults] the overlap is 200, which is not less than the chunk
    size, and the check fails. *)
Theorem default_overlap_invalidates (c : Config) :
  ChunkOverlap (Processor c) = 0 ->
  1 <= ChunkSize (Processor c) <= 200 ->
  ~ chunkOverlapError ∈ Validate c
  /\ chunkOverlapError ∈ Validate (applyDefaults c).
Proof.
  intros Ho Hs. rewrite !Validate_chunk_overlap. split.
  - lia.
  - right. unfold applyDefaults. simpl. rewrite Ho. simpl.
    destruct (Z.eqb_spec (ChunkSize (Processor c)) 0); lia.
Qed.

(** X5.  The configuration [getDefaultConfig] builds passes [Validate]
    with no error, provided the base URL it ends up with parses and the
    database URL taken from the environment is empty or parses. *)
Theorem default_configuration_is_valid (c : Config) :
  getDefaultConfig = Ok c ->
  isErr (url.Parse (BaseURL (LLM c))) = false ->
  (DB_URL (Database c) = "" \/ isErr (url.Parse (DB_URL (Database c))) = false) ->
  Validate c = [].
Proof.
  unfold getDefaultConfig. intros [= <-]. unfold Validate, mergeWithEnv. simpl.
  intros Hb Hd.
  assert (Hne : String.eqb (if negb (String.eqb (Getenv "OLLAMA_BASE_URL") "")
                            then Getenv "OLLAMA_BASE_URL"
                            else "http://localhost:11434") "" = false).
  { destruct (String.eqb_spec (Getenv "OLLAMA_BASE_URL") ""); simpl;
      [reflexivity | now apply eqb_empty_false]. }
  rewrite Hne, Hb. simpl.
  assert (Hdb : negb (String.eqb (if negb (String.eqb (Getenv "DATABASE_URL") "")
                                  then Getenv "DATABASE_URL" else "") "")
                && isErr (url.Parse (if negb (String.eqb (Getenv "DATABASE_URL") "")
                                     then Getenv "DATABASE_URL" else "")) = false).
  { destruct Hd as [Hd|Hd]; [rewrite Hd | rewrite Hd, andb_false_r]; reflexivity. }
  rewrite Hdb. reflexivity.
Qed.

End LoaderFacts.

(** ** The flags of the command-line program *)

Section FlagFacts.
Import Strings config.
Context `{OS}.

Lemma find_none_Forall {A : Type} (f : A -> bool) (l : list A) :
  Forall (fun x => f x = false) l -> List.find f l = None.
Proof.
  induction 1 as [|x l Hx _ IH]; simpl; [reflexivity|]. now rewrite Hx.
Qed.

(** X6.  When no configuration file is given and none is found in the
    default places, [parseFlags] still replaces the values of the flags
    by the defaults of the loader: the model is [mistral], the vector
    dimension 1536, the temperature 0.7 and streaming is off, whatever
    was given on the command line.  Only [-docs-url] and a non-empty
    [-ollama-url] survive; the database URL is the one of the
    environment. *)
Theorem flags_overridden_without_config_file (flags : main.Config) :
  Forall (fun loc => Stat_ok loc = false) locations ->
  main.parseFlags flags ""
  = {| main.BaseURL :=
         if negb (String.eqb (main.BaseURL flags) "") then main.BaseURL flags
         else if negb (String.eqb (Getenv "OLLAMA_BASE_URL") "")
              then Getenv "OLLAMA_BASE_URL" else "http://localhost:11434";
       main.DBUrl := Getenv "DATABASE_URL";
       main.DocsURL := main.DocsURL flags;
       main.Model := "mistral";
       main.MaxDepth := 3;
       main.ChunkSize := 1000;
       main.VectorDim := 1536;
       main.TableName := "documents";
       main.BatchSize := 100;
       main.RateLimit := f64 2 0;
       main.MaxTokens := 2000;
       main.Streaming := false;
       main.Temperature := f64_0_7 |}.
Proof.
  intros Hnone. unfold main.parseFlags, LoadConfig.
  rewrite String.eqb_refl, (find_none_Forall _ _ Hnone), String.eqb_refl. simpl.
  f_equal. destruct (String.eqb_spec (Getenv "DATABASE_URL") ""); simpl; congruence.
Qed.

End FlagFacts.

(** ** The chunker *)

Section ProcessorFacts.
Import Strings models processor.
Context `{Unicode}.

Lemma chunkStep_total (p : Processor) (st : list string * string) (s : string) :
  is_Some (chunkStep p st s).
Proof.
  destruct st as [chunks cur]. unfold chunkStep.
  destruct (len cur + len s >? ChunkSize (config p)); simpl; [|eauto].
  destruct ((ChunkOverlap (config p) >? 0)
            && (len cur >? ChunkOverlap (config p))) eqn:Hg; simpl; [|eauto].
  apply andb_true_iff in Hg as [Hv Hl].
  apply Z.gtb_lt in Hv, Hl.
  rewrite slice_from_in_range by lia. simpl. eauto.
Qed.

Lemma chunkLoop_total (p : Processor) (sentences : list string) :
  forall st, is_Some (chunkLoop p sentences st).
Proof.
  induction sentences as [|s rest IH]; intros st; simpl; [eauto|].
  destruct (chunkStep_total p st s) as [st' ->]. simpl. apply IH.
Qed.

Lemma splitIntoChunks_total (p : Processor) (text : string) :
  is_Some (splitIntoChunks p text).
Proof.
  unfold splitIntoChunks.
  destruct (chunkLoop_total p (splitIntoSentences p text) ([], "")) as [st ->].
  simpl. eauto.
Qed.

Lemma processLoop_total (p : Processor) (docs : list Document) :
  forall acc, exists processed,
    processLoop p docs acc = Some processed
    /\ map Doc processed = map Doc acc ++ docs.
Proof.
  induction docs as [|d rest IH]; intros acc; simpl.
  - exists acc. now rewrite app_nil_r.
  - destruct (splitIntoChunks_total p (cleanText p (Content d))) as [chunks ->].
    simpl.
    destruct (IH (acc ++ [{| Doc := d; Chunks := chunks |}]))
      as (processed & Hrun & Hdocs).
    exists processed. split; [exact Hrun|].
    rewrite Hdocs, map_app. simpl. now rewrite <- app_assoc.
Qed.

(** C10.  [Process] never fails: for every processor (every configuration,
    in particular every one built by [NewWithConfig]) and every list of
    documents it runs to completion without a panic, returns the [nil]
    error, and yields one processed document per input document, in
    order. *)
Theorem Process_returns_nil_error (p : Processor) (docs : list Document) :
  exists processed,
    Process p docs = Some (processed, None)
    /\ map Doc processed = docs.
Proof.
  unfold Process.
  destruct (processLoop_total p docs []) as (processed & -> & Hdocs).
  exists processed. simpl. auto.
Qed.

(** *** Minimum length *)

Lemma chunkStep_minimum (p : Processor) (st st' : list string * string)
    (s : string) :
  Forall (fun c => MinChunkLength (config p) <= len c) st.1 ->
  chunkStep p st s = Some st' ->
  Forall (fun c => MinChunkLength (config p) <= len c) st'.1.
Proof.
  destruct st as [chunks cur]. unfold chunkStep. simpl. intros Hall.
  destruct (len cur + len s >? ChunkSize (config p)); simpl.
  2:{ now intros [= <-]. }
  assert (Hemit : Forall (fun c => MinChunkLength (config p) <= len c)
                    (if len cur >=? MinChunkLength (config p)
                     then chunks ++ [cur] else chunks)).
  { destruct (len cur >=? MinChunkLength (config p)) eqn:Hmin; [|exact Hall].
    apply Forall_app. split; [exact Hall|]. constructor; [|constructor].
    rewrite Z.geb_leb in Hmin. now apply Z.leb_le. }
  destruct ((ChunkOverlap (config p) >? 0)
            && (len cur >? ChunkOverlap (config p))); simpl.
  - destruct (slice_from cur _); simpl; [|discriminate]. now intros [= <-].
  - now intros [= <-].
Qed.

Lemma chunkLoop_minimum (p : Processor) (sentences : list string) :
  forall st st',
    Forall (fun c => MinChunkLength (config p) <= len c) st.1 ->
    chunkLoop p sentences st = Some st' ->
    Forall (fun c => MinChunkLength (config p) <= len c) st'.1.
Proof.
  induction sentences as [|s rest IH]; intros st st' Hall; simpl.
  - now intros [= <-].
  - destruct (chunkStep p st s) as [st1|] eqn:Hstep; simpl; [|discriminate].
    apply IH. eapply chunkStep_minimum; eauto.
Qed.

(** The chunks closed inside the loop meet the minimum length; the one
    added after the loop is the trimmed content of a builder that does. *)
Lemma chunks_meet_minimum_before_trim (p : Processor) (text : string)
    (chunks : list string) :
  splitIntoChunks p text = Some chunks ->
  exists (closed : list string) (currentChunk : string),
    Forall (fun c => MinChunkLength (config p) <= len c) closed
    /\ (chunks = closed
        \/ (chunks = closed ++ [TrimSpace currentChunk]
            /\ MinChunkLength (config p) <= len currentChunk)).
Proof.
  unfold splitIntoChunks.
  destruct (chunkLoop p (splitIntoSentences p text) ([], "")) as [[cs cur]|] eqn:Hloop;
    simpl; [|discriminate].
  intros [= <-]. exists cs, cur. split.
  - apply (chunkLoop_minimum p (splitIntoSentences p text) ([], "") (cs, cur));
      [constructor | exact Hloop].
  - destruct (len cur >=? MinChunkLength (config p)) eqn:Hmin; [|auto].
    right. split; [reflexivity|]. rewrite Z.geb_leb in Hmin. now apply Z.leb_le.
Qed.

(** *** Overlap *)

Lemma overlapInv_snoc (V : Z) (chunks : list string) (cur cur' : string) :
  overlapInv V (chunks, cur) ->
  (V < len cur -> HasPrefix cur' (overlapSeed V cur) = true /\ V < len cur') ->
  overlapInv V (chunks ++ [cur], cur').
Proof.
  intros [Hadj Hlast] Hnew. split; simpl in *.
  - intros i A B HA HB HV.
    destruct (decide (S i < length chunks)%nat) as [Hlt|Hge].
    + rewrite lookup_app_l in HA by lia. rewrite lookup_app_l in HB by lia.
      eapply Hadj; eauto.
    + assert (Hi : S i = length chunks).
      { apply lookup_lt_Some in HB. rewrite length_app in HB. simpl in HB. lia. }
      rewrite lookup_app_l in HA by lia.
      rewrite lookup_app_r in HB by lia.
      rewrite Hi, Nat.sub_diag in HB. simpl in HB. injection HB as <-.
      apply Hlast; [|exact HV].
      rewrite last_lookup, <- Hi. exact HA.
  - intros L HL HV. rewrite last_snoc in HL. injection HL as <-. auto.
Qed.

Lemma chunkStep_overlapInv (p : Processor) (st st' : list string * string)
    (s : string) :
  0 < ChunkOverlap (config p) ->
  MinChunkLength (config p) <= ChunkOverlap (config p) + 1 ->
  overlapInv (ChunkOverlap (config p)) st ->
  chunkStep p st s = Some st' ->
  overlapInv (ChunkOverlap (config p)) st'.
Proof.
  set (V := ChunkOverlap (config p)). intros HV Hmin Hinv.
  destruct st as [chunks cur]. unfold chunkStep. fold V.
  destruct (len cur + len s >? ChunkSize (config p)) eqn:Hclose; simpl.
  - destruct ((V >? 0) && (len cur >? V)) eqn:Hg; simpl.
    + apply andb_true_iff in Hg as [_ Hl]. apply Z.gtb_lt in Hl.
      rewrite slice_from_in_range by lia. simpl. intros [= <-].
      fold (overlapSeed V cur).
      assert (Hseed : len (overlapSeed V cur) = V).
      { unfold overlapSeed, len. rewrite length_drop_bytes. unfold len in Hl. lia. }
      destruct (len cur >=? MinChunkLength (config p)) eqn:Hemit.
      * apply overlapInv_snoc; [exact Hinv|]. intros _. split.
        -- unfold HasPrefix. rewrite string_app_assoc. apply prefix_app.
        -- rewrite !len_app. pose proof (len_nonneg s). change (len " ") with 1. lia.
      * exfalso. rewrite Z.geb_leb in Hemit. apply Z.leb_gt in Hemit. lia.
    + intros [= <-].
      assert (Hle : len cur <= V).
      { apply andb_false_iff in Hg as [Hg|Hg];
          rewrite Z.gtb_ltb in Hg; apply Z.ltb_ge in Hg; lia. }
      destruct (len cur >=? MinChunkLength (config p)) eqn:Hemit.
      * apply overlapInv_snoc; [exact Hinv|]. intros Hlt. lia.
      * destruct Hinv as [Hadj Hlast]. split; simpl in *; [exact Hadj|].
        intros L HL HVL. destruct (Hlast L HL HVL) as [_ Hc]. lia.
  - intros [= <-]. destruct Hinv as [Hadj Hlast]. split; simpl in *; [exact Hadj|].
    intros L HL HVL. destruct (Hlast L HL HVL) as [Hp Hc]. split.
    + unfold HasPrefix in *. rewrite string_app_assoc. now apply prefix_app_r.
    + rewrite !len_app. pose proof (len_nonneg s). change (len " ") with 1. lia.
Qed.

Lemma chunkLoop_overlapInv (p : Processor) (sentences : list string) :
  0 < ChunkOverlap (config p) ->
  MinChunkLength (config p) <= ChunkOverlap (config p) + 1 ->
  forall st st',
    overlapInv (ChunkOverlap (config p)) st ->
    chunkLoop p sentences st = Some st' ->
    overlapInv (ChunkOverlap (config p)) st'.
Proof.
  intros HV Hmin.
  induction sentences as [|s rest IH]; intros st st' Hinv; simpl.
  - now intros [= <-].
  - destruct (chunkStep p st s) as [st1|] eqn:Hstep; simpl; [|discriminate].
    apply IH. eapply chunkStep_overlapInv; eauto.
Qed.

(** C2, as amended.  With an overlap [V > 0] and a minimum chunk length of
    at most [V + 1], let [A] and [B] be consecutive chunks of the result
    and [A] be longer than [V] bytes.  Then the accumulated text [raw] of
    [B] begins with the last [V] bytes of [A]; [B] is [raw] itself, except
    that the chunk added after the loop (the last one) is [raw] with its
    white space trimmed. *)
Theorem overlap_carried_forward (p : Processor) (text : string)
    (chunks : list string) (i : nat) (A B : string) :
  0 < ChunkOverlap (config p) ->
  MinChunkLength (config p) <= ChunkOverlap (config p) + 1 ->
  splitIntoChunks p text = Some chunks ->
  chunks !! i = Some A ->
  chunks !! S i = Some B ->
  ChunkOverlap (config p) < len A ->
  exists raw,
    HasPrefix raw (overlapSeed (ChunkOverlap (config p)) A) = true
    /\ (B = raw \/ (S (S i) = length chunks /\ B = TrimSpace raw)).
Proof.
  intros HV Hmin Hrun HA HB HlenA. unfold splitIntoChunks in Hrun.
  destruct (chunkLoop p (splitIntoSentences p text) ([], "")) as [[cs cur]|] eqn:Hloop;
    simpl in Hrun; [|discriminate].
  assert (Hinv : overlapInv (ChunkOverlap (config p)) (cs, cur)).
  { eapply chunkLoop_overlapInv; [exact HV | exact Hmin | | exact Hloop].
    split; simpl.
    - intros j X Y HX. rewrite lookup_nil in HX. discriminate.
    - intros L HL. discriminate. }
  destruct Hinv as [Hadj Hlast]. simpl in Hadj, Hlast.
  injection Hrun as <-.
  destruct (len cur >=? MinChunkLength (config p)).
  - destruct (decide (S i < length cs)%nat) as [Hlt|Hge].
    + rewrite lookup_app_l in HA by lia. rewrite lookup_app_l in HB by lia.
      exists B. split; [eapply Hadj; eauto | now left].
    + assert (Hi : S i = length cs).
      { apply lookup_lt_Some in HB. rewrite length_app in HB. simpl in HB. lia. }
      rewrite lookup_app_l in HA by lia.
      rewrite lookup_app_r in HB by lia.
      rewrite Hi, Nat.sub_diag in HB. simpl in HB. injection HB as <-.
      exists cur. split.
      * apply Hlast; [|exact HlenA]. rewrite last_lookup, <- Hi. exact HA.
      * right. split; [|reflexivity]. rewrite length_app. simpl. lia.
  - exists B. split; [eapply Hadj; eauto | now left].
Qed.

(** C4, as amended.  The constructor of the chunker cannot fail: for
    every configuration it yields a processor, in which a zero chunk size,
    overlap or minimum length is replaced by 1000, 200 and 100 and every
    other value, valid or not, is kept.  The conditions [chunkSize >= 1]
    and [0 <= chunkOverlap < chunkSize] are checked by [Config.Validate],
    which reports one error for each that is violated. *)
Theorem chunker_construction_total `{url.Lib} :
  (forall c : ProcessorConfig,
      exists p, NewWithConfig c = p
        /\ ChunkSize (config p) = (if ChunkSize c =? 0 then 1000 else ChunkSize c)
        /\ ChunkOverlap (config p)
           = (if ChunkOverlap c =? 0 then 200 else ChunkOverlap c)
        /\ MinChunkLength (config p)
           = (if MinChunkLength c =? 0 then 100 else MinChunkLength c)
        /\ ChunkSize (config p) <> 0 /\ ChunkOverlap (config p) <> 0
        /\ MinChunkLength (config p) <> 0
        /\ forall text, is_Some (splitIntoChunks p text))
  /\ (forall c : config.Config,
        (config.chunkSizeError ∈ config.Validate c
         <-> config.ChunkSize (config.Processor c) < 1)
        /\ (config.chunkOverlapError ∈ config.Validate c
            <-> (config.ChunkOverlap (config.Processor c) < 0
                 \/ config.ChunkSize (config.Processor c)
                    <= config.ChunkOverlap (config.Processor c)))).
Proof.
  split.
  - intros c. exists (NewWithConfig c). simpl.
    repeat split; try (intros text; apply splitIntoChunks_total).
    + destruct (Z.eqb_spec (ChunkSize c) 0); lia.
    + destruct (Z.eqb_spec (ChunkOverlap c) 0); lia.
    + destruct (Z.eqb_spec (MinChunkLength c) 0); lia.
  - intros c. split; [apply Validate_chunk_size | apply Validate_chunk_overlap].
Qed.

(** *** Length of the chunks *)

Lemma chunkStep_len (p : Processor) (chunks chunks' : list string)
    (cur cur' s : string) :
  chunkStep p (chunks, cur) s = Some (chunks', cur') ->
  (chunks' = chunks \/ chunks' = chunks ++ [cur])
  /\ (chunks' = chunks ++ [cur] -> MinChunkLength (config p) <= len cur)
  /\ ((len cur + len s <= ChunkSize (config p)
       /\ len cur' = len cur + len s + 1 /\ chunks' = chunks)
      \/ (ChunkSize (config p) < len cur + len s
          /\ 0 < ChunkOverlap (config p) < len cur
          /\ len cur' = ChunkOverlap (config p) + len s + 1)
      \/ (ChunkSize (config p) < len cur + len s
          /\ len cur' = len s + 1)).
Proof.
  unfold chunkStep.
  destruct (len cur + len s >? ChunkSize (config p)) eqn:Hbig.
  - apply Z.gtb_lt in Hbig.
    assert (Hsave :
      let cs := if len cur >=? MinChunkLength (config p)
                then chunks ++ [cur] else chunks in
      (cs = chunks \/ cs = chunks ++ [cur])
      /\ (cs = chunks ++ [cur] -> MinChunkLength (config p) <= len cur)).
    { cbv zeta. destruct (len cur >=? MinChunkLength (config p)) eqn:Hmin.
      - apply Z.geb_le in Hmin. auto.
      - split; [auto|]. intros Habs. apply (f_equal (@length _)) in Habs.
        rewrite length_app in Habs. simpl in Habs. lia. }
    cbv zeta in Hsave.
    destruct ((ChunkOverlap (config p) >? 0)
              && (len cur >? ChunkOverlap (config p))) eqn:Hg.
    + apply andb_true_iff in Hg as [Hv Hl]. apply Z.gtb_lt in Hv, Hl.
      rewrite slice_from_in_range by lia. simpl. intros [= <- <-].
      split; [apply Hsave|]. split; [apply Hsave|]. right. left.
      split; [lia|]. split; [lia|].
      rewrite !len_app. unfold len at 1. rewrite length_drop_bytes.
      unfold len in *. simpl. lia.
    + simpl. intros [= <- <-].
      split; [apply Hsave|]. split; [apply Hsave|]. right. right.
      split; [lia|]. rewrite !len_app. unfold len. simpl. lia.
  - rewrite Z.gtb_ltb in Hbig. apply Z.ltb_ge in Hbig. simpl. intros [= <- <-].
    split; [auto|]. split.
    { intros Habs. apply (f_equal (@length _)) in Habs.
      rewrite length_app in Habs. simpl in Habs. lia. }
    left. split; [lia|]. split; [|reflexivity].
    rewrite !len_app. unfold len. simpl. lia.
Qed.

Lemma chunkLoop_bound (p : Processor) (L B : Z) (sentences : list string) :
  B = Z.max (ChunkSize (config p)) (Z.max 0 (ChunkOverlap (config p)) + L) + 1 ->
  Forall (fun s => len s <= L) sentences ->
  forall st st',
    chunkLoop p sentences st = Some st' ->
    Forall (fun A => len A <= B) st.1 -> len st.2 <= B ->
    Forall (fun A => len A <= B) st'.1 /\ len st'.2 <= B.
Proof.
  intros HB. induction 1 as [|s rest Hs Hrest IH]; intros [chunks cur] st'; cbn [chunkLoop].
  - intros [= <-]. auto.
  - destruct (chunkStep p (chunks, cur) s) as [[chunks1 cur1]|] eqn:Hstep;
      simpl; [|discriminate].
    intros Hloop Hchunks Hcur.
    destruct (chunkStep_len _ _ _ _ _ _ Hstep) as (Hc & _ & Hlen).
    apply (IH _ _ Hloop); simpl.
    + destruct Hc as [-> | ->]; [exact Hchunks|].
      apply Forall_app. split; [exact Hchunks|]. constructor; [exact Hcur|constructor].
    + pose proof (len_nonneg s). lia.
Qed.

(** X11.  Every chunk but the last is at most
    [max(ChunkSize, max(0, ChunkOverlap) + L) + 1] bytes long when no
    sentence is longer than [L]: a chunk is closed before the sentence
    that would take it over [ChunkSize], and carries the space written
    after its last sentence. *)
Theorem chunk_length_bound (p : Processor) (text : string) (L : Z)
    (chunks : list string) :
  Forall (fun s => len s <= L) (splitIntoSentences p text) ->
  splitIntoChunks p text = Some chunks ->
  forall (i : nat) (A : string),
    chunks !! i = Some A -> (S i < length chunks)%nat ->
    len A <= Z.max (ChunkSize (config p))
                   (Z.max 0 (ChunkOverlap (config p)) + L) + 1.
Proof.
  intros Hsent. unfold splitIntoChunks.
  destruct (chunkLoop p (splitIntoSentences p text) ([], "")) as [st|] eqn:Hloop;
    simpl; [|discriminate].
  intros [= <-] i A Hi Hlast.
  destruct (splitIntoSentences p text) as [|s rest] eqn:Hsplit.
  { injection Hloop as <-. simpl in Hlast.
    destruct (_ >=? _); simpl in Hlast; lia. }
  assert (HL : 0 <= L).
  { apply Forall_cons in Hsent as [Hs _]. pose proof (len_nonneg s). lia. }
  destruct (chunkLoop_bound p L _ _ eq_refl Hsent _ _ Hloop) as [Hall _].
  { constructor. }
  { simpl. unfold len at 1. simpl String.length. lia. }
  rewrite Forall_forall in Hall. apply Hall.
  destruct (len st.2 >=? MinChunkLength (config p)).
  - rewrite length_app in Hlast. simpl in Hlast.
    rewrite lookup_app_l in Hi by lia. eapply list_elem_of_lookup_2, Hi.
  - eapply list_elem_of_lookup_2, Hi.
Qed.

Lemma chunkLoop_short (p : Processor) (sentences : list string) :
  forall cur st',
    chunkLoop p sentences ([], cur) = Some st' ->
    len cur + builderBytes sentences < MinChunkLength (config p) ->
    st'.1 = [] /\ len st'.2 <= len cur + builderBytes sentences.
Proof.
  induction sentences as [|s rest IH]; intros cur st'; cbn [chunkLoop builderBytes fold_right].
  - intros [= <-]. simpl. split; [reflexivity|lia].
  - destruct (chunkStep p ([], cur) s) as [[chunks1 cur1]|] eqn:Hstep;
      cbn [mbind option_bind]; [|discriminate].
    fold (builderBytes rest). intros Hloop Hshort.
    assert (Hrest : 0 <= builderBytes rest).
    { clear. induction rest as [|x rest IH]; simpl; [lia|].
      pose proof (len_nonneg x). lia. }
    pose proof (len_nonneg s). pose proof (len_nonneg cur).
    destruct (chunkStep_len _ _ _ _ _ _ Hstep) as (Hc & Hmin & Hlen).
    assert (chunks1 = []) as ->.
    { destruct Hc as [->|Hc]; [reflexivity|]. specialize (Hmin Hc). lia. }
    destruct (IH cur1 st' Hloop) as [Hnil Hbound]; [lia|].
    split; [exact Hnil|lia].
Qed.

Lemma splitIntoChunks_short (p : Processor) (text : string) :
  builderBytes (splitIntoSentences p text) < MinChunkLength (config p) ->
  splitIntoChunks p text = Some [].
Proof.
  intros Hshort. unfold splitIntoChunks.
  destruct (chunkLoop_total p (splitIntoSentences p text) ([], "")) as [st Hloop].
  rewrite Hloop. simpl.
  destruct (chunkLoop_short p _ _ _ Hloop) as [Hnil Hlen].
  { unfold len at 1. simpl. lia. }
  unfold len at 2 in Hlen. simpl in Hlen.
  replace (len st.2 >=? MinChunkLength (config p)) with false
    by (symmetry; rewrite Z.geb_leb; apply Z.leb_gt; lia).
  now rewrite Hnil.
Qed.

(** X12.  A text whose sentences, each counted with the space written after
    it, add up to less than [MinChunkLength] bytes gives no chunk at
    all. *)
Theorem short_text_gives_no_chunk (p : Processor) (text : string) :
  builderBytes (splitIntoSentences p text) < MinChunkLength (config p) ->
  splitIntoChunks p text = Some [].
Proof. intros Hshort. now apply splitIntoChunks_short. Qed.

(** *** Sentences *)

Lemma string_app_nil_r (s : string) : s +:+ "" = s.
Proof. induction s as [|c s IH]; [reflexivity|]. now rewrite string_app_cons, IH. Qed.

Lemma sentenceStep_pieces (bytes : list ascii) :
  forall sentences current sentences' current',
    fold_left sentenceStep bytes (sentences, current) = (sentences', current') ->
    exists pieces,
      sentences' = sentences ++ (TrimSpace <$> pieces)
      /\ current +:+ string_of_list_ascii bytes
         = fold_right String.append current' pieces
      /\ Forall (fun piece => existsb (HasSuffix piece) sentenceEnders = true) pieces.
Proof.
  induction bytes as [|b rest IH]; intros sentences current sentences' current'.
  - simpl. intros [= <- <-]. exists []. simpl.
    rewrite app_nil_r, string_app_nil_r. auto.
  - cbn [fold_left string_of_list_ascii]. unfold sentenceStep at 2.
    destruct (existsb (HasSuffix (current +:+ String b "")) sentenceEnders) eqn:Hend.
    + intros Hrun. destruct (IH _ _ _ _ Hrun) as (pieces & Hs & Hc & Hall).
      exists ((current +:+ String b "") :: pieces). split; [|split].
      * rewrite Hs, <- app_assoc. reflexivity.
      * cbn [fold_right]. rewrite <- Hc. simpl.
        rewrite string_app_assoc. reflexivity.
      * constructor; assumption.
    + intros Hrun. destruct (IH _ _ _ _ Hrun) as (pieces & Hs & Hc & Hall).
      exists pieces. split; [exact Hs|]. split; [|exact Hall].
      rewrite <- Hc, string_app_assoc. reflexivity.
Qed.

(** X28.  [splitIntoSentences] loses nothing but white space at the ends
    of sentences: the text is cut into consecutive non-empty pieces,
    each of them but possibly the last ending in a sentence ender, and
    the sentences are the pieces, trimmed, in order. *)
Theorem splitIntoSentences_partition (p : Processor) (text : string) :
  exists pieces,
    splitIntoSentences p text = TrimSpace <$> pieces
    /\ fold_right String.append "" pieces = text
    /\ Forall (fun piece => piece <> "") pieces
    /\ forall (i : nat) piece,
         pieces !! i = Some piece -> (S i < length pieces)%nat ->
         existsb (HasSuffix piece) sentenceEnders = true.
Proof.
  unfold splitIntoSentences.
  destruct (fold_left sentenceStep (list_ascii_of_string text) ([], ""))
    as [sentences current] eqn:Hrun.
  destruct (sentenceStep_pieces _ _ _ _ _ Hrun) as (pieces & Hs & Hc & Hall).
  rewrite string_of_list_ascii_of_string in Hc. simpl in Hs, Hc. subst sentences.
  assert (Hne : Forall (fun piece => piece <> "") pieces).
  { eapply Forall_impl; [exact Hall|]. intros piece Hp ->. discriminate. }
  assert (Hfold : forall tl, fold_right String.append tl pieces
                             = fold_right String.append "" pieces +:+ tl).
  { clear. induction pieces as [|x l IH]; intros tl; simpl; [reflexivity|].
    now rewrite IH, string_app_assoc. }
  destruct (0 <? len current) eqn:Hcur.
  - exists (pieces ++ [current]). split; [now rewrite fmap_app|]. split; [|split].
    + rewrite fold_right_app. simpl. rewrite string_app_nil_r. now symmetry.
    + apply Forall_app. split; [exact Hne|]. constructor; [|constructor].
      intros ->. discriminate.
    + intros i piece Hi Hlast. rewrite length_app in Hlast. simpl in Hlast.
      rewrite lookup_app_l in Hi by lia.
      rewrite Forall_forall in Hall. apply Hall. eapply list_elem_of_lookup_2, Hi.
  - exists pieces. split; [reflexivity|]. split; [|split].
    + assert (current = "") as ->.
      { destruct current; [reflexivity|]. unfold len in Hcur. simpl in Hcur.
        apply Z.ltb_ge in Hcur. lia. }
      now symmetry.
    + exact Hne.
    + intros i piece Hi _. rewrite Forall_forall in Hall. apply Hall.
      eapply list_elem_of_lookup_2, Hi.
Qed.

End ProcessorFacts.

(** ** The crawler *)

Section ScraperFacts.
Import Strings models scraper.
Context `{Unicode} `{url.Lib} `{World}.

Lemma sameScraper_refl s : sameScraper s s.
Proof. repeat split. Qed.

Lemma sameScraper_trans s2 s1 s0 :
  sameScraper s1 s0 -> sameScraper s2 s1 -> sameScraper s2 s0.
Proof. intros (?&?&?&?) (?&?&?&?). repeat split; congruence. Qed.

Lemma shouldProcessURL_same s1 s0 u :
  sameScraper s1 s0 -> shouldProcessURL s1 u = shouldProcessURL s0 u.
Proof. intros (Hc&_&_&Hh). unfold shouldProcessURL. now rewrite Hc, Hh. Qed.

Lemma inScope_same s1 s0 lo d :
  sameScraper s1 s0 -> inScope s1 lo d -> inScope s0 lo d.
Proof.
  intros Hs [Hp Hd]. split.
  - now rewrite <- (shouldProcessURL_same s1 s0).
  - destruct Hs as (Hc&_). now rewrite <- Hc.
Qed.

Lemma inScope_weaken s lo lo' d : lo' <= lo -> inScope s lo d -> inScope s lo' d.
Proof. intros Hle [Hp (k & Hk & Hb)]. split; [exact Hp|]. exists k. split; [exact Hk|lia]. Qed.

Lemma crawlStep_intro lo docs0 st0 docs1 st1 (new : list string)
    (newdocs : list Document) :
  sameScraper (self st1) (self st0) ->
  (forall u, isVisited (self st0) u = true -> isVisited (self st1) u = true) ->
  gets st1 = gets st0 ++ new ->
  NoDup new ->
  (forall u, u ∈ new -> isVisited (self st0) u = false) ->
  (forall u, u ∈ new -> isVisited (self st1) u = true) ->
  docs1 = docs0 ++ newdocs ->
  sublist (URL <$> newdocs) new ->
  Forall (inScope (self st0) lo) newdocs ->
  crawlStep lo docs0 st0 docs1 st1.
Proof.
  intros Hs Hm Hr Hn Hf Ht Hd Hsub Hin.
  split; [exact Hs|]. split; [exact Hm|]. exists new, newdocs.
  split; [exact Hr|]. split; [exact Hn|]. split; [|auto].
  intros u Hu. split; auto.
Qed.

Lemma crawlStep_refl lo docs st : crawlStep lo docs st docs st.
Proof.
  apply (crawlStep_intro _ _ _ _ _ [] []); rewrite ?app_nil_r;
    first [ apply sameScraper_refl | solve [auto] | solve [constructor]
          | intros u Hu; inversion Hu ].
Qed.

Lemma crawlStep_trans lo docs0 st0 docs1 st1 docs2 st2 :
  crawlStep lo docs0 st0 docs1 st1 ->
  crawlStep lo docs1 st1 docs2 st2 ->
  crawlStep lo docs0 st0 docs2 st2.
Proof.
  intros (Hs1 & Hm1 & new1 & nd1 & Hr1 & Hn1 & Hv1 & Hd1 & Hsub1 & Hin1)
         (Hs2 & Hm2 & new2 & nd2 & Hr2 & Hn2 & Hv2 & Hd2 & Hsub2 & Hin2).
  apply (crawlStep_intro _ _ _ _ _ (new1 ++ new2) (nd1 ++ nd2)).
  - eapply sameScraper_trans; eauto.
  - auto.
  - rewrite Hr2, Hr1. now rewrite app_assoc.
  - apply NoDup_app. split; [exact Hn1|]. split; [|exact Hn2].
    intros u Hu1 Hu2. destruct (Hv1 u Hu1) as [_ Ht]. destruct (Hv2 u Hu2) as [Hf _].
    congruence.
  - intros u Hin. apply elem_of_app in Hin as [Hu|Hu].
    + now destruct (Hv1 u Hu).
    + destruct (Hv2 u Hu) as [Hf _].
      destruct (isVisited (self st0) u) eqn:E; [|reflexivity].
      apply Hm1 in E. congruence.
  - intros u Hin. apply elem_of_app in Hin as [Hu|Hu].
    + destruct (Hv1 u Hu) as [_ Ht]. auto.
    + now destruct (Hv2 u Hu).
  - rewrite Hd2, Hd1. now rewrite app_assoc.
  - rewrite fmap_app. now apply sublist_app.
  - apply Forall_app. split; [exact Hin1|].
    eapply Forall_impl; [exact Hin2|]. intros d. now apply inScope_same.
Qed.

Lemma crawlStep_weaken lo lo' docs0 st0 docs1 st1 :
  lo' <= lo -> crawlStep lo docs0 st0 docs1 st1 -> crawlStep lo' docs0 st0 docs1 st1.
Proof.
  intros Hle (Hs & Hm & new & nd & Hr & Hn & Hv & Hd & Hsub & Hin).
  apply (crawlStep_intro _ _ _ _ _ new nd);
    first [ assumption | intros u Hu; now apply Hv | idtac ].
  eapply Forall_impl; [exact Hin|]. intros d. now apply inScope_weaken.
Qed.

Lemma isVisited_mark s u v :
  isVisited (markVisited s u) v = if decide (u = v) then true else isVisited s v.
Proof.
  unfold isVisited, markVisited. simpl.
  destruct (decide (u = v)) as [->|Hne].
  - now rewrite lookup_insert_eq.
  - now rewrite lookup_insert_ne.
Qed.

Lemma eachLink_step (lo : Z)
    (visit : string -> list Document -> State -> Run (error * list Document * State))
    (urlStr : string) (hrefs : list string) :
  (forall u docs st r, visit u docs st = Returns r -> crawlStep lo docs st r.1.2 r.2) ->
  forall docs st docs' st',
    eachLink visit urlStr hrefs docs st = Returns (docs', st') ->
    crawlStep lo docs st docs' st'.
Proof.
  intros Hvisit. induction hrefs as [|href rest IH]; intros docs st docs' st'; simpl.
  - intros [= <- <-]. apply crawlStep_refl.
  - destruct (resolveLink urlStr href) as [u|]; [|apply IH].
    destruct (visit u docs st) as [r| |] eqn:Hr; [|discriminate..].
    intros Hrest. eapply crawlStep_trans; [exact (Hvisit _ _ _ _ Hr)|].
    now apply IH.
Qed.

Lemma scrapeRecursive_step (fuel : nat) :
  forall urlStr depth docs st r,
    scrapeRecursive fuel urlStr depth docs st = Returns r ->
    crawlStep depth docs st r.1.2 r.2.
Proof.
  induction fuel as [|fuel IH]; intros urlStr depth docs st r; simpl; [discriminate|].
  destruct ((depth >? MaxDepth (config (self st))) || isVisited (self st) urlStr) eqn:Hguard.
  { intros Hret; injection Hret as Hret; subst r. apply crawlStep_refl. }
  destruct (shouldProcessURL (self st) urlStr) eqn:Hadmit; simpl.
  2:{ intros Hret; injection Hret as Hret; subst r. apply crawlStep_refl. }
  apply orb_false_iff in Hguard as [Hdepth Hfresh].
  rewrite Z.gtb_ltb in Hdepth. apply Z.ltb_ge in Hdepth.
  set (s1 := markVisited (self st) urlStr).
  set (pr := if OnProgress (config (self st)) then progress st ++ [urlStr]
             else progress st).
  assert (Hsame : sameScraper s1 (self st)) by (repeat split).
  assert (Hmono : forall u, isVisited (self st) u = true -> isVisited s1 u = true).
  { intros u Hu. unfold s1. rewrite isVisited_mark. now destruct (decide (urlStr = u)). }
  (* the state reached once [client.Get] has been called *)
  assert (Hreq : forall wire docsNew,
            docsNew = [] \/ (exists d, docsNew = [d] /\ URL d = urlStr
                                       /\ inScope (self st) depth d) ->
            crawlStep depth docs st (docs ++ docsNew)
              {| self := s1; gets := gets st ++ [urlStr]; requests := wire;
                 progress := pr |}).
  { intros wire docsNew HdocsNew.
    apply (crawlStep_intro _ _ _ _ _ [urlStr] docsNew); simpl;
      first [ assumption | reflexivity | idtac ].
    - apply NoDup_singleton.
    - intros u Hu. apply list_elem_of_singleton in Hu as ->. exact Hfresh.
    - intros u Hu. apply list_elem_of_singleton in Hu as ->.
      unfold s1. rewrite isVisited_mark.
      now destruct (decide (urlStr = urlStr)).
    - destruct HdocsNew as [->|(d & -> & Hu & _)]; simpl.
      + apply sublist_nil_l.
      + rewrite Hu. apply sublist_skip, sublist_nil.
    - destruct HdocsNew as [->|(d & -> & _ & Hd)].
      + constructor.
      + constructor; [exact Hd | constructor].
    }
  destruct (limiter_Wait (requests st) (limiter (self st))) as [[err|]|];
    [|clear Hsame Hmono|discriminate].
  { intros Hret; injection Hret as Hret; subst r. simpl.
    apply (crawlStep_intro _ _ _ _ _ [] []); simpl; rewrite ?app_nil_r;
      first [ assumption | solve [auto] | solve [constructor]
            | intros u Hu; inversion Hu ]. }
  destruct (client_Get (requests st) (client (self st)) urlStr) as [sent [resp|err]];
    simpl.
  2:{ intros Hret; injection Hret as Hret; subst r. simpl.
      specialize (Hreq (requests st ++ sent) [] (or_introl eq_refl)).
      now rewrite app_nil_r in Hreq. }
  destruct (StatusCode resp =? 200); simpl.
  2:{ intros Hret; injection Hret as Hret; subst r. simpl.
      specialize (Hreq (requests st ++ sent) [] (or_introl eq_refl)).
      now rewrite app_nil_r in Hreq. }
  destruct (NewDocumentFromReader (Body resp)) as [doc|err].
  2:{ intros Hret; injection Hret as Hret; subst r. simpl.
      specialize (Hreq (requests st ++ sent) [] (or_introl eq_refl)).
      now rewrite app_nil_r in Hreq. }
  match goal with |- context [docs ++ [?d]] => set (document := d) end.
  destruct (eachLink _ urlStr (Find_hrefs doc) (docs ++ [document]) _)
    as [[docs' st']| |] eqn:Heach; [|discriminate..].
  intros Hret; injection Hret as Hret; subst r. simpl.
  eapply crawlStep_trans.
  - apply (Hreq (requests st ++ sent) [document]). right. exists document. repeat split; auto.
    exists depth. split; [reflexivity|lia].
  - apply (crawlStep_weaken (depth + 1)); [lia|].
    eapply eachLink_step; [|exact Heach].
    intros u d0 st0 r0 Hr0. exact (IH _ _ _ _ _ Hr0).
Qed.

(** *** Termination

    With fuel for [MaxDepth + 2] nested calls the recursion never runs
    out of it: a call returns, unless a call of [limiter.Wait] never
    does. *)

Lemma eachLink_ends (P : State -> Prop) (Q : Prop)
    (visit : string -> list Document -> State -> Run (error * list Document * State))
    (urlStr : string) (hrefs : list string) :
  (forall u docs st, P st ->
     (exists r, visit u docs st = Returns r /\ P r.2)
     \/ (visit u docs st = Blocks /\ Q)) ->
  forall docs st, P st ->
    (exists r, eachLink visit urlStr hrefs docs st = Returns r)
    \/ (eachLink visit urlStr hrefs docs st = Blocks /\ Q).
Proof.
  intros Hvisit. induction hrefs as [|href rest IH]; intros docs st HP; simpl.
  - eauto.
  - destruct (resolveLink urlStr href) as [u|]; [|now apply IH].
    destruct (Hvisit u docs st HP) as [(r & -> & HP')|[-> HQ]]; [now apply IH|auto].
Qed.

Lemma scrapeRecursive_ends (fuel : nat) :
  forall urlStr depth docs st,
    MaxDepth (config (self st)) + 2 - depth <= Z.of_nat fuel ->
    (0 < fuel)%nat ->
    (exists r, scrapeRecursive fuel urlStr depth docs st = Returns r)
    \/ (scrapeRecursive fuel urlStr depth docs st = Blocks
        /\ ~ limiterReturns (self st)).
Proof.
  induction fuel as [|fuel IH]; intros urlStr depth docs st Hfuel Hpos; [lia|].
  simpl.
  destruct ((depth >? MaxDepth (config (self st))) || isVisited (self st) urlStr) eqn:Hguard;
    [eauto|].
  destruct (shouldProcessURL (self st) urlStr); simpl; [|eauto].
  apply orb_false_iff in Hguard as [Hdepth _].
  rewrite Z.gtb_ltb in Hdepth. apply Z.ltb_ge in Hdepth.
  destruct (limiter_Wait (requests st) (limiter (self st))) as [[err|]|] eqn:Hwait;
    [eauto| |right; split; [reflexivity|]; intros Hret; exact (Hret _ Hwait)].
  destruct (client_Get (requests st) (client (self st)) urlStr) as [sent [resp|]];
    simpl; [|eauto].
  destruct (StatusCode resp =? 200); simpl; [|eauto].
  destruct (NewDocumentFromReader (Body resp)) as [doc|]; [|eauto].
  match goal with
  | |- context [eachLink ?v ?u ?h ?d ?s] =>
      destruct (eachLink_ends
                  (fun st' => sameScraper (self st') (self st))
                  (~ limiterReturns (self st)) v u h) with d s
        as [[r Hr]|[Hr Hno]]
  end.
  - intros u docs0 st0 HP. pose proof HP as (Hc & _ & Hl & _).
    destruct (IH u (depth + 1) docs0 st0) as [[r Hr]|[Hr Hno]];
      [rewrite Hc; lia | lia | |].
    + left. exists r. split; [exact Hr|].
      destruct (scrapeRecursive_step _ _ _ _ _ _ Hr) as (Hs & _).
      eapply sameScraper_trans; eauto.
    + right. split; [exact Hr|]. intros Hret. apply Hno.
      intros history. rewrite Hl. apply Hret.
  - repeat split.
  - rewrite Hr. eauto.
  - rewrite Hr. auto.
Qed.

Lemma scrapeRecursive_fuel (urlStr : string) (st : State) :
  scrapeRecursive (scrapeFuel (self st)) urlStr 0 [] st <> OutOfFuel.
Proof.
  destruct (scrapeRecursive_ends (scrapeFuel (self st)) urlStr 0 [] st)
    as [[r ->]|[-> _]]; unfold scrapeFuel; try lia; discriminate.
Qed.

(** [Scrape] returns whenever the limiter lets every caller through. *)
Lemma Scrape_returns (urlStr : string) (st : State) :
  limiterReturns (self st) -> is_Some (Scrape urlStr st).
Proof.
  intros Hret. unfold Scrape.
  destruct (scrapeRecursive_ends (scrapeFuel (self st)) urlStr 0 [] st)
    as [[r ->]|[_ Hno]]; unfold scrapeFuel; try lia; [eauto|contradiction].
Qed.

(** [Scrape] fails to return only when a call of [limiter.Wait] does. *)
Lemma Scrape_blocked (urlStr : string) (st : State) :
  Scrape urlStr st = None ->
  scrapeRecursive (scrapeFuel (self st)) urlStr 0 [] st = Blocks
  /\ ~ limiterReturns (self st).
Proof.
  unfold Scrape.
  destruct (scrapeRecursive_ends (scrapeFuel (self st)) urlStr 0 [] st)
    as [[r ->]|[-> Hno]]; unfold scrapeFuel; try lia; [discriminate|auto].
Qed.

(** *** Requests

    When the client follows no redirect the requests sent are the
    addresses [client.Get] was called with. *)




Lemma NewWithConfig_baseHost (cfg : ScraperConfig) (s : Scraper) :
  NewWithConfig cfg = Ok s ->
  exists base, url.Parse (BaseURL cfg) = Ok base /\ baseHost s = url.Host base
               /\ visited s = ∅.
Proof.
  unfold NewWithConfig. destruct (url.Parse (BaseURL cfg)) as [base|]; [|discriminate].
  intros [= <-]. eauto.
Qed.

Lemma Scrape_visited (st : State) (v : string) :
  isVisited (self st) v = true -> Scrape v st = Some ([], None, st).
Proof.
  intros Hv. unfold Scrape, scrapeFuel. simpl. now rewrite Hv, orb_true_r.
Qed.

Lemma Scrape_step (urlStr : string) (st : State) docs err st' :
  Scrape urlStr st = Some (docs, err, st') -> crawlStep 0 [] st docs st'.
Proof.
  unfold Scrape.
  destruct (scrapeRecursive _ urlStr 0 [] st) as [r| |] eqn:Hr; [|discriminate..].
  intros [= <- <- <-]. exact (scrapeRecursive_step _ _ _ _ _ _ Hr).
Qed.

Lemma crawls_trans (st0 st1 st2 : State) :
  crawls st0 st1 -> crawls st1 st2 -> crawls st0 st2.
Proof.
  induction 1 as [|st u docs err sta stb Hrun _ IH]; [auto|].
  intros H2. eapply crawls_step; [exact Hrun|]. now apply IH.
Qed.

(** Across [Scrape] calls the scraper keeps its configuration and what it
    has visited, and its log of calls grows. *)
Lemma crawls_keep (st st' : State) :
  crawls st st' ->
  sameScraper (self st') (self st)
  /\ (forall v, isVisited (self st) v = true -> isVisited (self st') v = true)
  /\ exists more, gets st' = gets st ++ more.
Proof.
  induction 1 as [st|st u docs err st1 st2 Hrun _ IH].
  - split; [apply sameScraper_refl|]. split; [auto|]. exists []. now rewrite app_nil_r.
  - destruct (Scrape_step _ _ _ _ _ Hrun) as (Hs & Hm & new & _ & Hg & _).
    destruct IH as (Hs' & Hm' & more & Hg').
    split; [eapply sameScraper_trans; eauto|]. split; [auto|].
    exists (new ++ more). now rewrite Hg', Hg, app_assoc.
Qed.


(** C9, as amended.  The visited set is a field of the scraper: the
    constructor creates it empty and it is kept from one [Scrape] call to
    the next, for as long as the scraper is used.  What was visited
    before a call is visited after it; every address [client.Get] was
    called with during a call is visited after it and stays so, and any
    later [Scrape] call on the same scraper, whatever its start address,
    calls [client.Get] only with addresses not visited when it starts: it
    neither calls [client.Get] with an address of the earlier call again
    nor returns a document for it. *)
Theorem visited_outlives_Scrape (cfg : ScraperConfig) (s : Scraper)
    (st0 st1 st2 st3 : State) (u1 u2 : string)
    (docs1 docs2 : list Document) (err1 err2 : error) :
  NewWithConfig cfg = Ok s ->
  crawls (freshState s) st0 ->
  Scrape u1 st0 = Some (docs1, err1, st1) ->
  crawls st1 st2 ->
  Scrape u2 st2 = Some (docs2, err2, st3) ->
  visited s = ∅
  /\ (forall v, isVisited (self st0) v = true -> isVisited (self st3) v = true)
  /\ exists new1 new2,
       gets st1 = gets st0 ++ new1
       /\ gets st3 = gets st2 ++ new2
       /\ (forall v, v ∈ new2 -> isVisited (self st2) v = false)
       /\ forall v, v ∈ new1 ->
            isVisited (self st1) v = true
            /\ isVisited (self st2) v = true
            /\ isVisited (self st3) v = true
            /\ (v ∉ new2)
            /\ (v ∉ URL <$> docs2).
Proof.
  intros Hnew _ Hrun1 Hlater Hrun2.
  destruct (NewWithConfig_baseHost _ _ Hnew) as (_ & _ & _ & Hempty).
  destruct (Scrape_step _ _ _ _ _ Hrun1) as (_ & Hm1 & new1 & _ & Hg1 & _ & Hv1 & _).
  destruct (crawls_keep _ _ Hlater) as (_ & Hm12 & _).
  destruct (Scrape_step _ _ _ _ _ Hrun2)
    as (_ & Hm2 & new2 & nd2 & Hg2 & _ & Hv2 & Hd2 & Hsub2 & _).
  simpl in Hd2. subst nd2.
  split; [exact Hempty|]. split; [auto|].
  exists new1, new2. split; [exact Hg1|]. split; [exact Hg2|].
  split; [intros v Hin; now destruct (Hv2 v Hin)|].
  intros v Hin. destruct (Hv1 v Hin) as [_ Ht1].
  assert (Ht2 : isVisited (self st2) v = true) by auto.
  assert (Hout : v ∉ new2).
  { intros Hin2. destruct (Hv2 v Hin2) as [Hf _]. congruence. }
  repeat split; auto.
  intros Hdoc. apply Hout. exact (elem_of_sublist _ _ _ Hdoc Hsub2).
Qed.


(** *** Admission *)

(** Once the empty string is among the allowed extensions the extension
    check passes for every path: admission is decided by the host and the
    ignore patterns alone. *)
Lemma empty_extension_admits_every_path (s : Scraper) (urlStr : string) :
  "" ∈ AllowedExtensions (config s) ->
  shouldProcessURL s urlStr
  = match url.Parse urlStr with
    | Err _ => false
    | Ok parsedURL =>
        String.eqb (url.Host parsedURL) (baseHost s)
        && negb (existsb (Contains urlStr) (IgnorePatterns (config s)))
    end.
Proof.
  intros Hin. unfold shouldProcessURL.
  destruct (url.Parse urlStr) as [u|]; [|reflexivity].
  destruct (String.eqb (url.Host u) (baseHost s)); simpl; [|reflexivity].
  assert (Hext : existsb (HasSuffix (ToLower (url.Path u)))
                   (AllowedExtensions (config s)) = true).
  { apply existsb_exists. exists "". split.
    - now apply list_elem_of_In.
    - apply HasSuffix_empty. }
  rewrite Hext. simpl.
  now destruct (existsb (Contains urlStr) (IgnorePatterns (config s))).
Qed.

(** *** Construction *)

(** Construction succeeds exactly when the base URL parses. *)
Lemma NewWithConfig_succeeds_iff (cfg : ScraperConfig) :
  (exists s, NewWithConfig cfg = Ok s)
  <-> (exists base, url.Parse (BaseURL cfg) = Ok base).
Proof.
  unfold NewWithConfig.
  destruct (url.Parse (BaseURL cfg)) as [base|e]; split; eauto.
  - intros [s Hs]. discriminate.
  - intros [base Hbase]. discriminate.
Qed.

(** C5, as amended.  The constructor of the scraper takes a rate limit of
    0 for unset: construction then succeeds whenever the base URL parses,
    with a limiter of 2 requests per second and burst 1.  That the rate be
    positive is checked by [Config.Validate], which reports
    [rate_limit must be positive] exactly when the rate is [<= 0]. *)
Theorem scraper_construction_defaults_zero_rate (cfg : ScraperConfig)
    (c : config.Config) :
  SFeqb (RateLimit cfg) (f64 0 0) = true ->
  ((exists s, NewWithConfig cfg = Ok s)
   <-> (exists base, url.Parse (BaseURL cfg) = Ok base))
  /\ (forall s, NewWithConfig cfg = Ok s ->
        limiter s = {| limit := f64 2 0; burst := 1 |}
        /\ RateLimit (config s) = (f64 2 0))
  /\ (config.rateLimitError ∈ config.Validate c
      <-> SFleb (config.RateLimit (config.Scraper c)) (f64 0 0) = true).
Proof.
  intros Hzero. split; [apply NewWithConfig_succeeds_iff|]. split.
  - intros s. unfold NewWithConfig. rewrite Hzero.
    destruct (url.Parse (BaseURL cfg)) as [base|e]; [|discriminate].
    now intros [= <-].
  - apply Validate_rate_limit.
Qed.

(** *** The log of a crawl *)

Lemma markAll_app (m1 m2 : list string) (s : Scraper) :
  markAll (m1 ++ m2) s = markAll m2 (markAll m1 s).
Proof. unfold markAll. apply fold_left_app. Qed.

Lemma markAll_same (marked : list string) :
  forall s, sameScraper (markAll marked s) s.
Proof.
  induction marked as [|u marked IH]; intros s; simpl.
  - apply sameScraper_refl.
  - eapply sameScraper_trans; [|apply IH]. repeat split.
Qed.

Lemma isVisited_markAll (marked : list string) (v : string) :
  forall s, isVisited (markAll marked s) v = true
            <-> isVisited s v = true \/ v ∈ marked.
Proof.
  induction marked as [|u marked IH]; intros s; simpl.
  - split; [auto|]. intros [Hv|Hin]; [exact Hv|inversion Hin].
  - fold (markAll marked (markVisited s u)). rewrite IH, isVisited_mark.
    rewrite elem_of_cons. destruct (decide (u = v)) as [->|Hne]; [tauto|].
    split; [tauto|]. intros [Hv|[Heq|Hin]]; auto; congruence.
Qed.

Lemma crawlLog_refl docs st : crawlLog docs st docs st.
Proof.
  exists [], [], []. rewrite !app_nil_r. simpl.
  repeat split; try constructor. now destruct (OnProgress _).
Qed.

Lemma crawlLog_trans docs0 st0 docs1 st1 docs2 st2 :
  crawlLog docs0 st0 docs1 st1 ->
  crawlLog docs1 st1 docs2 st2 ->
  crawlLog docs0 st0 docs2 st2.
Proof.
  intros (m1 & new1 & nd1 & Hs1 & Hp1 & Hr1 & Hsub1 & Hn1 & Ha1 & Hd1 & Hi1)
         (m2 & new2 & nd2 & Hs2 & Hp2 & Hr2 & Hsub2 & Hn2 & Ha2 & Hd2 & Hi2).
  assert (Hsame : sameScraper (self st1) (self st0)).
  { rewrite Hs1. apply markAll_same. }
  exists (m1 ++ m2), (new1 ++ new2), (nd1 ++ nd2).
  split; [now rewrite markAll_app, <- Hs1|]. split.
  { rewrite Hp2, Hp1. destruct Hsame as (-> & _).
    destruct (OnProgress _); [now rewrite app_assoc|reflexivity]. }
  split; [now rewrite Hr2, Hr1, app_assoc|].
  split; [now apply sublist_app|]. split.
  { apply NoDup_app. split; [exact Hn1|]. split; [|exact Hn2].
    intros u Hu1 Hu2. rewrite Forall_forall in Ha2.
    destruct (Ha2 u Hu2) as [_ Hf]. rewrite Hs1 in Hf.
    assert (Ht : isVisited (markAll m1 (self st0)) u = true)
      by (apply isVisited_markAll; now right).
    congruence. }
  split.
  { apply Forall_app. split; [exact Ha1|].
    eapply Forall_impl; [exact Ha2|]. intros u [Hu Hf]. split.
    - now rewrite <- (shouldProcessURL_same _ _ u Hsame).
    - destruct (isVisited (self st0) u) eqn:E; [|reflexivity].
      assert (Ht : isVisited (self st1) u = true)
        by (rewrite Hs1; apply isVisited_markAll; now left).
      congruence. }
  split; [now rewrite Hd2, Hd1, app_assoc|].
  now apply Forall_app.
Qed.

Lemma eachLink_log
    (visit : string -> list Document -> State -> Run (error * list Document * State))
    (urlStr : string) (hrefs : list string) :
  (forall u docs st r, visit u docs st = Returns r -> crawlLog docs st r.1.2 r.2) ->
  forall docs st docs' st',
    eachLink visit urlStr hrefs docs st = Returns (docs', st') ->
    crawlLog docs st docs' st'.
Proof.
  intros Hvisit. induction hrefs as [|href rest IH]; intros docs st docs' st'; simpl.
  - intros [= <- <-]. apply crawlLog_refl.
  - destruct (resolveLink urlStr href) as [u|]; [|apply IH].
    destruct (visit u docs st) as [r| |] eqn:Hr; [|discriminate..].
    intros Hrest. eapply crawlLog_trans; [exact (Hvisit _ _ _ _ Hr)|].
    now apply IH.
Qed.

Lemma scrapeRecursive_log (fuel : nat) :
  forall urlStr depth docs st r,
    scrapeRecursive fuel urlStr depth docs st = Returns r ->
    crawlLog docs st r.1.2 r.2.
Proof.
  induction fuel as [|fuel IH]; intros urlStr depth docs st r; simpl; [discriminate|].
  destruct ((depth >? MaxDepth (config (self st))) || isVisited (self st) urlStr) eqn:Hguard.
  { intros Hret; injection Hret as Hret; subst r. apply crawlLog_refl. }
  destruct (shouldProcessURL (self st) urlStr) eqn:Hadmit; simpl.
  2:{ intros Hret; injection Hret as Hret; subst r. apply crawlLog_refl. }
  apply orb_false_iff in Hguard as [_ Hfresh].
  set (s1 := markVisited (self st) urlStr).
  set (pr := if OnProgress (config (self st)) then progress st ++ [urlStr]
             else progress st).
  assert (Hreq : forall new wire docsNew,
            new = [] \/ new = [urlStr] ->
            Forall (fun d => ID d = "") docsNew ->
            crawlLog docs st (docs ++ docsNew)
              {| self := s1; gets := gets st ++ new; requests := wire;
                 progress := pr |}).
  { intros new wire docsNew Hnew Hids. exists [urlStr], new, docsNew. simpl.
    split; [reflexivity|]. split; [reflexivity|]. split; [reflexivity|].
    split; [destruct Hnew as [->| ->]; [apply sublist_nil_l|reflexivity]|].
    split; [apply NoDup_singleton|].
    split; [constructor; [auto|constructor]|]. auto. }
  destruct (limiter_Wait (requests st) (limiter (self st))) as [[err|]|];
    [| |discriminate].
  { intros Hret; injection Hret as Hret; subst r. simpl.
    specialize (Hreq [] (requests st) [] (or_introl eq_refl) ltac:(constructor)).
    now rewrite !app_nil_r in Hreq. }
  destruct (client_Get (requests st) (client (self st)) urlStr) as [sent [resp|err]];
    simpl.
  2:{ intros Hret; injection Hret as Hret; subst r. simpl.
      specialize (Hreq [urlStr] (requests st ++ sent) []
                    (or_intror eq_refl) ltac:(constructor)).
      now rewrite app_nil_r in Hreq. }
  destruct (StatusCode resp =? 200); simpl.
  2:{ intros Hret; injection Hret as Hret; subst r. simpl.
      specialize (Hreq [urlStr] (requests st ++ sent) []
                    (or_intror eq_refl) ltac:(constructor)).
      now rewrite app_nil_r in Hreq. }
  destruct (NewDocumentFromReader (Body resp)) as [doc|err].
  2:{ intros Hret; injection Hret as Hret; subst r. simpl.
      specialize (Hreq [urlStr] (requests st ++ sent) []
                    (or_intror eq_refl) ltac:(constructor)).
      now rewrite app_nil_r in Hreq. }
  match goal with |- context [docs ++ [?d]] => set (document := d) end.
  destruct (eachLink _ urlStr (Find_hrefs doc) (docs ++ [document]) _)
    as [[docs' st']| |] eqn:Heach; [|discriminate..].
  intros Hret; injection Hret as Hret; subst r. simpl.
  eapply crawlLog_trans.
  - apply (Hreq [urlStr] (requests st ++ sent) [document]); [now right|].
    constructor; [reflexivity|constructor].
  - eapply eachLink_log; [|exact Heach].
    intros u d0 st0 r0 Hr0. exact (IH _ _ _ _ _ Hr0).
Qed.

Lemma Scrape_log (urlStr : string) (st : State) docs err st' :
  Scrape urlStr st = Some (docs, err, st') -> crawlLog [] st docs st'.
Proof.
  unfold Scrape.
  destruct (scrapeRecursive _ urlStr 0 [] st) as [r| |] eqn:Hr; [|discriminate..].
  intros [= <- <- <-]. exact (scrapeRecursive_log _ _ _ _ _ _ Hr).
Qed.




(** X15.  The visited set grows by exactly the addresses the crawl
    admitted: each of them passed the admission test, was not visited
    before and is marked once.  The progress callback, if set, is called
    once on each of them, in that order; without a callback nothing is
    reported.  The addresses [client.Get] is called with are some of
    them, in the same order. *)
Theorem Scrape_progress (urlStr : string) (st : State)
    (docs : list Document) (err : error) (st' : State) :
  Scrape urlStr st = Some (docs, err, st') ->
  exists marked new,
    NoDup marked
    /\ Forall (fun v => shouldProcessURL (self st) v = true
                        /\ isVisited (self st) v = false) marked
    /\ (forall v, isVisited (self st') v = true
                  <-> isVisited (self st) v = true \/ v ∈ marked)
    /\ progress st' = (if OnProgress (config (self st))
                       then progress st ++ marked else progress st)
    /\ gets st' = gets st ++ new
    /\ sublist new marked.
Proof.
  intros Hrun.
  destruct (Scrape_log _ _ _ _ _ Hrun)
    as (marked & new & nd & Hs & Hp & Hr & Hsub & Hn & Ha & _).
  exists marked, new. split; [exact Hn|]. split; [exact Ha|]. split.
  { intros v. rewrite Hs. apply isVisited_markAll. }
  auto.
Qed.

Lemma isVisited_mark_self (s : Scraper) (u : string) :
  isVisited (markVisited s u) u = true.
Proof. rewrite isVisited_mark. now destruct (decide (u = u)). Qed.

(** What the first call of the recursion makes of a crawl. *)
Lemma Scrape_cases (urlStr : string) (st : State)
    (docs : list Document) (err : error) (st' : State) :
  Scrape urlStr st = Some (docs, err, st') ->
  (docs = [] /\ err = None /\ st' = st)
  \/ (docs = [] /\ err <> None /\ self st' = markVisited (self st) urlStr)
  \/ (err = None /\ isVisited (self st) urlStr = false
      /\ shouldProcessURL (self st) urlStr = true
      /\ exists d rest, docs = d :: rest /\ URL d = urlStr
           /\ Metadata d !! "depth" = Some (VInt 0)).
Proof.
  unfold Scrape, scrapeFuel. cbn [scrapeRecursive].
  destruct ((0 >? MaxDepth (config (self st))) || isVisited (self st) urlStr) eqn:Hguard.
  { simpl. intros [= <- <- <-]. auto. }
  destruct (shouldProcessURL (self st) urlStr) eqn:Hadmit; cbn [negb].
  2:{ simpl. intros [= <- <- <-]. auto. }
  apply orb_false_iff in Hguard as [_ Hfresh].
  destruct (limiter_Wait (requests st) _) as [[e|]|]; [| |discriminate].
  { simpl. intros [= <- <- <-]. right. left. auto. }
  cbv zeta.
  destruct (client_Get (requests st) _ urlStr) as [sent [resp|e]]; cbn [fst snd].
  2:{ simpl. intros [= <- <- <-]. right. left. auto. }
  destruct (negb (StatusCode resp =? 200)).
  { simpl. intros [= <- <- <-]. right. left. auto. }
  destruct (NewDocumentFromReader (Body resp)) as [doc|e].
  2:{ simpl. intros [= <- <- <-]. right. left. auto. }
  match goal with |- context [eachLink ?v ?u ?h ([] ++ [?d]) ?s0] =>
    set (document := d);
    destruct (eachLink v u h ([] ++ [document]) s0) as [[docs' st1]| |] eqn:Heach
  end; [|discriminate..].
  simpl. intros [= <- <- <-]. right. right.
  split; [reflexivity|]. split; [exact Hfresh|]. split; [reflexivity|].
  pose proof (eachLink_log _ _ _
                (fun u d0 st0 r0 Hr0 => scrapeRecursive_log _ _ _ _ _ _ Hr0)
                _ _ _ _ Heach) as Hlog.
  destruct Hlog as (_ & _ & nd & _ & _ & _ & _ & _ & _ & Hd & _).
  exists document, nd. split; [exact Hd|]. split; reflexivity.
Qed.

(** X16.  An error of [Scrape] is an error at the start page; errors at
    linked pages are dropped.  With an error no document is returned,
    and since the start address is by then marked visited, asking the
    same scraper again returns nothing and no error. *)
Theorem Scrape_error (urlStr : string) (st : State)
    (docs : list Document) (e : string) (st' : State) :
  Scrape urlStr st = Some (docs, Some e, st') ->
  docs = []
  /\ isVisited (self st') urlStr = true
  /\ Scrape urlStr st' = Some ([], None, st').
Proof.
  intros Hrun.
  destruct (Scrape_cases _ _ _ _ _ Hrun)
    as [(_ & [=] & _)|[(Hd & _ & Hs)|([=] & _)]].
  assert (Hv : isVisited (self st') urlStr = true)
    by (rewrite Hs; apply isVisited_mark_self).
  split; [exact Hd|]. split; [exact Hv|]. now apply Scrape_visited.
Qed.

(** X17.  When [Scrape] returns documents, the first one is the start page,
    recorded at depth 0, the start address passed the admission test and
    was not visited before, and the error is [nil]. *)
Theorem Scrape_first_document (urlStr : string) (st : State)
    (d : Document) (docs : list Document) (err : error) (st' : State) :
  Scrape urlStr st = Some (d :: docs, err, st') ->
  URL d = urlStr
  /\ Metadata d !! "depth" = Some (VInt 0)
  /\ err = None
  /\ shouldProcessURL (self st) urlStr = true
  /\ isVisited (self st) urlStr = false.
Proof.
  intros Hrun.
  destruct (Scrape_cases _ _ _ _ _ Hrun)
    as [([=] & _)|[([=] & _)|(He & Hf & Ha & d' & rest & [= <- <-] & Hu & Hdepth)]].
  auto.
Qed.

End ScraperFacts.

(** ** The vector store *)

Section StoreFacts.
Import Strings models store.
Context `{Unicode}.

Section OneBackend.
Context `{Backend}.

Lemma upsertAll_app (rows1 rows2 : list (string * Row)) (t : gmap string Row) :
  upsertAll (rows1 ++ rows2) t = upsertAll rows2 (upsertAll rows1 t).
Proof. unfold upsertAll. apply fold_left_app. Qed.

Lemma storeChunks_spec (doc : ProcessedDocument) (chunks : list string) :
  forall (i : nat) (db : DB) (t : gmap string Row),
    tx db = Some t ->
    match storeChunks doc (sanitizeUTF8 (Title (Doc doc))) i chunks db with
    | (None, db') =>
        exists rows, rowsFrom doc i chunks = Some rows /\ allAccepted rows
          /\ committed db' = committed db /\ tx db' = Some (upsertAll rows t)
    | (Some _, db') =>
        committed db' = committed db
        /\ ~ (exists rows, rowsFrom doc i chunks = Some rows /\ allAccepted rows)
    end.
Proof.
  induction chunks as [|chunk rest IH]; intros i db t Ht; simpl.
  - exists []. repeat split; auto. constructor.
  - unfold chunkRow.
    destruct (CreateEmbedding [sanitizeUTF8 chunk]) as [emb|e] eqn:Hemb; simpl.
    2:{ split; [reflexivity|]. intros (rows & Hrows & _). discriminate. }
    unfold Exec. rewrite Ht.
    match goal with |- context [Exec_error ?a ?b] => set (id := a); set (row := b) end.
    destruct (Exec_error id row) as [e|] eqn:Hexec.
    + split; [reflexivity|]. intros (rows & Hrows & Hacc).
      destruct (rowsFrom doc (S i) rest) as [rs|]; simpl in Hrows; [|discriminate].
      injection Hrows as <-. apply Forall_cons in Hacc as [Hacc _].
      simpl in Hacc. fold id row in Hacc. congruence.
    + specialize (IH (S i) {| committed := committed db;
                              tx := Some (insertStmt id row t) |} _ eq_refl).
      destruct (storeChunks doc _ (S i) rest _) as [[e|] db'].
      * destruct IH as [Hc Hno]. split; [exact Hc|].
        intros (rows & Hrows & Hacc). apply Hno.
        destruct (rowsFrom doc (S i) rest) as [rs|]; simpl in Hrows; [|discriminate].
        injection Hrows as <-. apply Forall_cons in Hacc as [_ Hacc]. eauto.
      * destruct IH as (rs & -> & Hacc & Hc & Htx). simpl.
        exists ((id, row) :: rs). repeat split; auto.
        constructor; auto.
Qed.

Lemma storeDocs_spec (docs : list ProcessedDocument) :
  forall (db : DB) (t : gmap string Row),
    tx db = Some t ->
    match storeDocs docs db with
    | (None, db') =>
        exists rows, rowsOf docs = Some rows /\ allAccepted rows
          /\ committed db' = committed db /\ tx db' = Some (upsertAll rows t)
    | (Some _, db') =>
        committed db' = committed db
        /\ ~ (exists rows, rowsOf docs = Some rows /\ allAccepted rows)
    end.
Proof.
  induction docs as [|doc rest IH]; intros db t Ht; simpl.
  - exists []. repeat split; auto. constructor.
  - pose proof (storeChunks_spec doc (Chunks doc) 0%nat db t Ht) as Hc.
    destruct (storeChunks doc _ 0 (Chunks doc) db) as [[e|] db1].
    + destruct Hc as [Hc Hno]. split; [exact Hc|].
      intros (rows & Hrows & Hacc). apply Hno.
      destruct (rowsFrom doc 0 (Chunks doc)) as [rs|]; simpl in Hrows; [|discriminate].
      destruct (rowsOf rest) as [rss|]; simpl in Hrows; [|discriminate].
      injection Hrows as <-. apply Forall_app in Hacc as [Hacc _]. eauto.
    + destruct Hc as (rs & Hrs & Hacc & Hc & Htx). rewrite Hrs. simpl.
      specialize (IH db1 _ Htx).
      destruct (storeDocs rest db1) as [[e|] db2].
      * destruct IH as [Hc2 Hno]. split; [congruence|].
        intros (rows & Hrows & Hacc2). apply Hno.
        destruct (rowsOf rest) as [rss|]; simpl in Hrows; [|discriminate].
        injection Hrows as <-. apply Forall_app in Hacc2 as [_ Hacc2]. eauto.
      * destruct IH as (rss & -> & Hacc2 & Hc2 & Htx2). simpl.
        exists (rs ++ rss). repeat split.
        -- apply Forall_app; auto.
        -- congruence.
        -- now rewrite upsertAll_app.
Qed.

(** The outcome of a call of [Store]. *)
Lemma Store_outcome (docs : list ProcessedDocument) (db : DB) :
  let r := Store docs db in
  (r.1 <> None -> committed r.2 = committed db)
  /\ (r.1 = None ->
        exists rows, rowsOf docs = Some rows
          /\ committed r.2 = upsertAll rows (committed db))
  /\ (r.1 = None <->
        Begin_error (committed db) = None
        /\ exists rows, rowsOf docs = Some rows /\ allAccepted rows
             /\ Commit_error (upsertAll rows (committed db)) = None).
Proof.
  unfold Store, Begin.
  destruct (Begin_error (committed db)) as [e|] eqn:Hbegin; simpl.
  - split; [|split; [|split]]; try discriminate; auto.
    intros [[=] _].
  - pose proof (storeDocs_spec docs
        {| committed := committed db; tx := Some (committed db) |} _ eq_refl) as Hs.
    destruct (storeDocs docs _) as [[e|] db1]; simpl in *.
    + destruct Hs as [Hc Hno].
      split; [|split; [|split]]; try discriminate; auto.
      intros (_ & rows & Hrows & Hacc & _). exfalso. eauto.
    + destruct Hs as (rows & Hrows & Hacc & Hc & Htx).
      unfold Commit. rewrite Htx.
      destruct (Commit_error (upsertAll rows (committed db))) as [e|] eqn:Hcommit; simpl.
      * split; [|split; [|split]]; try discriminate; auto.
        intros (_ & rows' & Hrows' & _ & Hcommit'). congruence.
      * split; [|split; [|split]]; eauto; congruence.
Qed.

Lemma upsertAt_eq (k id : string) (o : option Row) (row : Row) :
  upsertAt k o (id, row) = if decide (k = id) then Some (mergeRow o row) else o.
Proof. reflexivity. Qed.

Lemma lookup_insertStmt (id k : string) (row : Row) (t : gmap string Row) :
  insertStmt id row t !! k = upsertAt k (t !! k) (id, row).
Proof.
  unfold insertStmt, upsertAt. simpl.
  destruct (decide (k = id)) as [->|Hne].
  - destruct (t !! id); simpl; now rewrite lookup_insert_eq.
  - destruct (t !! id); now rewrite lookup_insert_ne.
Qed.

Lemma lookup_upsertAll (rows : list (string * Row)) (k : string) :
  forall t, upsertAll rows t !! k = fold_left (upsertAt k) rows (t !! k).
Proof.
  induction rows as [|[id row] rows IH]; intros t; simpl; [reflexivity|].
  unfold upsertAll in *. simpl. rewrite IH. now rewrite lookup_insertStmt.
Qed.

Lemma upsertAt_absent (k : string) (rows : list (string * Row)) :
  k ∉ rows.*1 -> forall o, fold_left (upsertAt k) rows o = o.
Proof.
  induction rows as [|[id row] rows IH]; intros Hk o; simpl; [reflexivity|].
  simpl in Hk. apply not_elem_of_cons in Hk as [Hne Hk].
  rewrite upsertAt_eq. destruct (decide (k = id)); [contradiction|]. auto.
Qed.

Lemma upsertAt_keeps (k : string) (rows : list (string * Row)) :
  forall r0, exists r1,
    fold_left (upsertAt k) rows (Some r0) = Some r1
    /\ url r1 = url r0 /\ title r1 = title r0 /\ chunk_index r1 = chunk_index r0.
Proof.
  induction rows as [|[id row] rows IH]; intros r0; simpl; [eauto|].
  rewrite upsertAt_eq. destruct (decide (k = id)); [|apply IH].
  destruct (IH (mergeRow (Some r0) row)) as (r1 & -> & Hu & Ht & Hc).
  exists r1. simpl in *. auto.
Qed.

Lemma upsertAt_payload (k : string) (rows : list (string * Row)) :
  forall o1 o2,
    k ∈ rows.*1
    \/ (exists a b, o1 = Some a /\ o2 = Some b /\ content a = content b
           /\ embedding a = embedding b /\ metadata a = metadata b) ->
    exists r1 r2,
      fold_left (upsertAt k) rows o1 = Some r1
      /\ fold_left (upsertAt k) rows o2 = Some r2
      /\ content r1 = content r2 /\ embedding r1 = embedding r2
      /\ metadata r1 = metadata r2.
Proof.
  induction rows as [|[id row] rows IH]; intros o1 o2 Hk; simpl.
  - destruct Hk as [Hk|(a & b & -> & -> & ?)]; [inversion Hk|eauto 10].
  - rewrite !upsertAt_eq. destruct (decide (k = id)) as [->|Hne].
    + apply IH. right. exists (mergeRow o1 row), (mergeRow o2 row).
      destruct o1, o2; simpl; auto.
    + apply IH. destruct Hk as [Hk|Hk]; [|auto].
      left. simpl in Hk. apply elem_of_cons in Hk as [?|?]; [contradiction|auto].
Qed.

Lemma upsertAll_last (pre post : list (string * Row)) (id : string)
    (row r1 : Row) (t : gmap string Row) :
  id ∉ post.*1 ->
  t !! id = Some r1 ->
  exists r2,
    upsertAll (pre ++ (id, row) :: post) t !! id = Some r2
    /\ content r2 = content row /\ embedding r2 = embedding row
    /\ metadata r2 = metadata row
    /\ url r2 = url r1 /\ title r2 = title r1
    /\ chunk_index r2 = chunk_index r1.
Proof.
  intros Hpost Ht. rewrite lookup_upsertAll, fold_left_app. simpl.
  rewrite upsertAt_eq. destruct (decide (id = id)); [|contradiction].
  rewrite upsertAt_absent by exact Hpost. rewrite Ht.
  destruct (upsertAt_keeps id pre r1) as (r' & -> & Hu & Hti & Hc). simpl.
  eexists. split; [reflexivity|]. simpl. repeat split; assumption || reflexivity.
Qed.

Lemma upsertAll_idempotent (rows : list (string * Row)) (t : gmap string Row) :
  upsertAll rows (upsertAll rows t) = upsertAll rows t.
Proof.
  apply map_eq. intros k. rewrite !lookup_upsertAll.
  destruct (decide (k ∈ rows.*1)) as [Hin|Hout].
  - destruct (upsertAt_payload k rows (t !! k) (t !! k) (or_introl Hin))
      as (r1 & _ & Hr1 & _).
    rewrite Hr1.
    destruct (upsertAt_keeps k rows r1) as (r2 & Hr2 & Hu & Ht & Hc).
    destruct (upsertAt_payload k rows (Some r1) (t !! k) (or_introl Hin))
      as (a & b & Ha & Hb & Hp1 & Hp2 & Hp3).
    rewrite Hr2. f_equal. rewrite Hr2 in Ha. rewrite Hr1 in Hb.
    injection Ha as <-. injection Hb as <-.
    destruct r1, r2; simpl in *; congruence.
  - now rewrite !upsertAt_absent.
Qed.

Lemma dom_upsertAll (rows : list (string * Row)) :
  forall t, dom (upsertAll rows t) = dom t ∪ list_to_set rows.*1.
Proof.
  induction rows as [|[id row] rows IH]; intros t; simpl.
  - now rewrite union_empty_r_L.
  - unfold upsertAll in *. simpl. rewrite IH.
    assert (Hd : dom (insertStmt id row t) = {[id]} ∪ dom t).
    { unfold insertStmt. destruct (t !! id); now rewrite dom_insert_L. }
    rewrite Hd, (comm_L (∪) {[id]} (dom t)). now rewrite <- (assoc_L (∪)).
Qed.

(** *** Compound ids *)

Lemma digits_pretty_N_char (x : N) : isDigit (pretty_N_char x) = true.
Proof. unfold pretty_N_char. repeat case_match; reflexivity. Qed.

Lemma digits_pretty_N_go (x : N) :
  forall s, digits s = true -> digits (pretty_N_go x s) = true.
Proof.
  induction (N.lt_wf_0 x) as [x _ IH]; intros s Hs.
  destruct (decide (x = 0)%N) as [->|Hx]; [now rewrite pretty_N_go_0|].
  rewrite pretty_N_go_step by lia. apply IH.
  - apply N.div_lt; lia.
  - simpl. now rewrite digits_pretty_N_char.
Qed.

Lemma digits_pretty_nat (k : nat) : digits (pretty (Z.of_nat k)) = true.
Proof.
  destruct (Z.of_nat k) as [|p|p] eqn:Hk; [reflexivity| |lia].
  unfold pretty, pretty_Z, pretty, pretty_positive, pretty, pretty_N.
  destruct (decide (N.pos p = 0%N)); [reflexivity|].
  now apply digits_pretty_N_go.
Qed.

Lemma digits_no_underscore (s1 s2 : string) :
  forall s, digits s = true -> s <> s1 +:+ "_" +:+ s2.
Proof.
  induction s1 as [|c s1 IH]; intros s Hs Heq; subst s.
  - discriminate.
  - rewrite string_app_cons in Hs. simpl in Hs.
    apply andb_true_iff in Hs as [_ Hs]. now apply (IH _ Hs).
Qed.

Lemma compound_id_inj (a b da db : string) :
  digits da = true -> digits db = true ->
  a +:+ "_" +:+ da = b +:+ "_" +:+ db -> a = b /\ da = db.
Proof.
  revert b. induction a as [|c a IH]; intros [|c' b] Hda Hdb Heq.
  - now injection Heq.
  - exfalso. rewrite string_app_cons in Heq. injection Heq as _ Heq.
    exact (digits_no_underscore _ _ _ Hda Heq).
  - exfalso. rewrite string_app_cons in Heq. injection Heq as _ Heq.
    exact (digits_no_underscore _ _ _ Hdb (eq_sym Heq)).
  - rewrite !string_app_cons in Heq. injection Heq as -> Heq.
    destruct (IH b Hda Hdb Heq) as [-> ->]. auto.
Qed.

Lemma chunk_id_inj (id1 id2 : string) (k1 k2 : nat) :
  id1 +:+ "_" +:+ pretty (Z.of_nat k1) = id2 +:+ "_" +:+ pretty (Z.of_nat k2) ->
  id1 = id2 /\ k1 = k2.
Proof.
  intros Heq.
  destruct (compound_id_inj _ _ _ _ (digits_pretty_nat k1) (digits_pretty_nat k2) Heq)
    as [-> Hp].
  split; [reflexivity|]. apply (inj pretty) in Hp. lia.
Qed.

Lemma rowsFrom_ids_form (doc : ProcessedDocument) (chunks : list string) :
  forall (i : nat) rows,
    rowsFrom doc i chunks = Some rows ->
    rows.*1 = (fun k => ID (Doc doc) +:+ "_" +:+ pretty (Z.of_nat k))
              <$> seq i (length chunks).
Proof.
  induction chunks as [|chunk rest IH]; intros i rows; simpl.
  - now intros [= <-].
  - unfold chunkRow. destruct (CreateEmbedding _); simpl; [|discriminate].
    destruct (rowsFrom doc (S i) rest) as [rs|] eqn:Hrs; simpl; [|discriminate].
    intros [= <-]. simpl. f_equal. now apply IH.
Qed.

Lemma rowsOf_app (docs1 docs2 : list ProcessedDocument) :
  rowsOf (docs1 ++ docs2)
  = rs1 ← rowsOf docs1; rs2 ← rowsOf docs2; Some (rs1 ++ rs2).
Proof.
  induction docs1 as [|d docs1 IH]; simpl.
  - destruct (rowsOf docs2); reflexivity.
  - destruct (rowsFrom d 0 (Chunks d)) as [rs|]; simpl; [|reflexivity].
    rewrite IH. destruct (rowsOf docs1) as [rs1|]; simpl; [|reflexivity].
    destruct (rowsOf docs2) as [rs2|]; simpl; [|reflexivity].
    now rewrite app_assoc.
Qed.

Lemma rowsOf_ids_in (docs : list ProcessedDocument) :
  forall rows id,
    rowsOf docs = Some rows -> id ∈ rows.*1 ->
    exists d (k : nat),
      d ∈ docs /\ (k < length (Chunks d))%nat
      /\ id = ID (Doc d) +:+ "_" +:+ pretty (Z.of_nat k).
Proof.
  induction docs as [|d rest IH]; intros rows id; simpl.
  - intros [= <-] Hin. inversion Hin.
  - destruct (rowsFrom d 0 (Chunks d)) as [rs|] eqn:Hrs; simpl; [|discriminate].
    destruct (rowsOf rest) as [rss|]; simpl; [|discriminate].
    intros [= <-]. rewrite fmap_app, elem_of_app. intros [Hin|Hin].
    + rewrite (rowsFrom_ids_form _ _ _ _ Hrs) in Hin.
      apply list_elem_of_fmap in Hin as (k & -> & Hk).
      apply elem_of_seq in Hk. exists d, k. split; [left|]. split; [lia|reflexivity].
    + destruct (IH rss id eq_refl Hin) as (d' & k & Hd & Hk & Hid).
      exists d', k. split; [now right|auto].
Qed.

(** X18.  Two rows get the same id only from the same document ID and the
    same chunk index. *)
Theorem row_id_injective (d1 d2 : ProcessedDocument) (k1 k2 : nat)
    (c1 c2 : string) (id : string) (r1 r2 : Row) :
  chunkRow d1 k1 c1 = Some (id, r1) ->
  chunkRow d2 k2 c2 = Some (id, r2) ->
  ID (Doc d1) = ID (Doc d2) /\ k1 = k2.
Proof.
  unfold chunkRow.
  destruct (CreateEmbedding [sanitizeUTF8 c1]); [|discriminate].
  destruct (CreateEmbedding [sanitizeUTF8 c2]); [|discriminate].
  intros [= <- _] [= Heq _]. symmetry in Heq. now apply chunk_id_inj in Heq.
Qed.

Lemma rowsFrom_lookup (doc : ProcessedDocument) (chunks : list string) :
  forall (i : nat) rows (k : nat) chunk,
    rowsFrom doc i chunks = Some rows ->
    chunks !! k = Some chunk ->
    exists r, chunkRow doc (i + k) chunk = Some r /\ r ∈ rows.
Proof.
  induction chunks as [|c rest IH]; intros i rows k chunk; simpl.
  - intros _ Hk. discriminate.
  - destruct (chunkRow doc i c) as [r|] eqn:Hr; simpl; [|discriminate].
    destruct (rowsFrom doc (S i) rest) as [rs|] eqn:Hrs; simpl; [|discriminate].
    intros [= <-]. destruct k as [|k]; simpl.
    + intros [= <-]. exists r. rewrite Nat.add_0_r. split; [exact Hr|left].
    + intros Hk. destruct (IH (S i) rs k chunk Hrs Hk) as (r' & Hr' & Hin).
      exists r'. replace (i + S k)%nat with (S i + k)%nat by lia.
      split; [exact Hr'|now right].
Qed.

Lemma rowsOf_lookup (docs : list ProcessedDocument) :
  forall rows d (k : nat) chunk,
    rowsOf docs = Some rows ->
    d ∈ docs -> Chunks d !! k = Some chunk ->
    exists r, chunkRow d k chunk = Some r /\ r ∈ rows.
Proof.
  induction docs as [|d0 rest IH]; intros rows d k chunk; simpl.
  - intros _ Hd. inversion Hd.
  - destruct (rowsFrom d0 0 (Chunks d0)) as [rs|] eqn:Hrs; simpl; [|discriminate].
    destruct (rowsOf rest) as [rss|] eqn:Hrss; simpl; [|discriminate].
    intros [= <-] Hd Hk. apply elem_of_cons in Hd as [->|Hd].
    + destruct (rowsFrom_lookup _ _ _ _ _ _ Hrs Hk) as (r & Hr & Hin).
      exists r. split; [exact Hr|]. apply elem_of_app. now left.
    + destruct (IH rss d k chunk eq_refl Hd Hk) as (r & Hr & Hin).
      exists r. split; [exact Hr|]. apply elem_of_app. now right.
Qed.

Lemma rowsFrom_NoDup (doc : ProcessedDocument) (chunks : list string) (i : nat)
    (rows : list (string * Row)) :
  rowsFrom doc i chunks = Some rows -> NoDup rows.*1.
Proof.
  intros Hrows. rewrite (rowsFrom_ids_form _ _ _ _ Hrows).
  apply NoDup_fmap_2; [|apply NoDup_seq].
  intros k1 k2 Heq. now apply chunk_id_inj in Heq.
Qed.

Lemma rowsOf_NoDup (docs : list ProcessedDocument) :
  forall rows,
    NoDup ((fun d => ID (Doc d)) <$> docs) ->
    rowsOf docs = Some rows -> NoDup rows.*1.
Proof.
  induction docs as [|d rest IH]; intros rows Hnd; simpl.
  - intros [= <-]. constructor.
  - destruct (rowsFrom d 0 (Chunks d)) as [rs|] eqn:Hrs; simpl; [|discriminate].
    destruct (rowsOf rest) as [rss|] eqn:Hrss; simpl; [|discriminate].
    intros [= <-]. simpl in Hnd. apply NoDup_cons in Hnd as [Hd Hnd].
    rewrite fmap_app. apply NoDup_app. split; [|split].
    + exact (rowsFrom_NoDup _ _ _ _ Hrs).
    + intros id Hin1 Hin2.
      rewrite (rowsFrom_ids_form _ _ _ _ Hrs) in Hin1.
      apply list_elem_of_fmap in Hin1 as (k & -> & _).
      destruct (rowsOf_ids_in rest rss _ Hrss Hin2) as (d' & k' & Hd' & _ & Heq).
      apply chunk_id_inj in Heq as [Heq _]. apply Hd.
      rewrite Heq. apply list_elem_of_fmap. now exists d'.
    + now apply IH.
Qed.

Lemma upsertAt_NoDup (k : string) (row : Row) (rows : list (string * Row)) :
  forall o,
    NoDup rows.*1 -> (k, row) ∈ rows ->
    fold_left (upsertAt k) rows o = Some (mergeRow o row).
Proof.
  induction rows as [|[id r] rows IH]; intros o Hnd Hin; simpl.
  - inversion Hin.
  - simpl in Hnd. apply NoDup_cons in Hnd as [Hid Hnd].
    rewrite upsertAt_eq. apply elem_of_cons in Hin as [[= -> ->]|Hin].
    + destruct (decide (id = id)); [|contradiction].
      now rewrite upsertAt_absent.
    + destruct (decide (k = id)) as [->|Hne]; [|now apply IH].
      exfalso. apply Hid. apply list_elem_of_fmap. now exists (id, row).
Qed.

(** X19.  After a successful [Store] of documents with pairwise different
    IDs, every chunk of every document of the batch is in the table under
    [ID_k], with the sanitized chunk as content, its embedding and the
    document's metadata; url, title and chunk index are the document's
    when the id was not in the table before, and the old row's otherwise. *)
Theorem Store_then_lookup (docs : list ProcessedDocument) (db db' : DB) :
  NoDup ((fun d => ID (Doc d)) <$> docs) ->
  Store docs db = (None, db') ->
  forall d (k : nat) chunk,
    d ∈ docs -> Chunks d !! k = Some chunk ->
    let id := ID (Doc d) +:+ "_" +:+ pretty (Z.of_nat k) in
    exists r emb,
      committed db' !! id = Some r
      /\ CreateEmbedding [sanitizeUTF8 chunk] = Ok emb
      /\ content r = sanitizeUTF8 chunk
      /\ embedding r = concat emb
      /\ metadata r = Metadata (Doc d)
      /\ match committed db !! id with
         | Some old =>
             url r = url old /\ title r = title old
             /\ chunk_index r = chunk_index old
         | None =>
             url r = URL (Doc d) /\ title r = sanitizeUTF8 (Title (Doc d))
             /\ chunk_index r = Z.of_nat k
         end.
Proof.
  intros Hnd Hstore d k chunk Hd Hk id.
  destruct (Store_outcome docs db) as (_ & Hok & _).
  rewrite Hstore in Hok. simpl in Hok.
  destruct (Hok eq_refl) as (rows & Hrows & Hc).
  destruct (rowsOf_lookup docs rows d k chunk Hrows Hd Hk) as (r & Hr & Hin).
  unfold chunkRow in Hr.
  destruct (CreateEmbedding [sanitizeUTF8 chunk]) as [emb|] eqn:Hemb; [|discriminate].
  injection Hr as <-. fold id in Hin.
  pose proof (rowsOf_NoDup docs rows Hnd Hrows) as Hnd'.
  rewrite Hc, lookup_upsertAll, (upsertAt_NoDup _ _ _ _ Hnd' Hin).
  eexists. exists emb. split; [reflexivity|]. split; [reflexivity|].
  destruct (committed db !! id); simpl; repeat split; reflexivity.
Qed.

(** X20.  [Store] touches only the ids of its batch, never removes a row,
    and never changes url, title or chunk index of a row that exists. *)
Theorem Store_frame (docs : list ProcessedDocument) (db : DB) :
  let db' := (Store docs db).2 in
  (forall id,
      (forall d (k : nat), d ∈ docs -> (k < length (Chunks d))%nat ->
         id <> ID (Doc d) +:+ "_" +:+ pretty (Z.of_nat k)) ->
      committed db' !! id = committed db !! id)
  /\ (forall id old,
        committed db !! id = Some old ->
        exists r, committed db' !! id = Some r
          /\ url r = url old /\ title r = title old
          /\ chunk_index r = chunk_index old).
Proof.
  destruct (Store_outcome docs db) as (Hfail & Hok & _). cbv zeta in *.
  destruct ((Store docs db).1) as [e|] eqn:He.
  - rewrite Hfail by discriminate. split; [reflexivity|]. eauto.
  - destruct (Hok eq_refl) as (rows & Hrows & ->). split.
    + intros id Hid. rewrite lookup_upsertAll. apply upsertAt_absent.
      intros Hin. destruct (rowsOf_ids_in docs rows id Hrows Hin)
        as (d & k & Hd & Hk & Heq).
      exact (Hid d k Hd Hk Heq).
    + intros id old Hold. rewrite lookup_upsertAll, Hold.
      apply upsertAt_keeps.
Qed.

(** X21.  Documents that share one ID overwrite each other: a batch whose
    documents all have the ID [id0] and at most [n] chunks each adds at
    most [n] rows to the table, whatever the number of documents. *)
Theorem Store_shared_ID (docs : list ProcessedDocument) (db db' : DB)
    (id0 : string) (n : nat) :
  Forall (fun d => ID (Doc d) = id0 /\ (length (Chunks d) <= n)%nat) docs ->
  Store docs db = (None, db') ->
  (size (committed db') <= size (committed db) + n)%nat.
Proof.
  intros Hall Hstore.
  destruct (Store_outcome docs db) as (_ & Hok & _).
  rewrite Hstore in Hok. simpl in Hok.
  destruct (Hok eq_refl) as (rows & Hrows & Hc).
  set (ids := (fun k : nat => id0 +:+ "_" +:+ pretty (Z.of_nat k)) <$> seq 0 n).
  assert (Hsub : dom (committed db') ⊆ dom (committed db) ∪ list_to_set ids).
  { rewrite Hc, dom_upsertAll. apply union_mono_l.
    intros id Hin. apply elem_of_list_to_set in Hin.
    destruct (rowsOf_ids_in docs rows id Hrows Hin) as (d & k & Hd & Hk & ->).
    rewrite Forall_forall in Hall. destruct (Hall d Hd) as [-> Hlen].
    apply elem_of_list_to_set, list_elem_of_fmap. exists k.
    split; [reflexivity|]. apply elem_of_seq. lia. }
  rewrite <- !size_dom. apply subseteq_size in Hsub.
  etransitivity; [exact Hsub|]. rewrite size_union_alt.
  assert (size (list_to_set ids ∖ dom (committed db) : gset string) <= n)%nat.
  { etransitivity; [apply subseteq_size, subseteq_difference_l; reflexivity|].
    rewrite size_list_to_set.
    - unfold ids. now rewrite length_fmap, length_seq.
    - apply NoDup_fmap_2; [|apply NoDup_seq].
      intros k1 k2 Heq. now apply chunk_id_inj in Heq. }
  lia.
Qed.

(** *** What a call leaves in the table *)

Lemma upsertAt_last (k : string) (row : Row) (pre post : list (string * Row))
    (o : option Row) :
  k ∉ post.*1 ->
  fold_left (upsertAt k) (pre ++ (k, row) :: post) o
  = Some (mergeRow (fold_left (upsertAt k) pre o) row).
Proof.
  intros Hpost. rewrite fold_left_app. simpl. rewrite upsertAt_eq.
  destruct (decide (k = k)); [|contradiction]. now apply upsertAt_absent.
Qed.

(** C7, as amended.  [Store] is all-or-nothing.  If it returns an error
    the table is what it was before the call.  It returns [nil] exactly
    when the transaction can be begun, every embedding of the batch is
    computed, every insert is accepted and the commit goes through.  The
    table then has a row under the compound id of every chunk of the
    batch; the row of an id holds the content, embedding and metadata of
    the last chunk of the batch with that id, and is that chunk's row
    when the id is new and occurs once; rows of other ids are untouched.
    Chunks with the same compound id overwrite each other: every chunk
    is in the table when the documents have pairwise different IDs. *)
Theorem Store_all_or_nothing (docs : list ProcessedDocument) (db : DB) :
  let r := Store docs db in
  (r.1 <> None -> committed r.2 = committed db)
  /\ (r.1 = None <->
        Begin_error (committed db) = None
        /\ exists rows, rowsOf docs = Some rows /\ allAccepted rows
             /\ Commit_error (upsertAll rows (committed db)) = None)
  /\ (r.1 = None ->
        (forall d (k : nat) chunk,
           d ∈ docs -> Chunks d !! k = Some chunk ->
           is_Some (committed r.2 !! (ID (Doc d) +:+ "_" +:+ pretty (Z.of_nat k))))
        /\ (exists rows, rowsOf docs = Some rows
             /\ forall pre id row post,
                  rows = pre ++ (id, row) :: post -> id ∉ post.*1 ->
                  exists r',
                    committed r.2 !! id = Some r'
                    /\ content r' = content row /\ embedding r' = embedding row
                    /\ metadata r' = metadata row
                    /\ (committed db !! id = None -> id ∉ pre.*1 -> r' = row))
        /\ (forall id,
              (forall d (k : nat), d ∈ docs -> (k < length (Chunks d))%nat ->
                 id <> ID (Doc d) +:+ "_" +:+ pretty (Z.of_nat k)) ->
              committed r.2 !! id = committed db !! id)
        /\ (NoDup ((fun d => ID (Doc d)) <$> docs) ->
            forall d (k : nat) chunk,
              d ∈ docs -> Chunks d !! k = Some chunk ->
              exists r',
                committed r.2 !! (ID (Doc d) +:+ "_" +:+ pretty (Z.of_nat k))
                = Some r'
                /\ content r' = sanitizeUTF8 chunk)).
Proof.
  destruct (Store_outcome docs db) as (Hfail & Hok & Hiff). cbv zeta in *.
  split; [exact Hfail|]. split; [exact Hiff|].
  intros Hnil. destruct (Hok Hnil) as (rows & Hrows & Hc).
  split; [|split; [|split]].
  - intros d k chunk Hd Hk.
    destruct (rowsOf_lookup docs rows d k chunk Hrows Hd Hk) as ([id row] & Hr & Hin).
    assert (id = ID (Doc d) +:+ "_" +:+ pretty (Z.of_nat k)) as <-.
    { unfold chunkRow in Hr. destruct (CreateEmbedding _); [|discriminate].
      now injection Hr as <- _. }
    apply elem_of_dom. rewrite Hc, dom_upsertAll.
    apply elem_of_union_r, elem_of_list_to_set, list_elem_of_fmap.
    now exists (id, row).
  - exists rows. split; [exact Hrows|].
    intros pre id row post -> Hpost.
    rewrite Hc, lookup_upsertAll, (upsertAt_last _ _ _ _ _ Hpost).
    eexists. split; [reflexivity|].
    destruct (fold_left (upsertAt id) pre (committed db !! id)) as [old|] eqn:Hold;
      simpl; repeat split; try reflexivity.
    + intros Hnone Hpre. rewrite Hnone, upsertAt_absent in Hold by exact Hpre.
      discriminate.
  - intros id Hid. rewrite Hc, lookup_upsertAll. apply upsertAt_absent.
    intros Hin. destruct (rowsOf_ids_in docs rows id Hrows Hin)
      as (d & k & Hd & Hk & Heq).
    exact (Hid d k Hd Hk Heq).
  - intros Hnd d k chunk Hd Hk.
    destruct (rowsOf_lookup docs rows d k chunk Hrows Hd Hk) as (r & Hr & Hin).
    unfold chunkRow in Hr.
    destruct (CreateEmbedding [sanitizeUTF8 chunk]) as [emb|]; [|discriminate].
    injection Hr as <-.
    pose proof (rowsOf_NoDup docs rows Hnd Hrows) as Hnd'.
    rewrite Hc, lookup_upsertAll, (upsertAt_NoDup _ _ _ _ Hnd' Hin).
    eexists. split; [reflexivity|].
    destruct (committed db !! _); reflexivity.
Qed.
End OneBackend.

Lemma rowsFrom_ids (B1 B2 : Backend) (doc : ProcessedDocument) (chunks : list string) :
  forall i rows1 rows2,
    rowsFrom (H0 := B1) doc i chunks = Some rows1 ->
    rowsFrom (H0 := B2) doc i chunks = Some rows2 ->
    rows1.*1 = rows2.*1.
Proof.
  induction chunks as [|chunk rest IH]; intros i rows1 rows2; simpl.
  - now intros [= <-] [= <-].
  - unfold chunkRow.
    destruct (@CreateEmbedding B1 _); simpl; [|discriminate].
    destruct (@CreateEmbedding B2 _); simpl; [|discriminate].
    destruct (rowsFrom (H0 := B1) doc (S i) rest) as [rs1|] eqn:H1; simpl; [|discriminate].
    destruct (rowsFrom (H0 := B2) doc (S i) rest) as [rs2|] eqn:H2; simpl; [|discriminate].
    intros [= <-] [= <-]. simpl. f_equal. exact (IH (S i) rs1 rs2 H1 H2).
Qed.

Lemma rowsOf_ids (B1 B2 : Backend) (docs : list ProcessedDocument) :
  forall rows1 rows2,
    rowsOf (H0 := B1) docs = Some rows1 ->
    rowsOf (H0 := B2) docs = Some rows2 ->
    rows1.*1 = rows2.*1.
Proof.
  induction docs as [|doc rest IH]; intros rows1 rows2; simpl.
  - now intros [= <-] [= <-].
  - destruct (rowsFrom (H0 := B1) doc 0 (Chunks doc)) as [rs1|] eqn:H1; simpl; [|discriminate].
    destruct (rowsFrom (H0 := B2) doc 0 (Chunks doc)) as [rs2|] eqn:H2; simpl; [|discriminate].
    destruct (rowsOf (H0 := B1) rest) as [rss1|] eqn:H3; simpl; [|discriminate].
    destruct (rowsOf (H0 := B2) rest) as [rss2|] eqn:H4; simpl; [|discriminate].
    intros [= <-] [= <-]. rewrite !fmap_app. f_equal.
    + exact (rowsFrom_ids B1 B2 doc (Chunks doc) 0%nat rs1 rs2 H1 H2).
    + exact (IH rss1 rss2 eq_refl eq_refl).
Qed.

(** C8.  Storing the same batch twice (the second time possibly with
    different embeddings) leaves the set of ids in the table, and so its
    size, as the first run left it.  For every id of the batch the second
    run overwrites [content], [embedding] and [metadata] with those of the
    last row of the batch with that id and keeps the rest of the row; with
    the same embeddings the table is unchanged. *)
Theorem Store_twice (B1 B2 : Backend) (docs : list ProcessedDocument)
    (db db1 db2 : DB) :
  Store (H0 := B1) docs db = (None, db1) ->
  Store (H0 := B2) docs db1 = (None, db2) ->
  dom (committed db2) = dom (committed db1)
  /\ size (committed db2) = size (committed db1)
  /\ (exists rows, rowsOf (H0 := B2) docs = Some rows
       /\ forall pre id row post,
            rows = pre ++ (id, row) :: post -> id ∉ post.*1 ->
            exists r1 r2,
              committed db1 !! id = Some r1 /\ committed db2 !! id = Some r2
              /\ content r2 = content row /\ embedding r2 = embedding row
              /\ metadata r2 = metadata row
              /\ url r2 = url r1 /\ title r2 = title r1
              /\ chunk_index r2 = chunk_index r1)
  /\ (B1 = B2 -> committed db2 = committed db1).
Proof.
  intros H1 H2.
  destruct (Store_outcome (H0 := B1) docs db) as (_ & Hok1 & _).
  destruct (Store_outcome (H0 := B2) docs db1) as (_ & Hok2 & _).
  rewrite H1 in Hok1. rewrite H2 in Hok2. simpl in *.
  destruct (Hok1 eq_refl) as (rows1 & Hrows1 & Hc1).
  destruct (Hok2 eq_refl) as (rows2 & Hrows2 & Hc2).
  pose proof (rowsOf_ids B1 B2 docs _ _ Hrows1 Hrows2) as Hids.
  assert (Hdom : dom (committed db2) = dom (committed db1)).
  { rewrite Hc2, dom_upsertAll, Hc1, dom_upsertAll, Hids.
    rewrite <- (assoc_L (∪)). now rewrite (idemp_L (∪)). }
  split; [exact Hdom|]. split; [|split].
  - rewrite <- !size_dom. now rewrite Hdom.
  - exists rows2. split; [exact Hrows2|].
    intros pre id row post Hsplit Hpost.
    assert (Hin : id ∈ dom (committed db1)).
    { rewrite Hc1, dom_upsertAll, Hids, Hsplit, fmap_app. simpl.
      apply elem_of_union_r, elem_of_list_to_set, elem_of_app.
      right. left. }
    apply elem_of_dom in Hin as [r1 Hr1].
    destruct (upsertAll_last pre post id row r1 _ Hpost Hr1)
      as (r2 & Hr2 & Hp).
    exists r1, r2. rewrite Hc2, Hsplit. auto.
  - intros <-. rewrite Hrows1 in Hrows2. injection Hrows2 as <-.
    rewrite Hc2, Hc1. apply upsertAll_idempotent.
Qed.

End StoreFacts.

(** ** Comparisons of floating-point numbers *)

Section FloatFacts.

Lemma SFcompare_antisym (a b : spec_float) :
  SFcompare b a = option_map CompOpp (SFcompare a b).
Proof.
  destruct a as [sa|sa| |sa ma ea], b as [sb|sb| |sb mb eb]; simpl;
    try reflexivity; try (destruct sa; reflexivity); try (destruct sb; reflexivity);
    try (destruct sa, sb; reflexivity).
  destruct sa, sb; simpl; try reflexivity;
    rewrite (Z.compare_antisym ea eb);
    destruct (ea ?= eb); simpl; try reflexivity;
    change (Pos.compare_cont Eq mb ma) with (Pos.compare mb ma);
    change (Pos.compare_cont Eq ma mb) with (Pos.compare ma mb);
    rewrite (Pos.compare_antisym ma mb); destruct (ma ?= mb)%positive; reflexivity.
Qed.

(** A number that is neither at most [lo] nor above [hi] is above [lo]
    and at most [hi], or is not a number. *)
Lemma SF_between (x lo hi : spec_float) :
  SFleb x lo = false -> SFltb hi x = false ->
  lo <> S754_nan -> hi <> S754_nan ->
  x = S754_nan \/ (SFltb lo x = true /\ SFleb x hi = true).
Proof.
  unfold SFleb, SFltb. rewrite (SFcompare_antisym x lo), (SFcompare_antisym x hi).
  intros Hlo Hhi Hnlo Hnhi.
  destruct x as [s|s| |s m e]; [right|right|now left|right];
    (split;
     [ destruct (SFcompare _ lo) as [[| |]|] eqn:E; simpl in *;
       try reflexivity; try discriminate;
       destruct lo; try discriminate; try contradiction; destruct s; discriminate
     | destruct (SFcompare _ hi) as [[| |]|] eqn:E; simpl in *;
       try reflexivity; try discriminate;
       destruct hi; try discriminate; try contradiction; destruct s; discriminate ]).
Qed.

End FloatFacts.

(** ** The chat engine *)

Section LlmFacts.
Import Strings models llm.

Lemma collectSources_spec (docs : list Document) :
  forall (seen : gmap string bool) (sources : list string),
    (forall u, default false (seen !! u) = true <-> u ∈ sources) ->
    NoDup sources ->
    let out := collectSources docs seen sources in
    NoDup out
    /\ (forall u, u ∈ out <-> u ∈ sources \/ u ∈ URL <$> docs)
    /\ exists added, out = sources ++ added /\ sublist added (URL <$> docs).
Proof.
  induction docs as [|doc rest IH]; intros seen sources Hseen Hnd; simpl.
  - split; [exact Hnd|]. split.
    + intros u. split; [auto|]. intros [?|Hu]; [auto|inversion Hu].
    + exists []. now rewrite app_nil_r.
  - destruct (default false (seen !! URL doc)) eqn:Hs; simpl.
    + destruct (IH seen sources Hseen Hnd) as (Hn & Hin & added & Hout & Hsub).
      split; [exact Hn|]. split.
      * intros u. rewrite Hin, elem_of_cons. split; [tauto|].
        intros [?|[->|?]]; auto. left. now apply Hseen.
      * exists added. split; [exact Hout|]. now apply sublist_cons.
    + assert (Hfresh : URL doc ∉ sources).
      { intros Hin. apply Hseen in Hin. congruence. }
      destruct (IH (<[URL doc := true]> seen) (sources ++ [URL doc]))
        as (Hn & Hin & added & Hout & Hsub).
      * intros u. rewrite elem_of_app, list_elem_of_singleton.
        destruct (decide (u = URL doc)) as [->|Hne].
        -- rewrite lookup_insert_eq. simpl. tauto.
        -- rewrite lookup_insert_ne by congruence. rewrite Hseen. tauto.
      * apply NoDup_app. split; [exact Hnd|]. split; [|apply NoDup_singleton].
        intros u Hu Hu'. apply list_elem_of_singleton in Hu' as ->. contradiction.
      * split; [exact Hn|]. split.
        -- intros u. rewrite Hin, elem_of_app, list_elem_of_singleton, elem_of_cons.
           tauto.
        -- exists (URL doc :: added). split.
           ++ rewrite Hout, <- app_assoc. reflexivity.
           ++ now apply sublist_skip.
Qed.

Lemma seen_step (seen : gmap string bool) (sources : list string) (x : string) :
  (forall u, default false (seen !! u) = true <-> u ∈ sources) ->
  NoDup sources ->
  default false (seen !! x) = false ->
  (forall u, default false (<[x := true]> seen !! u) = true <-> u ∈ sources ++ [x])
  /\ NoDup (sources ++ [x]).
Proof.
  intros Hseen Hnd Hx.
  assert (Hfresh : x ∉ sources).
  { intros Hin. apply Hseen in Hin. congruence. }
  split.
  - intros u. rewrite elem_of_app, list_elem_of_singleton.
    destruct (decide (u = x)) as [->|Hne].
    + rewrite lookup_insert_eq. simpl. tauto.
    + rewrite lookup_insert_ne by congruence. rewrite Hseen. tauto.
  - apply NoDup_app. split; [exact Hnd|]. split; [|apply NoDup_singleton].
    intros u Hu Hu'. apply list_elem_of_singleton in Hu' as ->. contradiction.
Qed.

Lemma collectSources_order (docs : list Document) :
  forall (seen : gmap string bool) (sources : list string),
    (forall u, default false (seen !! u) = true <-> u ∈ sources) ->
    NoDup sources ->
    forall pre v post,
      URL <$> docs = pre ++ v :: post -> v ∉ pre -> v ∉ sources ->
      exists s1 s2,
        collectSources docs seen sources = sources ++ s1 ++ v :: s2
        /\ forall u, u ∈ s1 -> u ∈ pre.
Proof.
  induction docs as [|doc rest IH];
    intros seen sources Hseen Hnd pre v post Hsplit Hpre Hv.
  - destruct pre; discriminate.
  - simpl in Hsplit. destruct pre as [|x pre'].
    + injection Hsplit as Hx Hrest. subst v. cbn [collectSources].
      assert (Hs : default false (seen !! URL doc) = false).
      { destruct (default false (seen !! URL doc)) eqn:E; [|reflexivity].
        apply Hseen in E. contradiction. }
      rewrite Hs. cbn [negb].
      destruct (seen_step _ _ _ Hseen Hnd Hs) as [Hseen' Hnd'].
      destruct (collectSources_spec rest _ _ Hseen' Hnd') as (_ & _ & added & Hout & _).
      exists [], added. split; [|intros u Hu; inversion Hu].
      cbn [app]. rewrite Hout, <- app_assoc. reflexivity.
    + injection Hsplit as Hx Hrest. subst x.
      apply not_elem_of_cons in Hpre as [Hne Hpre']. cbn [collectSources].
      destruct (default false (seen !! URL doc)) eqn:Hs; cbn [negb].
      * destruct (IH seen sources Hseen Hnd pre' v post Hrest Hpre' Hv)
          as (s1 & s2 & Hout & Hsub).
        exists s1, s2. split; [exact Hout|]. intros u Hu. right. auto.
      * destruct (seen_step _ _ _ Hseen Hnd Hs) as [Hseen' Hnd'].
        destruct (IH _ _ Hseen' Hnd' pre' v post Hrest Hpre')
          as (s1 & s2 & Hout & Hsub).
        { rewrite elem_of_app, list_elem_of_singleton. tauto. }
        exists (URL doc :: s1), s2. split.
        -- rewrite Hout, <- app_assoc. reflexivity.
        -- intros u Hu. apply elem_of_cons in Hu as [->|Hu]; [left|right; auto].
Qed.

(** X10.  [formatSources] lists every address of the documents exactly
    once, in the order of first occurrence: an address stands after
    those, and only those, that occur in the documents before its first
    occurrence.  The addresses are written one per line under the
    heading; for no documents the result is the empty string. *)
Theorem formatSources_lists_each_address_once (docs : list Document) :
  exists sources,
    NoDup sources
    /\ (forall u, u ∈ sources <-> u ∈ URL <$> docs)
    /\ sublist sources (URL <$> docs)
    /\ (forall pre v post,
          URL <$> docs = pre ++ v :: post -> v ∉ pre ->
          exists s1 s2, sources = s1 ++ v :: s2 /\ forall u, u ∈ s1 -> u ∈ pre)
    /\ formatSources docs
       = match docs with
         | [] => ""
         | _ => nl +:+ "Sources:" +:+ nl +:+ Join sources nl
         end.
Proof.
  assert (Hempty : forall u, default false ((∅ : gmap string bool) !! u) = true
                             <-> u ∈ ([] : list string)).
  { intros u. rewrite lookup_empty. simpl. split; [discriminate|].
    intros Hu; inversion Hu. }
  destruct (collectSources_spec docs ∅ [] Hempty ltac:(constructor))
    as (Hn & Hin & added & Hout & Hsub).
  simpl in Hout. exists (collectSources docs ∅ []).
  split; [exact Hn|]. split.
  { intros u. rewrite Hin. split; [|auto]. intros [Hu|?]; [inversion Hu|auto]. }
  split; [now rewrite Hout|]. split.
  { intros pre v post Hsplit Hpre.
    destruct (collectSources_order docs ∅ [] Hempty ltac:(constructor)
                pre v post Hsplit Hpre) as (s1 & s2 & Hord & Hs1).
    { intros Hv; inversion Hv. }
    exists s1, s2. split; [exact Hord|exact Hs1]. }
  unfold formatSources. destruct docs as [|d rest]; [reflexivity|].
  destruct (collectSources (d :: rest) ∅ []) as [|x l] eqn:E; [|reflexivity].
  exfalso. assert (Hd : URL d ∈ ([] : list string)).
  { apply Hin. right. simpl. left. }
  inversion Hd.
Qed.

Section WithOllama.
Context `{Ollama}.

(** X9.  [ChatStream] never returns an error: a failure of the model and
    a missing response are sent on the channel as the only chunk,
    beginning with [Error: ].  No chunk sent is empty. *)
Theorem ChatStream_reports_in_band (ce : ChatEngine) (query : string)
    (docs : list Document) :
  let r := ChatStream ce query docs in
  let answer := GenerateContent (llm ce)
                  [ {| Role := ChatMessageTypeSystem;
                       Text := SystemTemplate (config ce) |};
                    {| Role := ChatMessageTypeHuman; Text := query |};
                    {| Role := ChatMessageTypeHuman; Text := contextOf docs |} ] in
  r.2 = None
  /\ Forall (fun chunk => chunk <> "") r.1
  /\ (forall err, answer.2 = Some err -> r.1 = ["Error: " +:+ err])
  /\ (answer = (None, None) -> r.1 = ["Error: No response from LLM"]).
Proof.
  cbv zeta. unfold ChatStream. cbv zeta.
  match goal with |- context [GenerateContent ?l ?c] =>
    destruct (GenerateContent l c) as [resp err] end.
  simpl. split; [reflexivity|]. split; [|split].
  - destruct err as [e|]; simpl.
    + constructor; [|constructor]. discriminate.
    + destruct resp as [stream|]; [|constructor; [discriminate|constructor]].
      induction (Choices stream) as [|c cs IH]; simpl; [constructor|].
      destruct c as [c|]; simpl; [|exact IH].
      destruct (String.eqb_spec (ChoiceContent c) ""); simpl; [exact IH|].
      constructor; assumption.
  - intros e Herr. now subst err.
  - intros Hnone. injection Hnone as -> ->. reflexivity.
Qed.

(** X8.  An engine is built only from a temperature that is in (0, 1]
    or not a number (which passes both comparisons of the check) and a
    non-negative token limit; it keeps the temperature, has no empty
    model, template or base URL and a positive token limit, and holds
    the model the server returned for its model name and base URL. *)
Theorem NewWithConfig_fills_defaults (c : ChatConfig) (ce : ChatEngine) :
  NewWithConfig c = Ok ce ->
  (Temperature c = S754_nan
   \/ (SFltb (f64 0 0) (Temperature c) = true
       /\ SFleb (Temperature c) (f64 1 0) = true))
  /\ 0 <= MaxTokens c
  /\ Temperature (config ce) = Temperature c
  /\ Model (config ce) <> "" /\ 0 < MaxTokens (config ce)
  /\ SystemTemplate (config ce) <> "" /\ ContextTemplate (config ce) <> ""
  /\ BaseURL (config ce) <> ""
  /\ ollama_New (Model (config ce)) (BaseURL (config ce)) = Ok (llm ce).
Proof.
  unfold NewWithConfig.
  destruct (SFleb (Temperature c) (f64 0 0)) eqn:Hle; [discriminate|].
  destruct (SFltb (f64 1 0) (Temperature c)) eqn:Hlt; [discriminate|].
  cbn [orb]. destruct (Z.ltb_spec (MaxTokens c) 0); [discriminate|].
  match goal with |- context [ollama_New ?m ?b] =>
    destruct (ollama_New m b) as [l|] eqn:Hnew end; [|discriminate].
  intros [= <-]. simpl.
  split; [apply SF_between; [exact Hle|exact Hlt|discriminate|discriminate]|].
  split; [assumption|]. split; [reflexivity|].
  repeat split.
  - destruct (String.eqb_spec (Model c) ""); [discriminate|assumption].
  - destruct (Z.eqb_spec (MaxTokens c) 0); lia.
  - destruct (String.eqb_spec (SystemTemplate c) ""); [discriminate|assumption].
  - destruct (String.eqb_spec (ContextTemplate c) ""); [discriminate|assumption].
  - destruct (String.eqb_spec (BaseURL c) ""); [discriminate|assumption].
  - exact Hnew.
Qed.

(** X7.  The validator and the chat engine disagree on the temperature:
    a temperature of 0, or above 1 and up to 2, passes the temperature
    check of [Validate] and is refused by [NewWithConfig]. *)
Theorem validated_temperature_refused `{url.Lib} (c : config.Config)
    (cc : ChatConfig) :
  Temperature cc = config.Temperature (config.LLM c) ->
  SFltb (Temperature cc) (f64 0 0) = false ->
  SFltb (f64 2 0) (Temperature cc) = false ->
  SFeqb (Temperature cc) (f64 0 0) = true \/ SFltb (f64 1 0) (Temperature cc) = true ->
  ~ config.temperatureError ∈ config.Validate c
  /\ NewWithConfig cc = Err "temperature must be between 0 and 1".
Proof.
  intros Ht Hlo Hhi Hbad. split.
  - rewrite Validate_temperature, <- Ht, Hlo, Hhi. discriminate.
  - unfold NewWithConfig.
    assert (Hc : SFleb (Temperature cc) (f64 0 0) || SFltb (f64 1 0) (Temperature cc)
                 = true).
    { destruct Hbad as [Heq|Hgt]; [|rewrite Hgt; apply orb_true_r].
      unfold SFeqb in Heq. unfold SFleb.
      destruct (SFcompare (Temperature cc) (f64 0 0)) as [[| |]|]; try discriminate.
      reflexivity. }
    now rewrite Hc.
Qed.

End WithOllama.
End LlmFacts.

(** ** The command-line program *)

Section MainFacts.
Import Strings models store main.
Context `{Unicode} `{Backend}.

Lemma processLoop_acc (p : processor.Processor) (docs : list Document) :
  forall acc,
    processor.processLoop p docs acc
    = (fun r => acc ++ r) <$> processor.processLoop p docs [].
Proof.
  induction docs as [|d rest IH]; intros acc; simpl.
  - now rewrite app_nil_r.
  - destruct (processor.splitIntoChunks p _) as [chunks|]; simpl; [|reflexivity].
    rewrite IH. rewrite (IH [_]).
    destruct (processor.processLoop p rest []) as [r|]; simpl; [|reflexivity].
    now rewrite <- app_assoc.
Qed.

Lemma processEach_acc (p : processor.Processor) (docs : list Document) :
  forall acc,
    processEach p docs acc
    = r ← processor.processLoop p docs []; Some (acc ++ r, None).
Proof.
  induction docs as [|d rest IH]; intros acc; simpl.
  - now rewrite app_nil_r.
  - unfold processor.Process. simpl.
    destruct (processor.splitIntoChunks p _) as [chunks|]; simpl; [|reflexivity].
    rewrite IH. rewrite (processLoop_acc p rest [_]).
    destruct (processor.processLoop p rest []) as [r|]; simpl; [|reflexivity].
    now rewrite <- app_assoc.
Qed.

Lemma processEach_total (p : processor.Processor) (docs : list Document) :
  exists processed,
    processEach p docs [] = Some (processed, None)
    /\ Doc <$> processed = docs.
Proof.
  rewrite processEach_acc.
  destruct (processLoop_total p docs []) as (processed & Hrun & Hdocs).
  exists processed. rewrite Hrun. split; [reflexivity|exact Hdocs].
Qed.

(** X13.  Processing the documents one by one, as [run] does, gives what one
    call of [Process] on the whole list gives: one processed document per
    document, in order, each carrying its document unchanged, and no
    error. *)
Theorem processEach_is_Process (p : processor.Processor) (docs : list Document) :
  processEach p docs [] = processor.Process p docs
  /\ exists processed,
       processEach p docs [] = Some (processed, None)
       /\ Doc <$> processed = docs.
Proof.
  rewrite processEach_acc. unfold processor.Process. split; [reflexivity|].
  destruct (processLoop_total p docs []) as (processed & Hrun & Hdocs).
  exists processed. rewrite Hrun. split; [reflexivity|exact Hdocs].
Qed.

Lemma slice_batch {A : Type} (l : list A) (i bs : Z) :
  0 <= i < Z.of_nat (length l) -> 0 < bs ->
  slice_list l i (if i + bs >? Z.of_nat (length l)
                  then Z.of_nat (length l) else i + bs)
  = Some (take (Z.to_nat bs) (drop (Z.to_nat i) l)).
Proof.
  intros Hi Hbs. unfold slice_list.
  destruct (i + bs >? Z.of_nat (length l)) eqn:Hend.
  - apply Z.gtb_lt in Hend.
    replace ((0 <=? i) && (i <=? Z.of_nat (length l))
             && (Z.of_nat (length l) <=? Z.of_nat (length l))) with true
      by (symmetry; rewrite !andb_true_iff, !Z.leb_le; lia).
    f_equal. rewrite !take_ge; [reflexivity| |]; rewrite length_drop; lia.
  - rewrite Z.gtb_ltb in Hend. apply Z.ltb_ge in Hend.
    replace ((0 <=? i) && (i <=? i + bs) && (i + bs <=? Z.of_nat (length l)))
      with true by (symmetry; rewrite !andb_true_iff, !Z.leb_le; lia).
    f_equal. f_equal. lia.
Qed.

Lemma storeBatches_spec (bs : Z) (processed : list ProcessedDocument) :
  0 < bs ->
  forall (fuel : nat) (i : Z) (db : DB),
    0 <= i ->
    Z.of_nat (length processed) - i < Z.of_nat fuel ->
    (0 < fuel)%nat ->
    match storeBatches fuel bs processed i db with
    | Done db' =>
        exists rows,
          rowsOf (drop (Z.to_nat i) processed) = Some rows
          /\ committed db' = upsertAll rows (committed db)
    | Failed _ db' =>
        exists (k : nat) rows,
          Z.of_nat k * bs < Z.of_nat (length processed) - i
          /\ rowsOf (take (k * Z.to_nat bs) (drop (Z.to_nat i) processed))
             = Some rows
          /\ committed db' = upsertAll rows (committed db)
    | Panic | OutOfFuel => False
    end.
Proof.
  intros Hbs. induction fuel as [|fuel IH]; intros i db Hi Hfuel Hpos; [lia|].
  simpl. destruct (i <? Z.of_nat (length processed)) eqn:Hlt.
  2:{ apply Z.ltb_ge in Hlt. exists []. rewrite drop_ge by lia. auto. }
  apply Z.ltb_lt in Hlt. rewrite slice_batch by lia.
  set (rest := drop (Z.to_nat i) processed).
  set (batch := take (Z.to_nat bs) rest).
  destruct (Store_outcome batch db) as (Hfail & Hok & _). cbv zeta in Hfail, Hok.
  destruct ((Store batch db).1) as [e|] eqn:He.
  { exists 0%nat, []. simpl. split; [lia|]. split; [reflexivity|].
    apply Hfail. discriminate. }
  destruct (Hok eq_refl) as (rows1 & Hrows1 & Hc1).
  specialize (IH (i + bs) (Store batch db).2 ltac:(lia) ltac:(lia) ltac:(lia)).
  assert (Hdrop : drop (Z.to_nat (i + bs)) processed = drop (Z.to_nat bs) rest).
  { unfold rest. rewrite drop_drop. f_equal. lia. }
  destruct (storeBatches fuel bs processed (i + bs) (Store batch db).2)
    as [db'|err db'| |]; try contradiction.
  - destruct IH as (rows2 & Hrows2 & Hc2). exists (rows1 ++ rows2). split.
    + rewrite <- (take_drop (Z.to_nat bs) rest), rowsOf_app.
      fold batch. rewrite Hrows1. simpl. rewrite <- Hdrop, Hrows2. reflexivity.
    + now rewrite upsertAll_app, <- Hc1.
  - destruct IH as (k & rows2 & Hk & Hrows2 & Hc2).
    exists (S k), (rows1 ++ rows2). split; [lia|]. split.
    + replace (S k * Z.to_nat bs)%nat with (Z.to_nat bs + k * Z.to_nat bs)%nat by lia.
      rewrite <- take_take_drop, rowsOf_app. fold batch. rewrite Hrows1. simpl.
      rewrite <- Hdrop, Hrows2. reflexivity.
    + now rewrite upsertAll_app, <- Hc1.
Qed.

(** X22.  With a positive batch size the batch loop ends after at most one
    iteration per document, without a panic; when it ends without an
    error the table is the old one with the rows of all the documents
    upserted in order, whatever the batch size. *)
Theorem storeBatches_done (bs : Z) (processed : list ProcessedDocument)
    (fuel : nat) (db : DB) :
  0 < bs -> (length processed < fuel)%nat ->
  (exists db', storeBatches fuel bs processed 0 db = Done db'
               \/ exists err, storeBatches fuel bs processed 0 db = Failed err db')
  /\ forall db',
       storeBatches fuel bs processed 0 db = Done db' ->
       exists rows, rowsOf processed = Some rows
                    /\ committed db' = upsertAll rows (committed db).
Proof.
  intros Hbs Hfuel.
  pose proof (storeBatches_spec bs processed Hbs fuel 0 db ltac:(lia) ltac:(lia) ltac:(lia)) as Hs.
  destruct (storeBatches fuel bs processed 0 db) as [db'|err db'| |];
    try contradiction.
  - split; [eauto|]. intros ? [= <-]. exact Hs.
  - split; [eauto|]. discriminate.
Qed.

(** X23.  The batch loop is not all-or-nothing: when a batch fails, the
    batches before it stay committed.  The table is then the old one with
    the rows of the first [k] whole batches upserted, for some [k] that
    leaves at least one document out. *)
Theorem storeBatches_failed (bs : Z) (processed : list ProcessedDocument)
    (fuel : nat) (db db' : DB) (err : string) :
  0 < bs -> (length processed < fuel)%nat ->
  storeBatches fuel bs processed 0 db = Failed err db' ->
  exists (k : nat) rows,
    (k * Z.to_nat bs < length processed)%nat
    /\ rowsOf (take (k * Z.to_nat bs) processed) = Some rows
    /\ committed db' = upsertAll rows (committed db).
Proof.
  intros Hbs Hfuel Hrun.
  pose proof (storeBatches_spec bs processed Hbs fuel 0 db ltac:(lia) ltac:(lia) ltac:(lia)) as Hs.
  rewrite Hrun in Hs. destruct Hs as (k & rows & Hk & Hrows & Hc).
  exists k, rows. split; [|split]; [nia|exact Hrows|exact Hc].
Qed.

(** X24.  A batch size of zero makes the loop run for ever on a non-empty
    list (it stores the empty batch again and again), unless the store
    fails; a negative batch size makes the first slice expression
    panic. *)
Theorem storeBatches_bad_batch_size (bs : Z) (processed : list ProcessedDocument)
    (db : DB) :
  processed <> [] ->
  (bs = 0 ->
     forall fuel db', storeBatches fuel bs processed 0 db <> Done db'
                      /\ storeBatches fuel bs processed 0 db <> Panic)
  /\ (bs < 0 -> forall fuel, storeBatches (S fuel) bs processed 0 db = Panic).
Proof.
  intros Hne. assert (Hlen : 0 < Z.of_nat (length processed)).
  { destruct processed; [contradiction|simpl; lia]. }
  split.
  - intros -> fuel. revert db.
    induction fuel as [|fuel IH]; intros db db'; [split; discriminate|].
    cbn [storeBatches]. apply Z.ltb_lt in Hlen as Hlt. rewrite Hlt.
    rewrite Z.add_0_r.
    replace (0 >? Z.of_nat (length processed)) with false
      by (symmetry; rewrite Z.gtb_ltb; apply Z.ltb_ge; lia).
    unfold slice_list. cbn [Z.leb Z.compare andb].
    replace (0 <=? Z.of_nat (length processed)) with true
      by (symmetry; apply Z.leb_le; lia).
    cbv iota.
    match goal with |- context [(Store ?b db).1] => destruct (Store b db).1 end;
      [split; discriminate|]. apply IH.
  - intros Hneg fuel. simpl.
    apply Z.ltb_lt in Hlen as Hlt. rewrite Hlt.
    replace (0 + bs >? Z.of_nat (length processed)) with false
      by (symmetry; rewrite Z.gtb_ltb; apply Z.ltb_ge; lia).
    unfold slice_list.
    replace (0 <=? 0 + bs) with false by (symmetry; apply Z.leb_gt; lia).
    reflexivity.
Qed.

Lemma storeBatchesSkipping_ends (bs : Z) (processed : list ProcessedDocument) :
  0 < bs ->
  forall (fuel : nat) (i : Z) (db : DB),
    0 <= i ->
    Z.of_nat (length processed) - i < Z.of_nat fuel ->
    (0 < fuel)%nat ->
    exists db', storeBatchesSkipping fuel bs processed i db = Done db'.
Proof.
  intros Hbs. induction fuel as [|fuel IH]; intros i db Hi Hfuel Hpos; [lia|].
  cbn [storeBatchesSkipping].
  destruct (i <? Z.of_nat (length processed)) eqn:Hlt; [|eauto].
  apply Z.ltb_lt in Hlt. rewrite slice_batch by lia. cbv zeta.
  apply IH; lia.
Qed.

Lemma storeBatchesSkipping_agrees (bs : Z) (processed : list ProcessedDocument) :
  forall (fuel : nat) (i : Z) (db db' : DB),
    storeBatches fuel bs processed i db = Done db' ->
    storeBatchesSkipping fuel bs processed i db = Done db'.
Proof.
  induction fuel as [|fuel IH]; intros i db db'; [discriminate|].
  cbn [storeBatches storeBatchesSkipping].
  destruct (i <? Z.of_nat (length processed)); [|auto]. cbv zeta.
  match goal with |- context [slice_list processed i ?e] =>
    destruct (slice_list processed i e) as [batch|] end; [|discriminate].
  destruct (Store batch db).1; [discriminate|]. apply IH.
Qed.

(** X25.  The batch loop of the interactive program never gives up: with a
    positive batch size it ends normally whatever the store answers, a
    failing batch being skipped; and it leaves the table the other loop
    leaves whenever that one ends without an error. *)
Theorem storeBatchesSkipping_never_fails (bs : Z)
    (processed : list ProcessedDocument) (fuel : nat) (db : DB) :
  0 < bs -> (length processed < fuel)%nat ->
  (exists db', storeBatchesSkipping fuel bs processed 0 db = Done db')
  /\ (forall db', storeBatches fuel bs processed 0 db = Done db' ->
                  storeBatchesSkipping fuel bs processed 0 db = Done db').
Proof.
  intros Hbs Hfuel. split.
  - apply storeBatchesSkipping_ends; lia.
  - apply storeBatchesSkipping_agrees.
Qed.

Lemma processLoop_short (p : processor.Processor) (docs : list Document) :
  Forall (fun d =>
            processor.builderBytes
              (processor.splitIntoSentences p (processor.cleanText p (Content d)))
            < processor.MinChunkLength (processor.config p)) docs ->
  processor.processLoop p docs []
  = Some ((fun d => {| Doc := d; Chunks := [] |}) <$> docs).
Proof.
  induction 1 as [|d rest Hd _ IH]; [reflexivity|].
  cbn [processor.processLoop fmap list_fmap].
  rewrite (splitIntoChunks_short p _ Hd). cbn [mbind option_bind].
  rewrite processLoop_acc, IH. reflexivity.
Qed.

Lemma rowsOf_no_chunks (docs : list Document) :
  rowsOf ((fun d => {| Doc := d; Chunks := [] |}) <$> docs) = Some [].
Proof.
  induction docs as [|d rest IH]; [reflexivity|].
  cbn [fmap list_fmap rowsOf Chunks rowsFrom]. cbn [fmap] in IH.
  rewrite IH. reflexivity.
Qed.

(** X29.  Short pages never reach the index, and nothing reports it:
    documents the sentences of whose cleaned text, each counted with the
    space written after it, add up to less than [MinChunkLength] bytes
    are processed without an error into documents without chunks, and
    storing those leaves the table as it was, whether or not the store
    reports an error. *)
Theorem short_pages_are_not_indexed (p : processor.Processor)
    (docs : list Document) (db : DB) :
  Forall (fun d =>
            processor.builderBytes
              (processor.splitIntoSentences p (processor.cleanText p (Content d)))
            < processor.MinChunkLength (processor.config p)) docs ->
  exists processed,
    processor.Process p docs = Some (processed, None)
    /\ Forall (fun pd => Chunks pd = []) processed
    /\ Doc <$> processed = docs
    /\ committed (Store processed db).2 = committed db.
Proof.
  intros Hshort. unfold processor.Process.
  rewrite (processLoop_short p docs Hshort). cbn [mbind option_bind].
  eexists. split; [reflexivity|]. split; [|split].
  - apply Forall_fmap, Forall_forall. reflexivity.
  - rewrite <- list_fmap_compose. apply list_fmap_id.
  - destruct (Store_outcome ((fun d => {| Doc := d; Chunks := [] |}) <$> docs) db)
      as (Hfail & Hok & _). cbv zeta in Hfail, Hok.
    destruct (Store _ db).1 as [e|].
    + apply Hfail. discriminate.
    + destruct (Hok eq_refl) as (rows & Hrows & ->).
      rewrite rowsOf_no_chunks in Hrows. now injection Hrows as <-.
Qed.

End MainFacts.

Section PipelineFacts.
Import Strings models store main.
Context `{Unicode} `{Backend} `{url.Lib} `{scraper.World}.

Lemma Store_dom (docs : list ProcessedDocument) (db : DB) (id : string) :
  id ∈ dom (committed (Store docs db).2) ->
  id ∈ dom (committed db)
  \/ exists d (k : nat),
       d ∈ docs /\ (k < length (Chunks d))%nat
       /\ id = ID (Doc d) +:+ "_" +:+ pretty (Z.of_nat k).
Proof.
  destruct (Store_outcome docs db) as (Hfail & Hok & _). cbv zeta in *.
  destruct ((Store docs db).1) as [e|] eqn:He.
  - rewrite Hfail by discriminate. auto.
  - destruct (Hok eq_refl) as (rows & Hrows & ->).
    rewrite dom_upsertAll, elem_of_union, elem_of_list_to_set.
    intros [Hin|Hin]; [now left|right].
    exact (rowsOf_ids_in docs rows id Hrows Hin).
Qed.

Lemma slice_list_elem_of {A : Type} (l batch : list A) (lo hi : Z) (x : A) :
  slice_list l lo hi = Some batch -> x ∈ batch -> x ∈ l.
Proof.
  unfold slice_list. destruct (_ && _); [|discriminate].
  intros [= <-] Hin.
  apply elem_of_take in Hin as (i & Hi & _).
  rewrite lookup_drop in Hi. eapply list_elem_of_lookup_2, Hi.
Qed.

Lemma storeBatches_dom (bs : Z) (processed : list ProcessedDocument) (id : string) :
  forall (fuel : nat) (i : Z) (db : DB),
    match storeBatches fuel bs processed i db with
    | Done db' | Failed _ db' =>
        id ∈ dom (committed db') ->
        id ∈ dom (committed db)
        \/ exists d (k : nat),
             d ∈ processed /\ (k < length (Chunks d))%nat
             /\ id = ID (Doc d) +:+ "_" +:+ pretty (Z.of_nat k)
    | Panic | OutOfFuel => True
    end.
Proof.
  induction fuel as [|fuel IH]; intros i db; [exact I|].
  cbn [storeBatches]. destruct (i <? _); [|auto]. cbv zeta.
  match goal with |- context [slice_list processed i ?e] =>
    destruct (slice_list processed i e) as [batch|] eqn:Hb end; [|exact I].
  assert (Hstep : id ∈ dom (committed (Store batch db).2) ->
            id ∈ dom (committed db)
            \/ exists d (k : nat),
                 d ∈ processed /\ (k < length (Chunks d))%nat
                 /\ id = ID (Doc d) +:+ "_" +:+ pretty (Z.of_nat k)).
  { intros Hin. destruct (Store_dom batch db id Hin) as [?|(d & k & Hd & Hk)]; [now left|].
    right. exists d, k. split; [|exact Hk]. eapply slice_list_elem_of; eauto. }
  destruct ((Store batch db).1); [exact Hstep|].
  specialize (IH (i + bs) (Store batch db).2).
  destruct (storeBatches fuel bs processed (i + bs) (Store batch db).2); auto;
    intros Hin; destruct (IH Hin); auto.
Qed.

(** X26.  The pages of a crawl reach the store without an [ID], so every
    row the pipeline adds has an id of the form [_k], [k] a chunk index:
    the chunks of different pages share their ids. *)
Theorem ingest_ids (fuel : nat) (c : Config) (st : scraper.State) (db : DB) :
  match ingest fuel c st db with
  | Done (_, db') | Failed _ (_, db') =>
      forall id, id ∈ dom (committed db') ->
        id ∈ dom (committed db)
        \/ exists k : nat, id = "_" +:+ pretty (Z.of_nat k)
  | Panic | OutOfFuel => True
  end.
Proof.
  unfold ingest. destruct (String.eqb (DocsURL c) ""); [auto|].
  destruct (scraper.Scrape (DocsURL c) st) as [[[docs [e|]] st']|] eqn:Hscrape;
    [auto| |exact I].
  destruct (processEach_total (runProcessor c) docs) as (processed & Hp & Hdocs).
  rewrite Hp.
  destruct (Scrape_log _ _ _ _ _ Hscrape)
    as (_ & _ & nd & _ & _ & _ & _ & _ & _ & Hd & Hids).
  simpl in Hd. subst nd.
  assert (Hid : forall d, d ∈ processed -> ID (Doc d) = "").
  { intros d Hin. rewrite Forall_forall in Hids. apply Hids.
    rewrite <- Hdocs. apply list_elem_of_fmap. now exists d. }
  pose proof (fun id => storeBatches_dom (BatchSize c) processed id fuel 0 db) as Hs.
  destruct (storeBatches fuel (BatchSize c) processed 0 db); auto;
    intros id Hin; destruct (Hs id Hin) as [?|(d & k & Hdin & _ & ->)]; auto;
    right; exists k; now rewrite (Hid d Hdin).
Qed.

(** X27.  With a positive batch size and a limiter that lets every
    caller through, the pipeline ends, with or without an error, but
    without a panic, whatever the site and the database answer. *)
Theorem ingest_total (c : Config) (st : scraper.State) (db : DB) :
  0 < BatchSize c ->
  scraper.limiterReturns (scraper.self st) ->
  exists fuel0 : nat, forall fuel, (fuel0 <= fuel)%nat ->
    exists r, ingest fuel c st db = Done r
              \/ exists err, ingest fuel c st db = Failed err r.
Proof.
  intros Hbs Hret. unfold ingest. destruct (String.eqb (DocsURL c) "").
  { exists 0%nat. intros fuel _. eauto. }
  destruct (Scrape_returns (DocsURL c) st Hret) as [[[docs [e|]] st'] ->].
  { exists 0%nat. intros fuel _. eauto. }
  destruct (processEach_total (runProcessor c) docs) as (processed & Hp & _).
  rewrite Hp. exists (S (length processed)). intros fuel Hfuel.
  pose proof (storeBatches_spec (BatchSize c) processed Hbs fuel 0 db
                ltac:(lia) ltac:(lia) ltac:(lia)) as Hs.
  destruct (storeBatches fuel (BatchSize c) processed 0 db);
    try contradiction; eauto.
Qed.


End PipelineFacts.

(** ** Concrete runs *)

Import Strings models sample.

(** *** The chunker *)

(** C2, counterexample.  With [chunkSize = 10], [chunkOverlap = 4] and
    [minChunkLength = 1] the text below is split into three chunks.  The
    first one, ["ab. "], is exactly 4 bytes long, so its last 4 bytes are
    the chunk itself; the second chunk does not begin with them, because
    the builder is seeded only from a chunk longer than the overlap. *)
Lemma overlap_missing_at_exact_length :
  let p := processor.NewWithConfig (chunkerConfig 10 4 1) in
  processor.splitIntoChunks p "ab. defghijk. lmnopqrs."
  = Some ["ab. "; "defghijk. "; "jk. lmnopqrs."]
  /\ processor.ChunkOverlap (processor.config p) = 4
  /\ len "ab. " >= 4
  /\ processor.overlapSeed 4 "ab. " = "ab. "
  /\ HasPrefix "defghijk. " (processor.overlapSeed 4 "ab. ") = false.
Proof. vm_compute. repeat split; congruence. Qed.

(** The chunk added after the loop is trimmed: with an overlap of 1 the
    seed is the space that ends the first chunk, and the second chunk is
    emitted without it. *)
Example overlap_trimmed_in_last_chunk :
  let p := processor.NewWithConfig (chunkerConfig 10 1 1) in
  processor.splitIntoChunks p "abcdefgh. ijklmn." = Some ["abcdefgh. "; "ijklmn."]
  /\ processor.overlapSeed 1 "abcdefgh. " = " "
  /\ HasPrefix "ijklmn." " " = false
  /\ HasPrefix " ijklmn. " " " = true
  /\ TrimSpace " ijklmn. " = "ijklmn.".
Proof. vm_compute. repeat split; reflexivity. Qed.

(** A closed chunk below the minimum length is dropped but still seeds
    its successor: with [minChunkLength = 20 > 2 + 1] the chunk ["! bb. "]
    that lies between the two emitted chunks is dropped, and the second
    emitted chunk begins with the seed [". "] of the dropped one, not with
    the seed ["! "] of the first. *)
Example overlap_lost_after_dropped_chunk :
  let p := processor.NewWithConfig (chunkerConfig 25 2 20) in
  processor.splitIntoChunks p
    "aaaaaaaaaaaaaaaaaaaaa! bb. ccccccccccccccccccccccc. d."
  = Some ["aaaaaaaaaaaaaaaaaaaaa! "; ". ccccccccccccccccccccccc. "]
  /\ processor.overlapSeed 2 "aaaaaaaaaaaaaaaaaaaaa! " = "! "
  /\ HasPrefix ". ccccccccccccccccccccccc. " "! " = false.
Proof. vm_compute. repeat split; reflexivity. Qed.

(** C2, witness: the second and third chunk of the same run. *)
Lemma overlap_carried_forward_witness :
  exists raw,
    HasPrefix raw (processor.overlapSeed 4 "defghijk. ") = true
    /\ ("jk. lmnopqrs." = raw
        \/ (3%nat = length ["ab. "; "defghijk. "; "jk. lmnopqrs."]
            /\ "jk. lmnopqrs." = TrimSpace raw)).
Proof.
  apply (overlap_carried_forward
           (processor.NewWithConfig (chunkerConfig 10 4 1))
           "ab. defghijk. lmnopqrs."
           ["ab. "; "defghijk. "; "jk. lmnopqrs."] 1 "defghijk. " "jk. lmnopqrs.").
  - reflexivity.
  - vm_compute. discriminate.
  - vm_compute. reflexivity.
  - reflexivity.
  - reflexivity.
  - reflexivity.
Defined.

(** C3, failing input.  With the configuration of the package's test
    ([chunkSize = 50], [chunkOverlap = 10], [minChunkLength = 20]) a text
    of 19 bytes fills the builder with 20 bytes, its trailing space
    included; the length test passes and the chunk emitted, trimmed, is 19
    bytes long: shorter than the minimum.  [Process] returns it for a
    document with that text. *)
Lemma final_chunk_below_minimum :
  let p := processor.NewWithConfig (chunkerConfig 50 10 20) in
  processor.splitIntoChunks p "nineteen characters" = Some ["nineteen characters"]
  /\ len "nineteen characters" = 19
  /\ processor.MinChunkLength (processor.config p) = 20
  /\ processor.Process p [shortDocument]
     = Some ([{| Doc := shortDocument; Chunks := ["nineteen characters"] |}], None).
Proof. vm_compute. repeat split; reflexivity. Qed.

(** C4, counterexample.  An overlap above the chunk size and a negative
    minimum length violate every constraint of the specification, and the
    constructor returns a processor that holds them and chunks text. *)
Lemma NewWithConfig_accepts_invalid_config :
  let c := chunkerConfig 10 20 (-1) in
  processor.specValid c = false
  /\ processor.NewWithConfig c = {| processor.config := c |}
  /\ processor.splitIntoChunks (processor.NewWithConfig c) "One. Two. Three."
     = Some ["One. Two. "; "Three."].
Proof. vm_compute. repeat split; reflexivity. Qed.

(** X11, witness: the second of the three chunks of the run above, 10
    bytes long with sentences of at most 9 bytes, a chunk size of 10 and
    an overlap of 4. *)
Lemma chunk_length_bound_witness :
  len "defghijk. " <= Z.max 10 (Z.max 0 4 + 9) + 1.
Proof.
  apply (chunk_length_bound (processor.NewWithConfig (chunkerConfig 10 4 1))
           "ab. defghijk. lmnopqrs." 9
           ["ab. "; "defghijk. "; "jk. lmnopqrs."] ltac:(vm_compute; repeat constructor; discriminate)
           ltac:(vm_compute; reflexivity) 1%nat).
  - reflexivity.
  - simpl. lia.
Defined.

(** X12, witness: the short page under the default configuration, whose
    minimum is 100 bytes. *)
Lemma short_text_gives_no_chunk_witness :
  processor.splitIntoChunks (processor.NewWithConfig (chunkerConfig 0 0 0))
    "nineteen characters" = Some [].
Proof.
  apply short_text_gives_no_chunk. vm_compute. reflexivity.
Defined.

(** *** The crawler *)

(** C5, counterexample.  A rate limit of 0 is [<= 0], and the constructor
    returns a scraper for it, with a limiter of 2 requests per second. *)
Lemma NewWithConfig_accepts_zero_rate :
  SFleb (scraper.RateLimit (scraperConfig [])) (f64 0 0) = true
  /\ exists s, scraper.NewWithConfig (scraperConfig []) = Ok s
               /\ scraper.limiter s
                  = {| scraper.limit := f64 2 0; scraper.burst := 1 |}.
Proof.
  split; [reflexivity|]. eexists. split; vm_compute; reflexivity.
Qed.

(** C5, witness: the same configuration, and the sample configuration file
    content. *)
Lemma scraper_construction_defaults_zero_rate_witness :
  ((exists s, scraper.NewWithConfig (scraperConfig []) = Ok s)
   <-> (exists base, url.Parse (scraper.BaseURL (scraperConfig [])) = Ok base))
  /\ (forall s, scraper.NewWithConfig (scraperConfig []) = Ok s ->
        scraper.limiter s = {| scraper.limit := f64 2 0; scraper.burst := 1 |}
        /\ scraper.RateLimit (scraper.config s) = (f64 2 0))
  /\ (config.rateLimitError ∈ config.Validate sampleConfig
      <-> SFleb (config.RateLimit (config.Scraper sampleConfig)) (f64 0 0)
          = true).
Proof.
  apply (scraper_construction_defaults_zero_rate (scraperConfig []) sampleConfig).
  reflexivity.
Defined.

(** A negative rate is not rejected either. *)
Example NewWithConfig_negative_rate :
  SFleb (scraper.RateLimit negativeRateConfig) (f64 0 0) = true
  /\ exists s, scraper.NewWithConfig negativeRateConfig = Ok s
               /\ scraper.limit (scraper.limiter s) = (f64 (-1) 0).
Proof.
  split; [reflexivity|]. eexists. split; vm_compute; reflexivity.
Qed.

(** C6, failing input.  With the allowed extensions of the package's test,
    [".html"] and ["/"], the address of a PDF is rejected.  With the empty
    string added to the list, and with the list left unset so that the
    constructor supplies [".html"], [".htm"], ["/"] and the empty string,
    the same address is admitted. *)
Lemma pdf_admitted_with_empty_extension :
  scraper.admits (scraperConfig [".html"; "/"]) "https://example.com/file.pdf" = false
  /\ scraper.admits (scraperConfig [".html"; "/"; ""]) "https://example.com/file.pdf"
     = true
  /\ scraper.admits (scraperConfig []) "https://example.com/file.pdf" = true.
Proof. vm_compute. repeat split; reflexivity. Qed.



(** C9, counterexample.  The first crawl of the sample site requests four
    addresses and returns four documents.  The second crawl, on the same
    scraper, starts with these addresses in the visited set, requests
    nothing and returns no document. *)
Lemma second_Scrape_fetches_nothing :
  scraper.NewWithConfig (scraperConfig []) = Ok siteScraper
  /\ scraper.visited siteScraper = ∅
  /\ (exists docs,
        scraper.Scrape "https://example.com" (scraper.freshState siteScraper)
        = Some (docs, None, afterFirstCrawl)
        /\ URL <$> docs
           = ["https://example.com"; "https://example.com/docs/";
              "https://example.com/docs/page.html"; "https://example.com/file.pdf"])
  /\ scraper.requests afterFirstCrawl
     = ["https://example.com"; "https://example.com/docs/";
        "https://example.com/docs/page.html"; "https://example.com/file.pdf"]
  /\ scraper.isVisited (scraper.self afterFirstCrawl) "https://example.com" = true
  /\ scraper.Scrape "https://example.com" afterFirstCrawl
     = Some ([], None, afterFirstCrawl).
Proof.
  split; [vm_compute; reflexivity|]. split; [vm_compute; reflexivity|].
  split; [eexists; split; vm_compute; reflexivity|].
  repeat split; vm_compute; reflexivity.
Qed.

(** C9, witness: a crawl of the documentation section followed, on the
    same scraper, by a crawl of the whole site; the second one asks for
    the home page and the paper only. *)
Lemma visited_outlives_Scrape_witness :
  scraper.visited siteScraper = ∅
  /\ (forall v, scraper.isVisited (scraper.self (scraper.freshState siteScraper)) v = true ->
                scraper.isVisited (scraper.self afterLaterCrawl) v = true)
  /\ exists new1 new2,
       scraper.gets afterDocsCrawl
       = scraper.gets (scraper.freshState siteScraper) ++ new1
       /\ scraper.gets afterLaterCrawl = scraper.gets afterDocsCrawl ++ new2
       /\ (forall v, v ∈ new2 ->
             scraper.isVisited (scraper.self afterDocsCrawl) v = false)
       /\ forall v, v ∈ new1 ->
            scraper.isVisited (scraper.self afterDocsCrawl) v = true
            /\ scraper.isVisited (scraper.self afterDocsCrawl) v = true
            /\ scraper.isVisited (scraper.self afterLaterCrawl) v = true
            /\ (v ∉ new2)
            /\ (v ∉ URL <$> laterCrawlDocs).
Proof.
  eapply (visited_outlives_Scrape (scraperConfig []) siteScraper
            (scraper.freshState siteScraper) afterDocsCrawl afterDocsCrawl
            afterLaterCrawl "https://example.com/docs/" "https://example.com"
            _ laterCrawlDocs).
  - vm_compute. reflexivity.
  - apply scraper.crawls_refl.
  - vm_compute. reflexivity.
  - apply scraper.crawls_refl.
  - vm_compute. reflexivity.
Defined.


(** X15, witness: the same crawl. *)
Lemma Scrape_progress_witness :
  exists marked new,
    NoDup marked
    /\ Forall (fun v => scraper.shouldProcessURL siteScraper v = true
                        /\ scraper.isVisited siteScraper v = false) marked
    /\ (forall v, scraper.isVisited (scraper.self afterFirstCrawl) v = true
                  <-> scraper.isVisited siteScraper v = true \/ v ∈ marked)
    /\ scraper.progress afterFirstCrawl
       = (if scraper.OnProgress (scraper.config siteScraper)
          then scraper.progress (scraper.freshState siteScraper) ++ marked
          else scraper.progress (scraper.freshState siteScraper))
    /\ scraper.gets afterFirstCrawl
       = scraper.gets (scraper.freshState siteScraper) ++ new
    /\ sublist new marked.
Proof.
  apply (Scrape_progress "https://example.com"
           (scraper.freshState siteScraper) firstCrawlDocs None afterFirstCrawl).
  vm_compute. reflexivity.
Defined.

(** X16, witness: a crawl that starts at a page the site answers with
    status 404. *)
Lemma Scrape_error_witness :
  ([] : list Document) = []
  /\ scraper.isVisited (scraper.self afterMissingPage)
       "https://example.com/missing/" = true
  /\ scraper.Scrape "https://example.com/missing/" afterMissingPage
     = Some ([], None, afterMissingPage).
Proof.
  apply (Scrape_error "https://example.com/missing/"
           (scraper.freshState siteScraper) []
           "received status code 404 for URL: https://example.com/missing/").
  vm_compute. reflexivity.
Defined.

(** X17, witness: the first document of the first crawl. *)
Lemma Scrape_first_document_witness :
  exists d docs,
    firstCrawlDocs = d :: docs
    /\ URL d = "https://example.com"
    /\ Metadata d !! "depth" = Some (VInt 0)
    /\ (None : error) = None
    /\ scraper.shouldProcessURL siteScraper "https://example.com" = true
    /\ scraper.isVisited siteScraper "https://example.com" = false.
Proof.
  eexists. eexists. split; [vm_compute; reflexivity|].
  eapply (Scrape_first_document "https://example.com"
            (scraper.freshState siteScraper)).
  vm_compute. reflexivity.
Defined.

(** *** The vector store *)

(** C7, counterexample.  The two crawled pages have three chunks and,
    having no [ID], the compound ids [_0], [_0] and [_1].  [Store]
    returns [nil], no step having failed, and leaves two rows: the chunk
    of the first page is in none of them, its row was overwritten by the
    first chunk of the second page. *)
Lemma Store_overwrites_shared_id :
  Chunks <$> crawledBatch
  = [["welcome. docs elsewhere paper"]; ["the manual. "; "page docs"]]
  /\ (store.Store crawledBatch emptyDB).1 = None
  /\ size (store.committed (store.Store crawledBatch emptyDB).2) = 2%nat
  /\ map_Forall (fun _ r => store.content r <> "welcome. docs elsewhere paper")
       (store.committed (store.Store crawledBatch emptyDB).2).
Proof.
  split; [reflexivity|]. split; [vm_compute; reflexivity|].
  split; [vm_compute; reflexivity|].
  apply map_Forall_to_list. vm_compute.
  repeat constructor; discriminate.
Qed.

(** C7, witness: the same pages with an [ID] each, stored into the empty
    table: every chunk has its row. *)
Lemma Store_all_or_nothing_witness :
  (store.Store labelledBatch emptyDB).1 = None
  /\ forall d (k : nat) chunk,
       d ∈ labelledBatch -> Chunks d !! k = Some chunk ->
       exists r',
         store.committed (store.Store labelledBatch emptyDB).2
           !! (ID (Doc d) +:+ "_" +:+ pretty (Z.of_nat k)) = Some r'
         /\ store.content r' = store.sanitizeUTF8 chunk.
Proof.
  assert (Hnil : (store.Store labelledBatch emptyDB).1 = None)
    by (vm_compute; reflexivity).
  split; [exact Hnil|].
  pose proof (Store_all_or_nothing labelledBatch emptyDB) as H. cbv zeta in H.
  destruct H as (_ & _ & H). destruct (H Hnil) as (_ & _ & _ & Hall).
  apply Hall. apply (bool_decide_unpack _). vm_compute. exact I.
Defined.

(** C8, witness: the sample batch stored twice into an empty table. *)
Lemma Store_twice_witness :
  dom (store.committed afterSecondStore) = dom (store.committed afterFirstStore)
  /\ size (store.committed afterSecondStore) = size (store.committed afterFirstStore)
  /\ (exists rows, store.rowsOf sampleBatch = Some rows
       /\ forall pre id row post,
            rows = pre ++ (id, row) :: post -> id ∉ post.*1 ->
            exists r1 r2,
              store.committed afterFirstStore !! id = Some r1
              /\ store.committed afterSecondStore !! id = Some r2
              /\ store.content r2 = store.content row
              /\ store.embedding r2 = store.embedding row
              /\ store.metadata r2 = store.metadata row
              /\ store.url r2 = store.url r1 /\ store.title r2 = store.title r1
              /\ store.chunk_index r2 = store.chunk_index r1)
  /\ (sampleBackend = sampleBackend ->
      store.committed afterSecondStore = store.committed afterFirstStore).
Proof.
  apply (Store_twice sampleBackend sampleBackend sampleBatch emptyDB
           afterFirstStore afterSecondStore).
  - vm_compute. reflexivity.
  - vm_compute. reflexivity.
Defined.

(** X18, witness: two texts stored as chunk 1 of the sample document. *)
Lemma row_id_injective_witness :
  ID (Doc docsPage) = ID (Doc docsPage) /\ 1%nat = 1%nat.
Proof.
  eapply (row_id_injective docsPage docsPage 1 1 "page docs" "other text");
    vm_compute; reflexivity.
Defined.

(** X19, witness: the second chunk of the sample document after the
    sample batch has been stored into the empty table. *)
Lemma Store_then_lookup_witness :
  exists r emb,
    store.committed afterFirstStore !! "doc1_1" = Some r
    /\ store.CreateEmbedding [store.sanitizeUTF8 "page docs"] = Ok emb
    /\ store.content r = store.sanitizeUTF8 "page docs"
    /\ store.embedding r = concat emb
    /\ store.metadata r = Metadata (Doc docsPage)
    /\ store.url r = URL (Doc docsPage)
    /\ store.title r = store.sanitizeUTF8 (Title (Doc docsPage))
    /\ store.chunk_index r = 1.
Proof.
  apply (Store_then_lookup sampleBatch emptyDB afterFirstStore
           ltac:(apply NoDup_singleton) ltac:(vm_compute; reflexivity)
           docsPage 1%nat "page docs" ltac:(left) ltac:(reflexivity)).
Defined.

(** X21, witness: the two crawled pages, of one and two chunks, stored
    into the empty table leave two rows. *)
Lemma Store_shared_ID_witness :
  (size (store.committed (store.Store crawledBatch emptyDB).2)
   <= size (store.committed emptyDB) + 2)%nat.
Proof.
  apply (Store_shared_ID crawledBatch emptyDB _ "").
  - repeat constructor.
  - vm_compute. reflexivity.
Defined.

(** *** The loader *)

(** X1, witness: the file [app.yaml] of the sample system. *)
Lemma LoadConfig_applies_defaults_witness :
  config.defaultsApplied
    (config.applyDefaults (config.mergeWithEnv sampleConfig)).
Proof.
  apply (LoadConfig_applies_defaults "app.yaml"). vm_compute. reflexivity.
Defined.

(** X2, witness: the empty file [empty.yaml]. *)
Lemma empty_file_is_no_file_witness :
  config.LoadConfig "empty.yaml" = config.getDefaultConfig.
Proof.
  apply (empty_file_is_no_file "empty.yaml" "").
  - discriminate.
  - reflexivity.
  - reflexivity.
Defined.

(** X4, witness: chunks of 150 bytes. *)
Lemma default_overlap_invalidates_witness :
  ~ config.chunkOverlapError ∈ config.Validate smallChunkConfig
  /\ config.chunkOverlapError
       ∈ config.Validate (config.applyDefaults smallChunkConfig).
Proof.
  apply default_overlap_invalidates.
  - reflexivity.
  - simpl. lia.
Defined.

(** X5, witness: the defaults on the sample system, whose environment
    sets the database URL. *)
Lemma default_configuration_is_valid_witness :
  config.Validate (config.mergeWithEnv (config.applyDefaults config.zeroConfig))
  = [].
Proof.
  apply default_configuration_is_valid.
  - reflexivity.
  - vm_compute. reflexivity.
  - right. vm_compute. reflexivity.
Defined.

(** X6, witness: the sample flags on the sample system. *)
Lemma flags_overridden_without_config_file_witness :
  main.parseFlags sampleFlags ""
  = {| main.BaseURL := "http://localhost:11434";
       main.DBUrl := "postgres://localhost:5432/docs";
       main.DocsURL := "https://example.com";
       main.Model := "mistral";
       main.MaxDepth := 3;
       main.ChunkSize := 1000;
       main.VectorDim := 1536;
       main.TableName := "documents";
       main.BatchSize := 100;
       main.RateLimit := f64 2 0;
       main.MaxTokens := 2000;
       main.Streaming := false;
       main.Temperature := f64_0_7 |}.
Proof.
  exact (flags_overridden_without_config_file sampleFlags
           ltac:(repeat constructor)).
Defined.

(** *** The chat engine *)

(** X7, witness: a temperature of 1.5. *)
Lemma validated_temperature_refused_witness :
  ~ config.temperatureError ∈ config.Validate hotConfig
  /\ llm.NewWithConfig hotChatConfig = Err "temperature must be between 0 and 1".
Proof.
  apply validated_temperature_refused.
  - reflexivity.
  - vm_compute. reflexivity.
  - vm_compute. reflexivity.
  - right. vm_compute. reflexivity.
Defined.

(** X8, witness: the engine built from the sample chat configuration. *)
Lemma NewWithConfig_fills_defaults_witness :
  exists ce,
    llm.NewWithConfig sampleChatConfig = Ok ce
    /\ (llm.Temperature sampleChatConfig = S754_nan
        \/ (SFltb (f64 0 0) (llm.Temperature sampleChatConfig) = true
            /\ SFleb (llm.Temperature sampleChatConfig) (f64 1 0) = true))
    /\ 0 <= llm.MaxTokens sampleChatConfig
    /\ llm.Temperature (llm.config ce) = llm.Temperature sampleChatConfig
    /\ llm.Model (llm.config ce) <> "" /\ 0 < llm.MaxTokens (llm.config ce)
    /\ llm.SystemTemplate (llm.config ce) <> ""
    /\ llm.ContextTemplate (llm.config ce) <> ""
    /\ llm.BaseURL (llm.config ce) <> ""
    /\ llm.ollama_New (llm.Model (llm.config ce)) (llm.BaseURL (llm.config ce))
       = Ok (llm.llm ce).
Proof.
  eexists. split; [vm_compute; reflexivity|].
  apply NewWithConfig_fills_defaults. vm_compute. reflexivity.
Defined.

(** A temperature that is not a number passes the check of the
    constructor. *)
Example NewWithConfig_accepts_NaN :
  exists ce, llm.NewWithConfig nanChatConfig = Ok ce
             /\ llm.Temperature (llm.config ce) = S754_nan.
Proof. eexists. split; vm_compute; reflexivity. Qed.

(** *** The command-line program *)

(** X22, witness: the sample batch and the crawled pages in batches of
    two. *)
Lemma storeBatches_done_witness :
  (exists db', main.storeBatches 4 2 (sampleBatch ++ crawledBatch) 0 emptyDB
               = main.Done db'
               \/ exists err,
                    main.storeBatches 4 2 (sampleBatch ++ crawledBatch) 0 emptyDB
                    = main.Failed err db')
  /\ forall db',
       main.storeBatches 4 2 (sampleBatch ++ crawledBatch) 0 emptyDB
       = main.Done db' ->
       exists rows, store.rowsOf (sampleBatch ++ crawledBatch) = Some rows
                    /\ store.committed db'
                       = store.upsertAll rows (store.committed emptyDB).
Proof.
  apply storeBatches_done.
  - lia.
  - simpl. lia.
Defined.

(** X23, witness: [mixedBatch] in batches of one; the second batch
    fails. *)
Lemma storeBatches_failed_witness :
  exists (k : nat) rows,
    (k * Z.to_nat 1 < length mixedBatch)%nat
    /\ store.rowsOf (take (k * Z.to_nat 1) mixedBatch) = Some rows
    /\ store.committed afterFailedBatch
       = store.upsertAll rows (store.committed emptyDB).
Proof.
  eapply (storeBatches_failed 1 mixedBatch 3 emptyDB afterFailedBatch).
  - lia.
  - simpl. lia.
  - vm_compute. reflexivity.
Defined.

(** X24, witness: the sample batch. *)
Lemma storeBatches_bad_batch_size_witness :
  (0 = 0 ->
     forall fuel db',
       main.storeBatches fuel 0 sampleBatch 0 emptyDB <> main.Done db'
       /\ main.storeBatches fuel 0 sampleBatch 0 emptyDB <> main.Panic)
  /\ (0 < 0 ->
      forall fuel, main.storeBatches (S fuel) 0 sampleBatch 0 emptyDB = main.Panic).
Proof.
  apply storeBatches_bad_batch_size. discriminate.
Defined.

(** X25, witness: [mixedBatch] in batches of one. *)
Lemma storeBatchesSkipping_never_fails_witness :
  (exists db', main.storeBatchesSkipping 3 1 mixedBatch 0 emptyDB = main.Done db')
  /\ (forall db', main.storeBatches 3 1 mixedBatch 0 emptyDB = main.Done db' ->
                  main.storeBatchesSkipping 3 1 mixedBatch 0 emptyDB = main.Done db').
Proof.
  apply storeBatchesSkipping_never_fails.
  - lia.
  - simpl. lia.
Defined.

(** X27, witness: the sample flags, the sample site, whose limiter has a
    positive limit, and the empty table. *)
Lemma ingest_total_witness :
  exists fuel0 : nat, forall fuel, (fuel0 <= fuel)%nat ->
    exists r,
      main.ingest fuel sampleFlags (scraper.freshState siteScraper) emptyDB
      = main.Done r
      \/ exists err,
           main.ingest fuel sampleFlags (scraper.freshState siteScraper) emptyDB
           = main.Failed err r.
Proof.
  apply ingest_total.
  - simpl. lia.
  - intros history. vm_compute. discriminate.
Defined.


(** X29, witness: the short page under the default configuration. *)
Lemma short_pages_are_not_indexed_witness :
  exists processed,
    processor.Process (processor.NewWithConfig (chunkerConfig 0 0 0))
      [shortDocument] = Some (processed, None)
    /\ Forall (fun pd => Chunks pd = []) processed
    /\ Doc <$> processed = [shortDocument]
    /\ store.committed (store.Store processed emptyDB).2 = store.committed emptyDB.
Proof.
  apply short_pages_are_not_indexed.
  repeat constructor.
Defined.
